(** * A shallow embedding of ace's [Document] (src/document.js)

    The document is a mutable array of line strings that is edited only by
    applying deltas.  The embedding keeps the object graph that the code
    manipulates: delta objects, the [{row, column}] point objects they refer
    to and the line arrays they carry live in a store, so that the in-place
    updates of [$splitAndapplyLargeDelta] and the copies made by
    [revertDelta] are visible.  Positions and line arrays that a method only
    reads are passed by value.

    JavaScript numbers that index rows and columns are [Z]; a string is a
    [string], one [ascii] standing for one code unit.  The numbers of the
    code are doubles: they hold every integer up to [JS.MAX_SAFE_INTEGER] in
    magnitude, and their sums and differences are those of [Z] as long as
    the result stays within it.  A statement about an index that need not
    lie in the text of a document says so with that bound. *)

From Stdlib Require Import ZArith Ascii String List Lia Bool.
From stdpp Require Import base list strings.

Local Open Scope Z_scope.

(** ** JavaScript built-ins used by the source *)

Module JS.

Definition strlen (s : string) : Z := Z.of_nat (String.length s).

(** [Number.MAX_SAFE_INTEGER]: every integer up to it in magnitude is a
    number of its own, and a sum or difference of such integers that stays
    within it is exact. *)
Definition MAX_SAFE_INTEGER : Z := 2 ^ 53 - 1.

Fixpoint stake (n : nat) (s : string) : string :=
  match n, s with
  | S n', String c s' => String c (stake n' s')
  | _, _ => EmptyString
  end.

Fixpoint sdrop (n : nat) (s : string) : string :=
  match n, s with
  | S n', String _ s' => sdrop n' s'
  | _, _ => s
  end.

(** [Math.min(Math.max(i, 0), len)] as done by [String.prototype.substring]
    on each of its arguments. *)
Definition clampIndex (len i : Z) : Z := Z.min (Z.max i 0) len.

(** [s.substring(a, b)]: both indices are clamped to [[0, s.length]] and
    swapped when [a > b]. *)
Definition substring (s : string) (a b : Z) : string :=
  let a' := clampIndex (strlen s) a in
  let b' := clampIndex (strlen s) b in
  let lo := Z.min a' b' in
  let hi := Z.max a' b' in
  stake (Z.to_nat (hi - lo)) (sdrop (Z.to_nat lo) s).

(** [s.substring(a)] *)
Definition substringFrom (s : string) (a : Z) : string :=
  substring s a (strlen s).

(** Relative index of [Array.prototype.slice]: a negative index counts from
    the end, everything is clamped to [[0, len]]. *)
Definition relIndex (len i : Z) : Z :=
  if i <? 0 then Z.max (len + i) 0 else Z.min i len.

(** [l.slice(a, b)] *)
Definition slice {A} (l : list A) (a b : Z) : list A :=
  let len := Z.of_nat (length l) in
  let k := relIndex len a in
  let final := relIndex len b in
  take (Z.to_nat (final - k)) (drop (Z.to_nat k) l).

(** [l.slice(a)] *)
Definition sliceFrom {A} (l : list A) (a : Z) : list A :=
  slice l a (Z.of_nat (length l)).

(** [l[i]]: [undefined] (here [None]) outside of the array. *)
Definition index {A} (l : list A) (i : Z) : option A :=
  if i <? 0 then None else l !! Z.to_nat i.

(** [l.join(sep)] on an array of strings. *)
Fixpoint join (sep : string) (l : list string) : string :=
  match l with
  | [] => EmptyString
  | [x] => x
  | x :: rest => x +:+ sep +:+ join sep rest
  end.

(** [!s] on a value that is a string or [undefined]. *)
Definition falsy (o : option string) : bool :=
  match o with
  | None => true
  | Some s => if decide (s = EmptyString) then true else false
  end.

(** [o || dflt] on such a value. *)
Definition orElse (o : option string) (dflt : string) : string :=
  if falsy o then dflt else default dflt o.

Definition CR : ascii := "013"%char.
Definition LF : ascii := "010"%char.

Definition isEOL (c : ascii) : bool :=
  if decide (c = CR) then true else if decide (c = LF) then true else false.

(** [text.split(/\r\n|\r|\n/)]: the pieces between the separators, a
    carriage return directly followed by a line feed counting once. *)
Fixpoint splitEOL (text : string) : list string :=
  match text with
  | EmptyString => [EmptyString]
  | String c rest =>
      if decide (c = CR) then
        match rest with
        | String c' rest' =>
            if decide (c' = LF) then EmptyString :: splitEOL rest'
            else EmptyString :: splitEOL rest
        | EmptyString => EmptyString :: splitEOL rest
        end
      else if decide (c = LF) then EmptyString :: splitEOL rest
      else
        match splitEOL rest with
        | piece :: pieces => String c piece :: pieces
        | [] => [String c EmptyString]
        end
  end.

(** The capture group of [text.match(/^.*?(\r\n|\r|\n)/m)]: the first
    separator of [text], [None] when the text has none.  The lazy [.*?]
    may start after any line terminator, and a terminator that [.] refuses
    is either one of the three separators or starts a new candidate line,
    so the match always ends at the first separator. *)
Fixpoint firstEOL (text : string) : option string :=
  match text with
  | EmptyString => None
  | String c rest =>
      if decide (c = CR) then
        match rest with
        | String c' _ =>
            if decide (c' = LF) then Some (String CR (String LF EmptyString))
            else Some (String CR EmptyString)
        | EmptyString => Some (String CR EmptyString)
        end
      else if decide (c = LF) then Some (String LF EmptyString)
      else firstEOL rest
  end.

End JS.

(** ** Data model *)

(** A [{row, column}] object. *)
Record Point := mkPoint { row : Z; column : Z }.

Inductive Action := insert_ | remove_.

Inductive NewLineMode := windows | unix | auto.

#[global] Instance Action_eq_dec : EqDecision Action.
Proof. solve_decision. Defined.

#[global] Instance NewLineMode_eq_dec : EqDecision NewLineMode.
Proof. solve_decision. Defined.

(** The content of a delta, all fields read. *)
Record Delta := mkDelta {
  start : Point;
  end_ : Point;
  action : Action;
  lines : list string
}.

(** An [{start, end}] object as the methods taking a range read it. *)
Record IRange := mkRange { rstart : Point; rend : Point }.

(** Addresses of objects in the store. *)
Definition ref := nat.

(** A delta object: its [start], [end] and [lines] properties hold
    references, and each property can be reassigned. *)
Record DeltaObj := mkDeltaObj {
  o_start : ref;
  o_end : ref;
  o_action : Action;
  o_lines : ref
}.

(** What [_signal] was called with. *)
Inductive Signal :=
| change (delta : ref)
| changeNewLineMode.

(** The document's own fields; [$] of the source names is written [_]. *)
Record Document := mkDocument {
  _lines : list string;
  _autoNewLine : string;
  _newLineMode : NewLineMode
}.

(** The document, the objects reachable from deltas, and the signals
    emitted so far (oldest first). *)
Record World := mkWorld {
  doc : Document;
  points : list Point;
  arrays : list (list string);
  deltas : list DeltaObj;
  signals : list Signal
}.

(** ** Exceptions and the state monad of the methods *)

Inductive Exn :=
| InvalidDelta       (* thrown by the splice primitive's validation *)
| TypeError          (* a property of [undefined] was read *)
| Diverges.          (* the loop or the recursion does not end *)

Inductive Outcome (A : Type) :=
| Ok (a : A) (w : World)
| Throw (e : Exn) (w : World).
Arguments Ok {A} a w.
Arguments Throw {A} e w.

Definition M (A : Type) := World -> Outcome A.

Definition ret {A} (a : A) : M A := fun w => Ok a w.

Definition bind {A B} (m : M A) (f : A -> M B) : M B :=
  fun w => match m w with
           | Ok a w' => f a w'
           | Throw e w' => Throw e w'
           end.

Definition throw {A} (e : Exn) : M A := fun w => Throw e w.

Definition gets {A} (f : World -> A) : M A := fun w => Ok (f w) w.

Definition modify (f : World -> World) : M unit := fun w => Ok tt (f w).

Declare Scope js_scope.
Delimit Scope js_scope with js.
Notation "'let*' x ':=' m 'in' k" := (bind m (fun x => k))
  (at level 10, x name, m at level 100, k at level 200) : js_scope.
Notation "'let*' ' p ':=' m 'in' k" := (bind m (fun x => let 'p := x in k))
  (at level 10, p pattern, m at level 100, k at level 200) : js_scope.
Notation "m ;; k" := (bind m (fun _ => k))
  (at level 100, k at level 200, right associativity) : js_scope.
Local Open Scope js_scope.

(** The world an outcome ends in. *)
Definition worldOf {A} (o : Outcome A) : World :=
  match o with Ok _ w => w | Throw _ w => w end.

Definition orThrow {A} (o : option A) (e : Exn) : M A :=
  match o with Some a => ret a | None => throw e end.

(** *** Store operations *)

Definition setDoc (d : Document) (w : World) : World :=
  mkWorld d (points w) (arrays w) (deltas w) (signals w).
Definition setPoints (ps : list Point) (w : World) : World :=
  mkWorld (doc w) ps (arrays w) (deltas w) (signals w).
Definition setArrays (arrs : list (list string)) (w : World) : World :=
  mkWorld (doc w) (points w) arrs (deltas w) (signals w).
Definition setDeltas (ds : list DeltaObj) (w : World) : World :=
  mkWorld (doc w) (points w) (arrays w) ds (signals w).
Definition setSignals (sg : list Signal) (w : World) : World :=
  mkWorld (doc w) (points w) (arrays w) (deltas w) sg.

(** An object literal [{row: .., column: ..}]. *)
Definition newPoint (p : Point) : M ref :=
  fun w => Ok (length (points w)) (setPoints (points w ++ [p]) w).

(** A new array. *)
Definition newArray (l : list string) : M ref :=
  fun w => Ok (length (arrays w)) (setArrays (arrays w ++ [l]) w).

(** An object literal [{start: .., end: .., action: .., lines: ..}]. *)
Definition newDelta (o : DeltaObj) : M ref :=
  fun w => Ok (length (deltas w)) (setDeltas (deltas w ++ [o]) w).

Definition readPoint (r : ref) : M Point :=
  fun w => orThrow (points w !! r) TypeError w.
Definition readArray (r : ref) : M (list string) :=
  fun w => orThrow (arrays w !! r) TypeError w.
Definition readDelta (r : ref) : M DeltaObj :=
  fun w => orThrow (deltas w !! r) TypeError w.

Definition writePoint (r : ref) (p : Point) : M unit :=
  modify (fun w => setPoints (<[r := p]> (points w)) w).
Definition writeDelta (r : ref) (o : DeltaObj) : M unit :=
  modify (fun w => setDeltas (<[r := o]> (deltas w)) w).

(** The four properties of a delta object, dereferenced. *)
Definition deltaAt (w : World) (r : ref) : option Delta :=
  o ← deltas w !! r;
  s ← points w !! o_start o;
  e ← points w !! o_end o;
  l ← arrays w !! o_lines o;
  Some (mkDelta s e (o_action o) l).

(** ** Collaborators that are not part of document.js *)

Module Range.

(** Modelled from the spec: range.js is missing; the spec has a "Range
    type with total order (row,column) comparator and an emptiness
    predicate", ranges being "ordered by row then column".  The comparator
    is the difference of the rows, or of the columns when the rows are
    equal. *)
Definition comparePoints (p1 p2 : Point) : Z :=
  if row p1 - row p2 =? 0 then column p1 - column p2 else row p1 - row p2.

(** Modelled from the spec: the emptiness predicate of the missing range
    type, start and end being the same position. *)
Definition isEmpty (r : IRange) : bool :=
  (row (rstart r) =? row (rend r)) && (column (rstart r) =? column (rend r)).

(** Modelled from the spec: [new Range(startRow, startColumn, endRow,
    endColumn)] of the missing range type. *)
Definition new (startRow startColumn endRow endColumn : Z) : IRange :=
  mkRange (mkPoint startRow startColumn) (mkPoint endRow endColumn).

End Range.

Module EventEmitter.

(** Modelled from the spec: lib/event_emitter.js is missing; delivery is
    "synchronous, in-registration-order".  The subscribers are outside of
    the model: a signal is recorded. *)
Definition _signal (s : Signal) : M unit :=
  modify (fun w => setSignals (signals w ++ [s]) w).

End EventEmitter.

Module ApplyDelta.

(** Modelled from the spec: the line of a row as the primitive reads it,
    the line [docLines[row]], or the empty string where there is none. *)
Definition lineAt (docLines : list string) (r : Z) : string :=
  JS.orElse (JS.index docLines r) EmptyString.

(** Modelled from the spec: a position of the document has "row >= 0,
    column >= 0 and <= length of line at row". *)
Definition positionInDocument (docLines : list string) (p : Point) : bool :=
  (0 <=? row p) && (row p <? Z.of_nat (length docLines)) &&
  (0 <=? column p) && (column p <=? JS.strlen (lineAt docLines (row p))).

(** Modelled from the spec: apply_delta.js is missing; the primitive
    "raises a validation failure for malformed deltas unless validation is
    skipped".  A delta is taken as malformed when its start is no position
    of the document, when it removes and its end is no position of the
    document, or when the rows it spans are not one less than its lines
    ("lines.length-1 == end.row-start.row"). *)
Definition validateDelta (docLines : list string) (d : Delta) : bool :=
  positionInDocument docLines (start d) &&
  match action d with
  | remove_ => positionInDocument docLines (end_ d)
  | insert_ => true
  end &&
  (row (end_ d) - row (start d) =? Z.of_nat (length (lines d)) - 1).

(** Modelled from the spec: the inserted lines with the text before the
    insertion point put in front of the first one and the text after it
    behind the last one ("merges the first/last inserted lines into
    existing adjacent content at the split point"). *)
Definition mergeLines (before : string) (ls : list string) (after : string)
  : list string :=
  match ls with
  | [] => [before +:+ after]
  | [x] => [before +:+ x +:+ after]
  | x :: rest =>
      (before +:+ x) :: removelast rest ++ [List.last rest EmptyString +:+ after]
  end.

(** Modelled from the spec: the "low-level line-splice primitive that
    physically rewrites the line array given an already-validated delta".
    An insert splits the line at [start] and puts the lines in between,
    "merg[ing] the first/last inserted lines into existing adjacent
    content at the split point"; a remove joins what is before [start] on
    its row with what is after [end] on its row and drops the rows in
    between. *)
Definition splice (docLines : list string) (d : Delta) : option (list string) :=
  let r := row (start d) in
  let startColumn := column (start d) in
  let line := lineAt docLines r in
  match action d with
  | insert_ =>
      Some (take (Z.to_nat r) docLines
            ++ mergeLines (JS.substring line 0 startColumn) (lines d)
                          (JS.substringFrom line startColumn)
            ++ drop (S (Z.to_nat r)) docLines)
  | remove_ =>
      let endColumn := column (end_ d) in
      let endRow := row (end_ d) in
      if r =? endRow then
        Some (take (Z.to_nat r) docLines
              ++ [JS.substring line 0 startColumn +:+ JS.substringFrom line endColumn]
              ++ drop (S (Z.to_nat r)) docLines)
      else
        match JS.index docLines endRow with
        | None => None
        | Some endLine =>
            Some (take (Z.to_nat r) docLines
                  ++ [JS.substring line 0 startColumn
                      +:+ JS.substringFrom endLine endColumn]
                  ++ drop (Z.to_nat r + Z.to_nat (endRow - r + 1)) docLines)
        end
  end.

(** Modelled from the spec: the exported [applyDelta(docLines, delta,
    doNotValidate)] of the missing apply_delta.js: validation first, unless
    skipped, then the splice.  The line array is the document's [$lines],
    rewritten in place. *)
Definition applyDelta (d : Delta) (doNotValidate : bool) : M unit :=
  fun w =>
    let docLines := _lines (doc w) in
    if negb doNotValidate && negb (validateDelta docLines d)
    then Throw InvalidDelta w
    else match splice docLines d with
         | None => Throw TypeError w
         | Some docLines' =>
             Ok tt (setDoc (mkDocument docLines' (_autoNewLine (doc w))
                                       (_newLineMode (doc w))) w)
         end.

End ApplyDelta.

(** ** The methods of [Document] that only read *)

Definition getLength (D : Document) : Z := Z.of_nat (length (_lines D)).

(** [getLine(row)]: the line, or the empty string where there is none. *)
Definition getLine (D : Document) (r : Z) : string :=
  JS.orElse (JS.index (_lines D) r) EmptyString.

Definition getLines (D : Document) (firstRow lastRow : Z) : list string :=
  JS.slice (_lines D) firstRow (lastRow + 1).

Definition getAllLines (D : Document) : list string :=
  getLines D 0 (getLength D).

Definition getNewLineCharacter (D : Document) : string :=
  match _newLineMode D with
  | windows => String JS.CR (String JS.LF EmptyString)
  | unix => String JS.LF EmptyString
  | auto => JS.orElse (Some (_autoNewLine D)) (String JS.LF EmptyString)
  end.

Definition getNewLineMode (D : Document) : NewLineMode := _newLineMode D.

Definition getValue (D : Document) : string :=
  JS.join (getNewLineCharacter D) (getAllLines D).

Definition getLinesForRange (D : Document) (range : IRange) : list string :=
  let s := rstart range in
  let e := rend range in
  if row s =? row e then
    [JS.substring (getLine D (row s)) (column s) (column e)]
  else
    let ls := getLines D (row s) (row e) in
    let ls := match ls with
              | [] => [JS.substringFrom EmptyString (column s)]
              | first :: rest =>
                  JS.substringFrom (JS.orElse (Some first) EmptyString) (column s) :: rest
              end in
    let l := Z.of_nat (length ls) - 1 in
    if row e - row s =? l then
      match JS.index ls l with
      | Some lastLine => <[Z.to_nat l := JS.substring lastLine 0 (column e)]> ls
      | None => ls
      end
    else ls.

Definition getTextRange (D : Document) (range : IRange) : string :=
  JS.join (getNewLineCharacter D) (getLinesForRange D range).

(** [clippedPos(row, column)]; [None] is [undefined]. *)
Definition clippedPos (D : Document) (r c : option Z) : Point :=
  let length := getLength D in
  let '(r, c) :=
    match r with
    | None => (length, c)
    | Some r =>
        if r <? 0 then (0, c)
        else if r >=? length then (length - 1, None)
        else (r, c)
    end in
  let line := getLine D r in
  let c := match c with None => JS.strlen line | Some c => c end in
  let c := Z.min (Z.max c 0) (JS.strlen line) in
  mkPoint r c.

Definition clonePos (p : Point) : Point := mkPoint (row p) (column p).

Definition pos (r c : Z) : Point := mkPoint r c.

(** The loop of [indexToPosition] over the rows from [i] on: the position
    when it returns from inside the loop, else the index left over. *)
Fixpoint indexToPosition_loop (rest : list string) (i index newlineLength : Z)
  : Point + Z :=
  match rest with
  | [] => inr index
  | line :: rest' =>
      let index := index - (JS.strlen line + newlineLength) in
      if index <? 0
      then inl (mkPoint i (index + JS.strlen line + newlineLength))
      else indexToPosition_loop rest' (i + 1) index newlineLength
  end.

(** [indexToPosition(index, startRow)]; [None] when [lines[i].length] is
    read on a row that does not exist.  The index is counted down in [Z],
    as the code does as long as the index and what is taken from it are
    within [JS.MAX_SAFE_INTEGER]. *)
Definition indexToPosition (D : Document) (index : Z) (startRow : option Z)
  : option Point :=
  let lines := _lines D in
  let newlineLength := JS.strlen (getNewLineCharacter D) in
  let i := default 0 startRow in
  let l := Z.of_nat (length lines) in
  if i <? 0 then None
  else
    match indexToPosition_loop (drop (Z.to_nat i) lines) i index newlineLength with
    | inl p => Some p
    | inr index =>
        match JS.index lines (l - 1) with
        | Some lastLine =>
            Some (mkPoint (l - 1) (index + JS.strlen lastLine + newlineLength))
        | None => None
        end
    end.

(** The loop of [positionToIndex] over the rows before [row]. *)
Fixpoint positionToIndex_loop (rows : list string) (index newlineLength : Z) : Z :=
  match rows with
  | [] => index
  | line :: rows' =>
      positionToIndex_loop rows' (index + (JS.strlen line + newlineLength)) newlineLength
  end.

(** [positionToIndex(pos, startRow)]; [None] when a row that does not exist
    is read.  The sum is that of [Z], as in the code as long as the column
    and the lengths added to it are within [JS.MAX_SAFE_INTEGER]. *)
Definition positionToIndex (D : Document) (p : Point) (startRow : option Z)
  : option Z :=
  let lines := _lines D in
  let newlineLength := JS.strlen (getNewLineCharacter D) in
  let r := Z.min (row p) (Z.of_nat (length lines)) in
  let i := default 0 startRow in
  if (i <? 0) && (i <? r) then None
  else
    Some (positionToIndex_loop
            (take (Z.to_nat (r - i)) (drop (Z.to_nat i) lines)) 0 newlineLength
          + column p).

Definition _split (text : string) : list string := JS.splitEOL text.

(** ** The methods of [Document] that write *)

Definition setLines (ls : list string) : M unit :=
  modify (fun w => setDoc (mkDocument ls (_autoNewLine (doc w)) (_newLineMode (doc w))) w).

Definition _detectNewLine (text : string) : M unit :=
  modify (fun w =>
    setDoc (mkDocument (_lines (doc w))
                       (default (String JS.LF EmptyString) (JS.firstEOL text))
                       (_newLineMode (doc w))) w) ;;
  EventEmitter._signal changeNewLineMode.

Definition setNewLineMode (newLineMode : NewLineMode) : M unit :=
  let* D := gets doc in
  if decide (_newLineMode D = newLineMode) then ret tt
  else
    modify (fun w => setDoc (mkDocument (_lines (doc w)) (_autoNewLine (doc w))
                                        newLineMode) w) ;;
    EventEmitter._signal changeNewLineMode.

(** [chunk.push(x)] on the array at [r]. *)
Definition pushArray (r : ref) (x : string) : M unit :=
  let* l := readArray r in
  modify (fun w => setArrays (<[r := l ++ [x]]> (arrays w)) w).

Section Split.

(** [this.applyDelta], which the splitting calls back. *)
Variable applyDelta : ref -> bool -> M unit.

(** The [for] loop of [$splitAndapplyLargeDelta]; it ends with the values
    of [from] and [column].  Each round moves [from] on by [MAX - 1], so
    [l] rounds are enough unless [MAX - 1] is not positive, in which case
    the loop does not end. *)
Fixpoint splitLoop (fuel : nat) (delta : ref) (lines : list string)
    (MAX l r : Z) (from to c : Z) : M (Z * Z) :=
  if from <? l then
    match fuel with
    | O => throw Diverges
    | S fuel' =>
        let to := to + (MAX - 1) in
        let* chunk := newArray (JS.slice lines from to) in
        pushArray chunk EmptyString ;;
        let* s := newPoint (pos (r + from) c) in
        let* e := newPoint (pos (r + to) 0) in
        let* o := readDelta delta in
        let* d := newDelta (mkDeltaObj s e (o_action o) chunk) in
        applyDelta d true ;;
        splitLoop fuel' delta lines MAX l r to to 0
    end
  else ret (from, c).

Definition _splitAndapplyLargeDelta (delta : ref) (MAX : Z) : M unit :=
  let* o := readDelta delta in
  let* lines := readArray (o_lines o) in
  let l := Z.of_nat (length lines) - MAX + 1 in
  let* s := readPoint (o_start o) in
  let r := row s in
  let c := column s in
  let* '(from, c) := splitLoop (Z.to_nat l) delta lines MAX l r 0 0 c in
  (* Update remaining delta. *)
  let* tail := newArray (JS.sliceFrom lines from) in
  let* o := readDelta delta in
  writeDelta delta (mkDeltaObj (o_start o) (o_end o) (o_action o) tail) ;;
  let* o := readDelta delta in
  let* s := readPoint (o_start o) in
  writePoint (o_start o) (mkPoint (r + from) (column s)) ;;
  let* o := readDelta delta in
  let* s := readPoint (o_start o) in
  writePoint (o_start o) (mkPoint (row s) c) ;;
  applyDelta delta true.

End Split.

(** [applyDelta(delta, doNotValidate)].  The method and
    [$splitAndapplyLargeDelta] call each other; [depth] bounds the nesting of
    the splitting. *)
Fixpoint applyDelta_ (depth : nat) (delta : ref) (doNotValidate : bool) : M unit :=
  let* o := readDelta delta in
  let isInsert := if o_action o is insert_ then true else false in
  let* ls := readArray (o_lines o) in
  let* s := readPoint (o_start o) in
  let* e := readPoint (o_end o) in
  (* An empty range is a NOOP. *)
  if (if isInsert
      then (Z.of_nat (length ls) <=? 1) && JS.falsy (JS.index ls 0)
      else Range.comparePoints s e =? 0)
  then ret tt
  else if isInsert && (Z.of_nat (length ls) >? 20000) then
    match depth with
    | O => throw Diverges
    | S depth' => _splitAndapplyLargeDelta (applyDelta_ depth') delta 20000
    end
  else
    ApplyDelta.applyDelta (mkDelta s e (o_action o) ls) doNotValidate ;;
    EventEmitter._signal (change delta).

(** The chunks and the tail that the splitting hands back hold at most 20000
    lines, so one level of nesting is all there is. *)
Definition applyDelta : ref -> bool -> M unit := applyDelta_ 1.

Definition _safeApplyDelta (delta : ref) : M unit :=
  let* docLength := gets (fun w => Z.of_nat (length (_lines (doc w)))) in
  let* o := readDelta delta in
  let* s := readPoint (o_start o) in
  let* e := readPoint (o_end o) in
  (* verify that delta is in the document *)
  if match o_action o with
     | remove_ => (row s <? docLength) && (row e <? docLength)
     | insert_ => row s <=? docLength
     end
  then applyDelta delta false
  else ret tt.

Definition revertDelta (delta : ref) : M unit :=
  let* o := readDelta delta in
  let* s := readPoint (o_start o) in
  let* s' := newPoint (clonePos s) in
  let* e := readPoint (o_end o) in
  let* e' := newPoint (clonePos e) in
  let* ls := readArray (o_lines o) in
  let* ls' := newArray (JS.sliceFrom ls 0) in
  let* d := newDelta (mkDeltaObj s' e'
                        (if o_action o is insert_ then remove_ else insert_) ls') in
  _safeApplyDelta d.

Fixpoint applyDeltas (ds : list ref) : M unit :=
  match ds with
  | [] => ret tt
  | d :: ds' => applyDelta d false ;; applyDeltas ds'
  end.

Definition revertDeltas (ds : list ref) : M unit :=
  (fix go (rs : list ref) : M unit :=
     match rs with
     | [] => ret tt
     | d :: rs' => revertDelta d ;; go rs'
     end) (rev ds).

(** An object literal [{start, end, action, lines}] built from values; the
    array is the caller's, which nothing writes to. *)
Definition newDeltaOf (s e : Point) (a : Action) (ls : list string) : M (ref * ref * ref) :=
  let* s' := newPoint s in
  let* e' := newPoint e in
  let* ls' := newArray ls in
  let* d := newDelta (mkDeltaObj s' e' a ls') in
  ret (d, s', e').

Definition insertMergedLines (position : Point) (ls : list string) : M Point :=
  let* D := gets doc in
  let s := clippedPos D (Some (row position)) (Some (column position)) in
  let n := Z.of_nat (length ls) in
  let* lastLine := orThrow (JS.index ls (n - 1)) TypeError in
  let e := mkPoint (row s + n - 1)
                   ((if n =? 1 then column s else 0) + JS.strlen lastLine) in
  let* '(d, _, e') := newDeltaOf s e insert_ ls in
  applyDelta d false ;;
  let* e := readPoint e' in
  ret (clonePos e).

Definition insert (position : Point) (text : string) : M Point :=
  let* D := gets doc in
  (* Only detect new lines if the document has no line break yet. *)
  (if getLength D <=? 1 then _detectNewLine text else ret tt) ;;
  insertMergedLines position (_split text).

Definition insertInLine (position : Point) (text : string) : M Point :=
  let* D := gets doc in
  let s := clippedPos D (Some (row position)) (Some (column position)) in
  let e := pos (row position) (column position + JS.strlen text) in
  let* '(d, _, e') := newDeltaOf s e insert_ [text] in
  applyDelta d true ;;
  let* e := readPoint e' in
  ret (clonePos e).

Definition insertFullLines (r : Z) (ls : list string) : M unit :=
  let* D := gets doc in
  (* Clip to document.  Allow one past the document end. *)
  let r := Z.min (Z.max r 0) (getLength D) in
  if r <? getLength D then
    (* Insert before the specified row. *)
    insertMergedLines (mkPoint r 0) (ls ++ [EmptyString]) ;; ret tt
  else
    (* Insert after the last row in the document. *)
    let r := r - 1 in
    let* line := orThrow (JS.index (_lines D) r) TypeError in
    insertMergedLines (mkPoint r (JS.strlen line)) ([EmptyString] ++ ls) ;; ret tt.

Definition remove (range : IRange) : M Point :=
  let* D := gets doc in
  let s := clippedPos D (Some (row (rstart range))) (Some (column (rstart range))) in
  let e := clippedPos D (Some (row (rend range))) (Some (column (rend range))) in
  let* '(d, s', _) := newDeltaOf s e remove_ (getLinesForRange D (mkRange s e)) in
  applyDelta d false ;;
  let* s := readPoint s' in
  ret (clonePos s).

Definition removeInLine (r startColumn endColumn : Z) : M Point :=
  let* D := gets doc in
  let s := clippedPos D (Some r) (Some startColumn) in
  let e := clippedPos D (Some r) (Some endColumn) in
  let* '(d, s', _) := newDeltaOf s e remove_ (getLinesForRange D (mkRange s e)) in
  applyDelta d true ;;
  let* s := readPoint s' in
  ret (clonePos s).

Definition removeFullLines (firstRow lastRow : Z) : M (list string) :=
  let* D := gets doc in
  (* Clip to document. *)
  let firstRow := Z.min (Z.max 0 firstRow) (getLength D - 1) in
  let lastRow := Z.min (Z.max 0 lastRow) (getLength D - 1) in
  (* Delete the ending new line unless we're at the end of the document.
     If we're at the end of the document, delete the starting new line. *)
  let deleteFirstNewLine := (lastRow =? getLength D - 1) && (firstRow >? 0) in
  let deleteLastNewLine := lastRow <? getLength D - 1 in
  let startRow := if deleteFirstNewLine then firstRow - 1 else firstRow in
  let startCol := if deleteFirstNewLine then JS.strlen (getLine D startRow) else 0 in
  let endRow := if deleteLastNewLine then lastRow + 1 else lastRow in
  let endCol := if deleteLastNewLine then 0 else JS.strlen (getLine D endRow) in
  let range := Range.new startRow startCol endRow endCol in
  (* Store deleted lines with bounding newlines omitted. *)
  let deletedLines := JS.slice (_lines D) firstRow (lastRow + 1) in
  let* '(d, _, _) := newDeltaOf (rstart range) (rend range) remove_
                                (getLinesForRange D range) in
  applyDelta d false ;;
  (* Return the deleted lines. *)
  ret deletedLines.

Definition removeNewLine (r : Z) : M unit :=
  let* D := gets doc in
  if (r <? getLength D - 1) && (r >=? 0) then
    let* '(d, _, _) := newDeltaOf (pos r (JS.strlen (getLine D r))) (pos (r + 1) 0)
                                  remove_ [EmptyString; EmptyString] in
    applyDelta d false
  else ret tt.

Definition replace (range : IRange) (text : string) : M Point :=
  let* D := gets doc in
  if (JS.strlen text =? 0) && Range.isEmpty range then ret (rstart range)
  else if decide (text = getTextRange D range) then ret (rend range)
  else
    remove range ;;
    if JS.falsy (Some text) then ret (rstart range)
    else insert (rstart range) text.

Definition setValue (text : string) : M unit :=
  let* D := gets doc in
  let len := getLength D - 1 in
  remove (Range.new 0 0 len (JS.strlen (getLine D len))) ;;
  insert (mkPoint 0 0) (JS.orElse (Some text) EmptyString) ;;
  ret tt.

(** The fields a document has before its constructor runs: the defaults of
    the prototype, and no objects around. *)
Definition protoWorld : World :=
  mkWorld (mkDocument [] EmptyString auto) [] [] [] [].

(** [constructor(textOrLines)] *)
Definition constructor (textOrLines : string + list string) : M unit :=
  setLines [EmptyString] ;;
  match textOrLines with
  | inl text =>
      if JS.strlen text =? 0 then setLines [EmptyString]
      else insert (mkPoint 0 0) text ;; ret tt
  | inr ls =>
      if Z.of_nat (length ls) =? 0 then setLines [EmptyString]
      else insertMergedLines (mkPoint 0 0) ls ;; ret tt
  end.

(** [new Document(textOrLines)] *)
Definition newDocument (textOrLines : string + list string) : Outcome unit :=
  constructor textOrLines protoWorld.

(** The calls a client can make on a document; a delta handed to
    [applyDelta] or [revertDelta] is an object of the client's. *)
Inductive Call :=
| CallSetValue (text : string)
| CallSetNewLineMode (mode : NewLineMode)
| CallInsert (position : Point) (text : string)
| CallInsertInLine (position : Point) (text : string)
| CallInsertFullLines (r : Z) (ls : list string)
| CallInsertMergedLines (position : Point) (ls : list string)
| CallRemove (range : IRange)
| CallRemoveInLine (r startColumn endColumn : Z)
| CallRemoveFullLines (firstRow lastRow : Z)
| CallRemoveNewLine (r : Z)
| CallReplace (range : IRange) (text : string)
| CallApplyDelta (d : Delta) (doNotValidate : bool)
| CallRevertDelta (d : Delta)
| CallApplyDeltas (ds : list Delta)
| CallRevertDeltas (ds : list Delta).

Definition newDeltas (ds : list Delta) : M (list ref) :=
  (fix go (ds : list Delta) : M (list ref) :=
     match ds with
     | [] => ret []
     | d :: ds' =>
         let* '(r, _, _) := newDeltaOf (start d) (end_ d) (action d) (lines d) in
         let* rs := go ds' in
         ret (r :: rs)
     end) ds.

Definition call (c : Call) : M unit :=
  match c with
  | CallSetValue text => setValue text
  | CallSetNewLineMode mode => setNewLineMode mode
  | CallInsert p text => insert p text ;; ret tt
  | CallInsertInLine p text => insertInLine p text ;; ret tt
  | CallInsertFullLines r ls => insertFullLines r ls
  | CallInsertMergedLines p ls => insertMergedLines p ls ;; ret tt
  | CallRemove range => remove range ;; ret tt
  | CallRemoveInLine r c1 c2 => removeInLine r c1 c2 ;; ret tt
  | CallRemoveFullLines r1 r2 => removeFullLines r1 r2 ;; ret tt
  | CallRemoveNewLine r => removeNewLine r
  | CallReplace range text => replace range text ;; ret tt
  | CallApplyDelta d skip =>
      let* '(r, _, _) := newDeltaOf (start d) (end_ d) (action d) (lines d) in
      applyDelta r skip
  | CallRevertDelta d =>
      let* '(r, _, _) := newDeltaOf (start d) (end_ d) (action d) (lines d) in
      revertDelta r
  | CallApplyDeltas ds => let* rs := newDeltas ds in applyDeltas rs
  | CallRevertDeltas ds => let* rs := newDeltas ds in revertDeltas rs
  end.

(** A sequence of calls, each one made whether or not the one before threw
    (a client may catch); the world after the last one. *)
Fixpoint calls (cs : list Call) (w : World) : World :=
  match cs with
  | [] => w
  | c :: cs' => calls cs' (worldOf (call c w))
  end.


(** ** Auxiliary definitions of the statements *)

(** The test of [applyDelta] for a delta that changes nothing. *)
Definition isNoop (D : Delta) : bool :=
  match action D with
  | insert_ => (Z.of_nat (length (lines D)) <=? 1) && JS.falsy (JS.index (lines D) 0)
  | remove_ => Range.comparePoints (start D) (end_ D) =? 0
  end.

(** The test of [applyDelta] for a delta that is split. *)
Definition isLarge (D : Delta) : bool :=
  match action D with
  | insert_ => Z.of_nat (length (lines D)) >? 20000
  | remove_ => false
  end.


(** A delta whose rows no longer fit a document of [docLength] lines. *)
Definition stale (docLength : Z) (D : Delta) : Prop :=
  (action D = remove_ /\ (docLength <= row (start D) \/ docLength <= row (end_ D))) \/
  (action D = insert_ /\ docLength < row (start D)).

(** A delta whose rows fit. *)
Definition fitting (docLength : Z) (D : Delta) : Prop :=
  (action D = remove_ /\ row (start D) < docLength /\ row (end_ D) < docLength) \/
  (action D = insert_ /\ row (start D) <= docLength).

Definition invertAction (a : Action) : Action :=
  match a with insert_ => remove_ | remove_ => insert_ end.

(** The content of the delta that [revertDelta] builds from [D]. *)
Definition inverseOf (D : Delta) : Delta :=
  mkDelta (start D) (end_ D) (invertAction (action D)) (lines D).

(** The world once [revertDelta] has built its delta from [D]: two points,
    an array and a delta object more, at the end of the store. *)
Definition withInverse (w : World) (D : Delta) : World :=
  mkWorld (doc w)
          (points w ++ [start D; end_ D])
          (arrays w ++ [lines D])
          (deltas w ++ [mkDeltaObj (length (points w)) (S (length (points w)))
                                   (invertAction (action D)) (length (arrays w))])
          (signals w).

(** The line store after the splice of an insert of [ls] at [p]. *)
Definition insertLines (X : list string) (p : Point) (ls : list string)
  : list string :=
  let line := ApplyDelta.lineAt X (row p) in
  take (Z.to_nat (row p)) X
  ++ ApplyDelta.mergeLines (JS.substring line 0 (column p)) ls
                           (JS.substringFrom line (column p))
  ++ drop (S (Z.to_nat (row p))) X.

(** The first line with [before] in front of it. *)
Definition prefixFirst (before : string) (ls : list string) : list string :=
  match ls with
  | [] => []
  | x :: rest => (before +:+ x) :: rest
  end.

(** The last line with [after] behind it. *)
Definition suffixLast (ls : list string) (after : string) : list string :=
  removelast ls ++ [List.last ls EmptyString +:+ after].

(** The world after a delta object [d] was spliced in as [ls] and
    signalled. *)
Definition spliced (w : World) (ls : list string) (d : ref) : World :=
  mkWorld (mkDocument ls (_autoNewLine (doc w)) (_newLineMode (doc w)))
          (points w) (arrays w) (deltas w) (signals w ++ [change d]).

(** The delta objects that the loop of [$splitAndapplyLargeDelta] makes for
    the windows [Ws], the store holding [np] points and [na] arrays before. *)
Fixpoint chunkDeltas (np na : nat) (Ws : list (list string)) : list DeltaObj :=
  match Ws with
  | [] => []
  | _ :: Ws' => mkDeltaObj np (S np) insert_ na :: chunkDeltas (S (S np)) (S na) Ws'
  end.

(** The start and end points of these delta objects. *)
Fixpoint chunkPoints (r from c : Z) (Ws : list (list string)) : list Point :=
  match Ws with
  | [] => []
  | W :: Ws' =>
      pos (r + from) c :: pos (r + (from + Z.of_nat (length W))) 0
      :: chunkPoints r (from + Z.of_nat (length W)) 0 Ws'
  end.

(** The line store after the windows [Ws] were inserted at [p], each with
    its empty line at the end. *)
Definition afterWindows (X : list string) (p : Point) (Ws : list (list string))
  : list string :=
  match Ws with
  | [] => X
  | _ => insertLines X p (concat Ws ++ [EmptyString])
  end.

(** A one-line empty document and a client's insert of 20001 lines at its
    start, not applied yet. *)
Definition bigLines : list string := repeat "x" (Z.to_nat 20001).

Definition bigDelta : Delta :=
  mkDelta (mkPoint 0 0) (mkPoint 20000 1) insert_ bigLines.

Definition bigWorld : World :=
  mkWorld (mkDocument [EmptyString] EmptyString auto)
          [mkPoint 0 0; mkPoint 20000 1] [bigLines]
          [mkDeltaObj 0%nat 1%nat insert_ 0%nat] [].

(** The same insert with its start two rows down, below the only row of the
    document. *)
Definition belowDelta : Delta :=
  mkDelta (mkPoint 2 0) (mkPoint 20002 1) insert_ bigLines.

Definition belowWorld : World :=
  mkWorld (mkDocument [EmptyString] EmptyString auto)
          [mkPoint 2 0; mkPoint 20002 1] [bigLines]
          [mkDeltaObj 0%nat 1%nat insert_ 0%nat] [].

(** An insert of 39999 lines, the last of them empty, at the start of the
    one-line empty document: two windows and an empty line. *)
Definition emptyTailLines : list string :=
  repeat "x" (Z.to_nat 39998) ++ [EmptyString].

Definition emptyTailDelta : Delta :=
  mkDelta (mkPoint 0 0) (mkPoint 39998 0) insert_ emptyTailLines.

Definition emptyTailWorld : World :=
  mkWorld (mkDocument [EmptyString] EmptyString auto)
          [mkPoint 0 0; mkPoint 39998 0] [emptyTailLines]
          [mkDeltaObj 0%nat 1%nat insert_ 0%nat] [].

(** The lines of the deltas that [change] was signalled with, as the delta
    objects hold them in [w]. *)
Definition signalled (w : World) : list (list string) :=
  omap (fun s => match s with
                 | change d => lines <$> deltaAt w d
                 | changeNewLineMode => None
                 end) (signals w).

(** What a chunk carries of the insert: its lines without the empty string
    that was pushed behind the window. *)
Definition realContent (chunk : list string) : list string :=
  removelast chunk.

(** Every cell of [l] is still there, with its content, in [l']. *)
Definition preserved {A} (l l' : list A) : Prop :=
  forall r x, l !! r = Some x -> l' !! r = Some x.

(** The line store holds a line at least. *)
Definition hasLine (w : World) : Prop := 1 <= getLength (doc w).

(** A computation that keeps this so from any world, whether it returns or
    throws. *)
Definition keepsLine {A} (m : M A) : Prop :=
  forall w, hasLine w -> hasLine (worldOf (m w)).

(** The line store after the splice of a remove from [s] to [e]. *)
Definition removeLines (X : list string) (s e : Point) : list string :=
  take (Z.to_nat (row s)) X
  ++ [JS.substring (ApplyDelta.lineAt X (row s)) 0 (column s)
      +:+ JS.substringFrom (ApplyDelta.lineAt X (row e)) (column e)]
  ++ drop (S (Z.to_nat (row e))) X.

(** The world once a method has built a delta object with the content [D]:
    two points, an array and the delta object more. *)
Definition withDelta (w : World) (D : Delta) : World :=
  mkWorld (doc w)
          (points w ++ [start D; end_ D])
          (arrays w ++ [lines D])
          (deltas w ++ [mkDeltaObj (length (points w)) (S (length (points w)))
                                   (action D) (length (arrays w))])
          (signals w).

(** [Math.min(Math.max(0, r), this.getLength() - 1)] *)
Definition clipRow (D : Document) (r : Z) : Z :=
  Z.min (Z.max 0 r) (getLength D - 1).

(** [removeFullLines(firstRow, lastRow)] returns the rows from [firstRow] to
    [lastRow] and leaves the line store without these rows: one line less
    for each of them, which is one boundary newline consumed. *)
Definition removesRows (w : World) (firstRow lastRow : Z) : Prop :=
  let X := _lines (doc w) in
  let f := clipRow (doc w) firstRow in
  let l := clipRow (doc w) lastRow in
  exists w',
    removeFullLines firstRow lastRow w
    = Ok (take (Z.to_nat (l - f + 1)) (drop (Z.to_nat f) X)) w' /\
    _lines (doc w') = take (Z.to_nat f) X ++ drop (S (Z.to_nat l)) X.

(** A line: a string without carriage return and line feed. *)
Fixpoint noEOL (s : string) : bool :=
  match s with
  | EmptyString => true
  | String c rest => negb (JS.isEOL c) && noEOL rest
  end.

(** The three line separators. *)
Definition isSeparator (sep : string) : Prop :=
  sep = String JS.LF EmptyString \/
  sep = String JS.CR (String JS.LF EmptyString) \/
  sep = String JS.CR EmptyString.

(** Where an insert of [ls] at [s] ends. *)
Definition insertEnd (s : Point) (ls : list string) : Point :=
  mkPoint (row s + Z.of_nat (length ls) - 1)
          ((if Z.of_nat (length ls) =? 1 then column s else 0)
           + JS.strlen (List.last ls EmptyString)).

(** A delta as the data model has it for a document [D0] it is about to be
    applied to: the start is a position of the document; an insert has lines
    and ends where they end; a remove ends at a position of the document not
    before its start, and its lines are the content of the range. *)
Definition wellFormed (D0 : Document) (D : Delta) : Prop :=
  ApplyDelta.positionInDocument (_lines D0) (start D) = true /\
  match action D with
  | insert_ => lines D <> [] /\ end_ D = insertEnd (start D) (lines D)
  | remove_ =>
      ApplyDelta.positionInDocument (_lines D0) (end_ D) = true /\
      Range.comparePoints (start D) (end_ D) <= 0 /\
      lines D = getLinesForRange D0 (mkRange (start D) (end_ D))
  end.

(** Whether a call returned. *)
Definition returned {A} (o : Outcome A) : bool :=
  match o with Ok _ _ => true | Throw _ _ => false end.

(** ** Further methods of [Document] *)

(** [isNewLine(text)] *)
Definition isNewLine (text : string) : bool :=
  bool_decide (text = String JS.CR (String JS.LF EmptyString))
  || bool_decide (text = String JS.CR EmptyString)
  || bool_decide (text = String JS.LF EmptyString).

(** [$clipPosition(position)]: the point object is written to, field by
    field, and handed back. *)
Definition _clipPosition (position : ref) : M ref :=
  let* D := gets doc in
  let length := getLength D in
  let* p := readPoint position in
  (if row p >=? length then
     writePoint position (mkPoint (Z.max 0 (length - 1)) (column p)) ;;
     let* p := readPoint position in
     writePoint position (mkPoint (row p) (JS.strlen (getLine D (length - 1))))
   else
     writePoint position (mkPoint (Z.max 0 (row p)) (column p)) ;;
     let* p := readPoint position in
     writePoint position
       (mkPoint (row p)
                (Z.min (Z.max (column p) 0) (JS.strlen (getLine D (row p)))))) ;;
  ret position.


(** ** Auxiliary definitions of the further statements *)

(** A string without carriage return. *)
Fixpoint noCR (s : string) : bool :=
  match s with
  | EmptyString => true
  | String c rest => (if decide (c = JS.CR) then false else true) && noCR rest
  end.

(** How many times [changeNewLineMode] was signalled. *)
Fixpoint modeSignals (sg : list Signal) : nat :=
  match sg with
  | [] => 0
  | changeNewLineMode :: sg' => S (modeSignals sg')
  | change _ :: sg' => modeSignals sg'
  end.

(** From [w] to [w'] the newline settings are the same and
    [changeNewLineMode] was not signalled. *)
Definition sameNewLine (w w' : World) : Prop :=
  _autoNewLine (doc w') = _autoNewLine (doc w) /\
  _newLineMode (doc w') = _newLineMode (doc w) /\
  modeSignals (signals w') = modeSignals (signals w).

(** A computation that leaves them so from any world, whether it returns or
    throws. *)
Definition keepsNewLine {A} (m : M A) : Prop :=
  forall w, sameNewLine w (worldOf (m w)).

(** The calls that go through [$detectNewLine] or [setNewLineMode]. *)
Definition setsNewLine (c : Call) : bool :=
  match c with
  | CallSetValue _ | CallSetNewLineMode _ | CallInsert _ _ | CallReplace _ _ => true
  | _ => false
  end.

(** The value [$autoNewLine] has on the prototype, or a newline character. *)
Definition autoNewLineOk (w : World) : Prop :=
  _autoNewLine (doc w) = EmptyString \/ isNewLine (_autoNewLine (doc w)) = true.


(** The line store as the splice of [D] leaves it. *)
Definition applied (X : list string) (D : Delta) : list string :=
  default X (ApplyDelta.splice X D).

(** The document with its lines so rewritten. *)
Definition after (D0 : Document) (D : Delta) : Document :=
  mkDocument (applied (_lines D0) D) (_autoNewLine D0) (_newLineMode D0).

(** Deltas that are each well formed, and not split, for the document that
    the ones before them leave. *)
Fixpoint wellFormedAll (D0 : Document) (Ds : list Delta) : Prop :=
  match Ds with
  | [] => True
  | D :: Ds' => wellFormed D0 D /\ isLarge D = false /\ wellFormedAll (after D0 D) Ds'
  end.

(** A computation that ends from any world, returning or throwing what the
    code throws: the rounds and the depth that the embedding allows the
    loop and the recursion of [applyDelta] are never used up. *)
Definition ends {A} (m : M A) : Prop :=
  forall w w', m w <> Throw Diverges w'.

(** * Properties *)

(** ** Strings and arrays *)

Section StringFacts.

Lemma strlen_nonneg s : 0 <= JS.strlen s.
Proof. unfold JS.strlen. lia. Qed.

Lemma sapp_nil t : EmptyString +:+ t = t.
Proof. reflexivity. Qed.

Lemma sapp_cons c s t : String c s +:+ t = String c (s +:+ t).
Proof. reflexivity. Qed.

Lemma length_sapp s t :
  String.length (s +:+ t) = (String.length s + String.length t)%nat.
Proof.
  induction s as [|c s IH]; [done|]. rewrite sapp_cons. simpl. by rewrite IH.
Qed.

Lemma strlen_app s t : JS.strlen (s +:+ t) = JS.strlen s + JS.strlen t.
Proof. unfold JS.strlen. rewrite length_sapp. lia. Qed.

Lemma strlen_empty_inv s : JS.strlen s = 0 -> s = EmptyString.
Proof. destruct s; [done|]. unfold JS.strlen. simpl. lia. Qed.

Lemma app_empty_r s : s +:+ EmptyString = s.
Proof. induction s as [|c s IH]; [done|]. by rewrite sapp_cons, IH. Qed.

Lemma app_assoc_s (s t u : string) : (s +:+ t) +:+ u = s +:+ t +:+ u.
Proof. induction s as [|c s IH]; [done|]. by rewrite !sapp_cons, IH. Qed.

Lemma stake_sdrop n s : JS.stake n s +:+ JS.sdrop n s = s.
Proof.
  revert s. induction n as [|n IH]; intros [|c s]; simpl; try done.
  by rewrite sapp_cons, IH.
Qed.

Lemma stake_all n s : (String.length s <= n)%nat -> JS.stake n s = s.
Proof.
  revert s. induction n as [|n IH]; intros [|c s]; simpl; intros H; try done.
  - lia.
  - rewrite IH; [done|lia].
Qed.

Lemma sdrop_0 s : JS.sdrop 0 s = s.
Proof. by destruct s. Qed.

Lemma stake_0 s : JS.stake 0 s = EmptyString.
Proof. by destruct s. Qed.

Lemma stake_app_length s t : JS.stake (String.length s) (s +:+ t) = s.
Proof.
  induction s as [|c s IH]; [apply stake_0|].
  rewrite sapp_cons. simpl. by rewrite IH.
Qed.

Lemma sdrop_app_length s t : JS.sdrop (String.length s) (s +:+ t) = t.
Proof. induction s as [|c s IH]; [apply sdrop_0|]. by rewrite sapp_cons. Qed.

Lemma length_stake n s : String.length (JS.stake n s) = Nat.min n (String.length s).
Proof.
  revert s. induction n as [|n IH]; intros [|c s]; simpl; try done.
  by rewrite IH.
Qed.

(** [s.substring(0, c)] followed by [s.substring(c)] is [s], whatever [c]. *)
Lemma substring_split s c :
  JS.substring s 0 c +:+ JS.substringFrom s c = s.
Proof.
  unfold JS.substringFrom, JS.substring, JS.clampIndex.
  pose proof (strlen_nonneg s) as Hs. unfold JS.strlen in *.
  set (n := Z.of_nat (String.length s)) in *.
  set (k := Z.min (Z.max c 0) n).
  assert (Hk : 0 <= k <= n) by (unfold k; lia).
  replace (Z.min (Z.max 0 0) n) with 0 by lia.
  replace (Z.min (Z.max n 0) n) with n by lia.
  replace (Z.max 0 k - Z.min 0 k) with k by lia.
  replace (Z.min 0 k) with 0 by lia.
  replace (Z.min k n) with k by lia.
  replace (Z.max k n) with n by lia.
  change (Z.to_nat 0) with 0%nat. rewrite sdrop_0.
  rewrite (stake_all (Z.to_nat (n - k))).
  - apply stake_sdrop.
  - pose proof (stake_sdrop (Z.to_nat k) s) as E.
    apply (f_equal String.length) in E.
    rewrite length_sapp, length_stake in E. unfold n. lia.
Qed.

Lemma substring_prefix s t : JS.substring (s +:+ t) 0 (JS.strlen s) = s.
Proof.
  unfold JS.substring, JS.clampIndex. rewrite strlen_app.
  pose proof (strlen_nonneg s). pose proof (strlen_nonneg t).
  replace (Z.min (Z.max 0 0) (JS.strlen s + JS.strlen t)) with 0 by lia.
  replace (Z.min (Z.max (JS.strlen s) 0) (JS.strlen s + JS.strlen t))
    with (JS.strlen s) by lia.
  replace (Z.max 0 (JS.strlen s) - Z.min 0 (JS.strlen s)) with (JS.strlen s) by lia.
  replace (Z.min 0 (JS.strlen s)) with 0 by lia.
  change (Z.to_nat 0) with 0%nat. rewrite sdrop_0.
  unfold JS.strlen. rewrite Nat2Z.id. apply stake_app_length.
Qed.

Lemma substringFrom_suffix s t : JS.substringFrom (s +:+ t) (JS.strlen s) = t.
Proof.
  unfold JS.substringFrom, JS.substring, JS.clampIndex. rewrite strlen_app.
  pose proof (strlen_nonneg s). pose proof (strlen_nonneg t).
  set (n := JS.strlen s + JS.strlen t).
  replace (Z.min (Z.max (JS.strlen s) 0) n) with (JS.strlen s) by lia.
  replace (Z.min (Z.max n 0) n) with n by lia.
  replace (Z.min (JS.strlen s) n) with (JS.strlen s) by lia.
  replace (Z.max (JS.strlen s) n - JS.strlen s) with (JS.strlen t) by lia.
  unfold JS.strlen at 2. rewrite Nat2Z.id, sdrop_app_length.
  apply stake_all. unfold JS.strlen. lia.
Qed.

Lemma strlen_substring_prefix s c :
  0 <= c <= JS.strlen s -> JS.strlen (JS.substring s 0 c) = c.
Proof.
  intros Hc. unfold JS.substring, JS.clampIndex.
  replace (Z.min (Z.max 0 0) (JS.strlen s)) with 0 by lia.
  replace (Z.min (Z.max c 0) (JS.strlen s)) with c by lia.
  replace (Z.max 0 c - Z.min 0 c) with c by lia.
  replace (Z.min 0 c) with 0 by lia.
  change (Z.to_nat 0) with 0%nat. rewrite sdrop_0.
  unfold JS.strlen in *. rewrite length_stake. lia.
Qed.

Lemma substring_0_0 s : JS.substring s 0 0 = EmptyString.
Proof.
  unfold JS.substring, JS.clampIndex. pose proof (strlen_nonneg s).
  replace (Z.min (Z.max 0 0) (JS.strlen s)) with 0 by lia.
  reflexivity.
Qed.

Lemma substringFrom_0 s : JS.substringFrom s 0 = s.
Proof.
  pose proof (substring_split s 0) as E. by rewrite substring_0_0 in E.
Qed.

Lemma orElse_line s : JS.orElse (Some s) EmptyString = s.
Proof. unfold JS.orElse, JS.falsy. simpl. by case_decide. Qed.

Lemma index_Some {A} (l : list A) i x :
  JS.index l i = Some x <-> 0 <= i /\ l !! Z.to_nat i = Some x.
Proof.
  unfold JS.index. destruct (Z.ltb_spec i 0); split.
  - done.
  - intros [? _]. lia.
  - intros H'. split; [lia|done].
  - by intros [_ H'].
Qed.

Lemma index_in_range {A} (l : list A) i :
  0 <= i < Z.of_nat (length l) -> exists x, JS.index l i = Some x.
Proof.
  intros Hi. destruct (lookup_lt_is_Some_2 l (Z.to_nat i)) as [x Hx]; [lia|].
  exists x. apply index_Some. split; [lia|done].
Qed.

End StringFacts.

(** ** Index and position *)

Section IndexPosition.

Lemma orElse_line_or s d :
  JS.orElse (Some s) d = if decide (s = EmptyString) then d else s.
Proof. unfold JS.orElse, JS.falsy. by case_decide. Qed.

Lemma newline_length_pos D : 1 <= JS.strlen (getNewLineCharacter D).
Proof.
  unfold getNewLineCharacter. destruct (_newLineMode D); try (by vm_compute).
  rewrite orElse_line_or. case_decide as E; [by vm_compute|].
  destruct (_autoNewLine D); [done|]. unfold JS.strlen. simpl. lia.
Qed.

Lemma positionToIndex_loop_acc rows acc nl :
  positionToIndex_loop rows acc nl = acc + positionToIndex_loop rows 0 nl.
Proof.
  revert acc. induction rows as [|line rows IH]; intros acc; simpl; [lia|].
  rewrite IH, (IH (0 + _)). lia.
Qed.

Lemma positionToIndex_loop_nonneg rows nl :
  0 <= nl -> 0 <= positionToIndex_loop rows 0 nl.
Proof.
  intros Hnl. induction rows as [|line rows IH]; simpl; [lia|].
  rewrite positionToIndex_loop_acc. pose proof (strlen_nonneg line). lia.
Qed.

(** Walking the rows again finds the row at which the sum stopped. *)
Lemma indexToPosition_loop_found before line after i c nl :
  1 <= nl -> 0 <= c <= JS.strlen line ->
  indexToPosition_loop (before ++ line :: after) i
                       (positionToIndex_loop before 0 nl + c) nl
  = inl (mkPoint (i + Z.of_nat (length before)) c).
Proof.
  intros Hnl Hc. revert i.
  induction before as [|b before IH]; intros i; simpl.
  - destruct (Z.ltb_spec (0 + c - (JS.strlen line + nl)) 0); [|lia].
    do 2 f_equal; lia.
  - rewrite positionToIndex_loop_acc.
    pose proof (positionToIndex_loop_nonneg before nl ltac:(lia)).
    pose proof (strlen_nonneg b).
    destruct (Z.ltb_spec (0 + (JS.strlen b + nl) + positionToIndex_loop before 0 nl
                          + c - (JS.strlen b + nl)) 0); [lia|].
    replace (0 + (JS.strlen b + nl) + positionToIndex_loop before 0 nl + c
             - (JS.strlen b + nl))
      with (positionToIndex_loop before 0 nl + c) by lia.
    rewrite IH. do 2 f_equal; lia.
Qed.

End IndexPosition.

(** C5. For an in-bounds position (a row of the line store, a column from 0
    to the length of that row's line), [positionToIndex] gives an index that
    [indexToPosition] converts back to the same position, when the newline
    character has the same length at both calls and the lines are the
    same. *)
Theorem indexToPosition_positionToIndex (D D' : Document) (p : Point) :
  _lines D' = _lines D ->
  JS.strlen (getNewLineCharacter D') = JS.strlen (getNewLineCharacter D) ->
  0 <= row p < getLength D ->
  0 <= column p <= JS.strlen (getLine D (row p)) ->
  exists i, positionToIndex D p None = Some i /\
            indexToPosition D' i None = Some p.
Proof.
  intros Hl Hnl Hr Hc. unfold getLength in Hr.
  destruct (index_in_range (_lines D) (row p) Hr) as [line Hline].
  unfold getLine in Hc. rewrite Hline, orElse_line in Hc.
  apply index_Some in Hline as [_ Hline].
  unfold positionToIndex, indexToPosition. simpl. rewrite Hl, Hnl.
  replace (Z.min (row p) (Z.of_nat (length (_lines D)))) with (row p) by lia.
  rewrite drop_0, Z.sub_0_r. eexists. split; [reflexivity|].
  rewrite <- (take_drop_middle _ _ _ Hline) at 1.
  rewrite indexToPosition_loop_found;
    [|apply newline_length_pos|done].
  rewrite length_take. apply lookup_lt_Some in Hline.
  destruct p as [r c]. simpl in *. do 2 f_equal. lia.
Qed.

(** A position of a three-line document, converted there and back. *)
Lemma indexToPosition_positionToIndex_witness :
  let D := mkDocument ["a"; "bb"; "ccc"] EmptyString auto in
  exists i, positionToIndex D (mkPoint 1 2) None = Some i /\
            indexToPosition D i None = Some (mkPoint 1 2).
Proof.
  intros D.
  apply (indexToPosition_positionToIndex D D (mkPoint 1 2));
    [reflexivity | reflexivity | vm_compute; intuition congruence
    | vm_compute; intuition congruence].
Defined.

(** ** Running the monad *)

Section Running.

Lemma bind_ok {A B} (m : M A) (f : A -> M B) w a w' :
  m w = Ok a w' -> bind m f w = f a w'.
Proof. unfold bind. by intros ->. Qed.

Lemma readDelta_ok w r o : deltas w !! r = Some o -> readDelta r w = Ok o w.
Proof. unfold readDelta. by intros ->. Qed.

Lemma readPoint_ok w r p : points w !! r = Some p -> readPoint r w = Ok p w.
Proof. unfold readPoint. by intros ->. Qed.

Lemma readArray_ok w r l : arrays w !! r = Some l -> readArray r w = Ok l w.
Proof. unfold readArray. by intros ->. Qed.

(** What [deltaAt] reads, property by property. *)
Lemma deltaAt_Some w r D :
  deltaAt w r = Some D ->
  exists o, deltas w !! r = Some o /\
            points w !! o_start o = Some (start D) /\
            points w !! o_end o = Some (end_ D) /\
            arrays w !! o_lines o = Some (lines D) /\
            o_action o = action D.
Proof.
  unfold deltaAt. intros H.
  destruct (deltas w !! r) as [o|] eqn:Ho; simpl in H; [|done].
  destruct (points w !! o_start o) as [s|] eqn:Hs; simpl in H; [|done].
  destruct (points w !! o_end o) as [e|] eqn:He; simpl in H; [|done].
  destruct (arrays w !! o_lines o) as [l|] eqn:Hl; simpl in H; [|done].
  injection H as <-. by exists o.
Qed.

Lemma deltaAt_intro w r o s e l :
  deltas w !! r = Some o ->
  points w !! o_start o = Some s ->
  points w !! o_end o = Some e ->
  arrays w !! o_lines o = Some l ->
  deltaAt w r = Some (mkDelta s e (o_action o) l).
Proof.
  unfold deltaAt. intros H1 H2 H3 H4.
  rewrite H1. simpl. rewrite H2. simpl. rewrite H3. simpl. by rewrite H4.
Qed.

End Running.

Section ApplyDeltaCases.

Variables (w : World) (delta : ref) (D : Delta).
Hypothesis HD : deltaAt w delta = Some D.

Lemma applyDelta__cases depth doNotValidate :
  applyDelta_ depth delta doNotValidate w =
  if isNoop D then Ok tt w
  else if isLarge D then
    match depth with
    | O => Throw Diverges w
    | S depth' => _splitAndapplyLargeDelta (applyDelta_ depth') delta 20000 w
    end
  else (ApplyDelta.applyDelta D doNotValidate ;;
        EventEmitter._signal (change delta)) w.
Proof.
  destruct (deltaAt_Some _ _ _ HD) as (o & Ho & Hs & He & Hl & Ha).
  destruct D as [s e a l]. simpl in *.
  unfold isNoop, isLarge. simpl.
  destruct depth; simpl;
    rewrite (bind_ok _ _ _ _ _ (readDelta_ok _ _ _ Ho));
    rewrite (bind_ok _ _ _ _ _ (readArray_ok _ _ _ Hl));
    rewrite (bind_ok _ _ _ _ _ (readPoint_ok _ _ _ Hs));
    rewrite (bind_ok _ _ _ _ _ (readPoint_ok _ _ _ He));
    rewrite Ha; destruct a; simpl;
    repeat (match goal with |- context [if ?b then _ else _] => destruct b end;
            try reflexivity).
Qed.

End ApplyDeltaCases.

Section Guards.

Lemma comparePoints_zero p q :
  Range.comparePoints p q = 0 <-> row p = row q /\ column p = column q.
Proof.
  unfold Range.comparePoints.
  destruct (Z.eqb_spec (row p - row q) 0); lia.
Qed.

Lemma sliceFrom_0 {A} (l : list A) : JS.sliceFrom l 0 = l.
Proof.
  unfold JS.sliceFrom, JS.slice, JS.relIndex. simpl.
  replace (Z.min 0 (Z.of_nat (length l))) with 0 by lia.
  destruct (Z.ltb_spec (Z.of_nat (length l)) 0); [lia|].
  rewrite Z.min_id, Z.sub_0_r, Nat2Z.id. simpl. apply firstn_all.
Qed.

Lemma clonePos_id p : clonePos p = p.
Proof. by destruct p. Qed.

(** [revertDelta] builds its delta and hands it to [$safeApplyDelta]. *)
Lemma revertDelta_eval w delta D :
  deltaAt w delta = Some D ->
  revertDelta delta w = _safeApplyDelta (length (deltas w)) (withInverse w D) /\
  deltaAt (withInverse w D) (length (deltas w)) = Some (inverseOf D).
Proof.
  intros HD. destruct (deltaAt_Some _ _ _ HD) as (o & Ho & Hs & He & Hl & Ha).
  split.
  - unfold revertDelta.
    rewrite (bind_ok _ _ _ _ _ (readDelta_ok _ _ _ Ho)).
    rewrite (bind_ok _ _ _ _ _ (readPoint_ok _ _ _ Hs)).
    unfold bind at 1. simpl.
    erewrite bind_ok; cycle 1.
    { apply readPoint_ok. simpl. apply lookup_app_l_Some, He. }
    unfold bind at 1. simpl.
    erewrite bind_ok; cycle 1.
    { apply readArray_ok. simpl. apply Hl. }
    unfold bind at 1. simpl. unfold bind at 1. simpl.
    unfold withInverse. rewrite !clonePos_id, sliceFrom_0, <- Ha.
    rewrite <- app_assoc, length_app. simpl.
    replace (length (points w) + 1)%nat with (S (length (points w))) by lia.
    by destruct (o_action o).
  - unfold deltaAt, withInverse. simpl.
    rewrite lookup_app_r, Nat.sub_diag by lia. simpl.
    rewrite lookup_app_r, Nat.sub_diag by lia. simpl.
    rewrite lookup_app_r by lia.
    replace (S (length (points w)) - length (points w))%nat with 1%nat by lia.
    simpl. rewrite lookup_app_r, Nat.sub_diag by lia. done.
Qed.

(** [$safeApplyDelta] is [applyDelta] behind a test of the rows. *)
Lemma safeApplyDelta_cases w delta D :
  deltaAt w delta = Some D ->
  _safeApplyDelta delta w =
  if match action D with
     | remove_ => (row (start D) <? getLength (doc w))
                  && (row (end_ D) <? getLength (doc w))
     | insert_ => row (start D) <=? getLength (doc w)
     end
  then applyDelta delta false w else Ok tt w.
Proof.
  intros HD.
  destruct (deltaAt_Some _ _ _ HD) as (o & Ho & Hs & He & Hl & Ha).
  unfold _safeApplyDelta. unfold bind at 1. simpl.
  rewrite (bind_ok _ _ _ _ _ (readDelta_ok _ _ _ Ho)).
  rewrite (bind_ok _ _ _ _ _ (readPoint_ok _ _ _ Hs)).
  rewrite (bind_ok _ _ _ _ _ (readPoint_ok _ _ _ He)).
  rewrite Ha. unfold getLength.
  by destruct (action D), (_ : bool).
Qed.

End Guards.

(** C7. An insert whose lines are exactly one empty string, and a remove
    whose start and end compare equal, leave the whole world as it is: the
    line store is not written and no signal is emitted. *)
Theorem applyDelta_noop_guard (w : World) (delta : ref) (D : Delta)
    (doNotValidate : bool) :
  deltaAt w delta = Some D ->
  (action D = insert_ /\ lines D = [EmptyString]) \/
  (action D = remove_ /\ Range.comparePoints (start D) (end_ D) = 0) ->
  applyDelta delta doNotValidate w = Ok tt w.
Proof.
  intros HD Hcase. unfold applyDelta.
  rewrite (applyDelta__cases _ _ _ HD).
  assert (isNoop D = true) as ->; [|done].
  unfold isNoop. destruct Hcase as [[-> ->]|[-> ->]]; done.
Qed.

(** An empty insert and an empty remove on a one-line document. *)
Lemma applyDelta_noop_guard_witness :
  let w := mkWorld (mkDocument ["abc"] EmptyString auto)
                   [mkPoint 0 1] [[EmptyString]]
                   [mkDeltaObj 0%nat 0%nat insert_ 0%nat; mkDeltaObj 0%nat 0%nat remove_ 0%nat] [] in
  applyDelta 0%nat false w = Ok tt w /\ applyDelta 1%nat false w = Ok tt w.
Proof.
  intros w. split.
  - apply (applyDelta_noop_guard w 0%nat
             (mkDelta (mkPoint 0 1) (mkPoint 0 1) insert_ [EmptyString]) false);
      [reflexivity | left; split; reflexivity].
  - apply (applyDelta_noop_guard w 1%nat
             (mkDelta (mkPoint 0 1) (mkPoint 0 1) remove_ [EmptyString]) false);
      [reflexivity | right; split; reflexivity].
Defined.

(** C8. [$safeApplyDelta] on a delta whose rows do not fit the current line
    store returns normally and leaves the whole world as it is; on a delta
    whose rows fit it is [applyDelta].  [revertDelta] of a delta whose
    inverse does not fit returns normally with the document and the signals
    as they were. *)
Theorem safeApplyDelta_guard (w : World) (delta : ref) (D : Delta) :
  deltaAt w delta = Some D ->
  (stale (getLength (doc w)) D -> _safeApplyDelta delta w = Ok tt w) /\
  (fitting (getLength (doc w)) D ->
   _safeApplyDelta delta w = applyDelta delta false w) /\
  (stale (getLength (doc w)) (inverseOf D) ->
   revertDelta delta w = Ok tt (withInverse w D)).
Proof.
  intros HD.
  assert (Hstale : forall w delta D, deltaAt w delta = Some D ->
            stale (getLength (doc w)) D -> _safeApplyDelta delta w = Ok tt w).
  { clear. intros w delta D HD Hst. rewrite (safeApplyDelta_cases _ _ _ HD).
    destruct Hst as [[-> Hr]|[-> Hr]].
    - destruct (Z.ltb_spec (row (start D)) (getLength (doc w)));
        destruct (Z.ltb_spec (row (end_ D)) (getLength (doc w))); simpl; try done.
      lia.
    - destruct (Z.leb_spec (row (start D)) (getLength (doc w))); [lia|done]. }
  split; [by apply Hstale|]. split.
  - intros Hfit. rewrite (safeApplyDelta_cases _ _ _ HD).
    destruct Hfit as [(-> & H1 & H2)|[-> H1]].
    + destruct (Z.ltb_spec (row (start D)) (getLength (doc w))); [|lia].
      destruct (Z.ltb_spec (row (end_ D)) (getLength (doc w))); [done|lia].
    + destruct (Z.leb_spec (row (start D)) (getLength (doc w))); [done|lia].
  - intros Hst. destruct (revertDelta_eval _ _ _ HD) as [-> HI].
    by apply (Hstale _ _ _ HI).
Qed.

(** A remove below the last row of a one-line document, and the revert of
    an insert that was made there. *)
Lemma safeApplyDelta_guard_witness :
  let w := mkWorld (mkDocument ["abc"] EmptyString auto)
                   [mkPoint 3 0; mkPoint 3 2] [["xy"]]
                   [mkDeltaObj 0%nat 1%nat remove_ 0%nat; mkDeltaObj 0%nat 1%nat insert_ 0%nat] [] in
  _safeApplyDelta 0%nat w = Ok tt w /\
  revertDelta 1%nat w
  = Ok tt (withInverse w (mkDelta (mkPoint 3 0) (mkPoint 3 2) insert_ ["xy"])).
Proof.
  intros w. split.
  - apply (safeApplyDelta_guard w 0%nat
             (mkDelta (mkPoint 3 0) (mkPoint 3 2) remove_ ["xy"])); [reflexivity|].
    left. split; [reflexivity|]. left. vm_compute. discriminate.
  - apply (safeApplyDelta_guard w 1%nat
             (mkDelta (mkPoint 3 0) (mkPoint 3 2) insert_ ["xy"])); [reflexivity|].
    left. split; [reflexivity|]. left. vm_compute. discriminate.
Defined.

(** ** The splice of an insert *)

Section InsertLines.

Lemma lineAt_lookup X i s :
  0 <= i -> X !! Z.to_nat i = Some s -> ApplyDelta.lineAt X i = s.
Proof.
  intros Hi Hs. unfold ApplyDelta.lineAt.
  rewrite (proj2 (index_Some X i s)) by done. apply orElse_line.
Qed.

Lemma last_app_nonempty (W R : list string) d :
  R <> [] -> List.last (W ++ R) d = List.last R d.
Proof.
  intros HR. induction W as [|x W IH]; [done|].
  simpl. rewrite IH. destruct (W ++ R) eqn:E; [|done]. by destruct W, R.
Qed.

Lemma mergeLines_split before W R after :
  W <> [] -> R <> [] ->
  ApplyDelta.mergeLines before (W ++ R) after
  = prefixFirst before W ++ suffixLast R after.
Proof.
  intros HW HR. destruct W as [|x W]; [done|]. simpl.
  unfold suffixLast.
  destruct (W ++ R) as [|y rest] eqn:E.
  { by destruct W, R. }
  rewrite <- E. clear y rest E.
  rewrite (removelast_app W HR), (last_app_nonempty W R EmptyString HR).
  by rewrite app_assoc.
Qed.

Lemma mergeLines_window before W after :
  W <> [] ->
  ApplyDelta.mergeLines before (W ++ [EmptyString]) after
  = prefixFirst before W ++ [after].
Proof. intros HW. by rewrite mergeLines_split. Qed.

Lemma mergeLines_continue R after :
  R <> [] -> ApplyDelta.mergeLines EmptyString R after = suffixLast R after.
Proof.
  intros HR. destruct R as [|x R]; [done|]. unfold suffixLast.
  destruct R as [|y R]; [done|]. done.
Qed.

Lemma length_prefixFirst before W : length (prefixFirst before W) = length W.
Proof. by destruct W. Qed.

Lemma length_mergeLines before ls after :
  ls <> [] -> length (ApplyDelta.mergeLines before ls after) = length ls.
Proof.
  intros H. destruct ls as [|x [|y ls]]; try done.
  unfold ApplyDelta.mergeLines.
  simpl length. rewrite length_app. simpl length.
  assert (L : forall (l : list string), l <> [] ->
              S (length (removelast l)) = length l).
  { clear. intros l Hl.
    pose proof (app_removelast_last EmptyString Hl) as E.
    apply (f_equal length) in E. rewrite length_app in E. simpl in E. lia. }
  specialize (L (y :: ls) ltac:(done)). simpl length in *. lia.
Qed.

Lemma length_insertLines X p ls :
  ls <> [] -> 0 <= row p <= Z.of_nat (length X) ->
  Z.of_nat (length X) + Z.of_nat (length ls) - 1
  <= Z.of_nat (length (insertLines X p ls)).
Proof.
  intros Hls Hr. unfold insertLines.
  rewrite !length_app, length_mergeLines, length_take, length_drop by done. lia.
Qed.

(** A window followed by the rest, one row further down at column 0, is
    the insert of both at once. *)
Lemma insertLines_window X r c W R :
  0 <= r <= Z.of_nat (length X) -> W <> [] -> R <> [] ->
  insertLines (insertLines X (mkPoint r c) (W ++ [EmptyString]))
              (mkPoint (r + Z.of_nat (length W)) 0) R
  = insertLines X (mkPoint r c) (W ++ R).
Proof.
  intros Hr HW HR. unfold insertLines at 1 3. simpl.
  set (X1 := insertLines X (mkPoint r c) (W ++ [EmptyString])).
  set (line := ApplyDelta.lineAt X r).
  set (before := JS.substring line 0 c).
  set (after := JS.substringFrom line c).
  assert (E1 : X1 = (take (Z.to_nat r) X ++ prefixFirst before W)
                    ++ after :: drop (S (Z.to_nat r)) X).
  { unfold X1, insertLines. simpl. fold line before after.
    rewrite mergeLines_window by done. by rewrite <- !app_assoc. }
  assert (Hlen : length (take (Z.to_nat r) X ++ prefixFirst before W)
                 = Z.to_nat (r + Z.of_nat (length W))).
  { rewrite length_app, length_take, length_prefixFirst. lia. }
  assert (Hline : ApplyDelta.lineAt X1 (r + Z.of_nat (length W)) = after).
  { apply lineAt_lookup; [lia|]. rewrite E1, <- Hlen.
    by rewrite list_lookup_middle. }
  rewrite Hline, substring_0_0, substringFrom_0.
  rewrite mergeLines_continue, mergeLines_split by done.
  rewrite E1 at 1. rewrite <- Hlen at 1. rewrite take_app_length.
  rewrite E1. rewrite <- Hlen.
  rewrite (cons_middle after), (app_assoc _ [after]).
  rewrite drop_app_length' by (rewrite (length_app _ [after]); simpl; lia).
  by rewrite <- !app_assoc.
Qed.

(** An insert with validation skipped, or passed, splices and signals. *)
Lemma applyDelta_splice_insert w D d doNotValidate :
  action D = insert_ ->
  doNotValidate = true \/ ApplyDelta.validateDelta (_lines (doc w)) D = true ->
  (ApplyDelta.applyDelta D doNotValidate ;; EventEmitter._signal (change d)) w
  = Ok tt (spliced w (insertLines (_lines (doc w)) (start D) (lines D)) d).
Proof.
  intros Ha Hv. unfold bind, ApplyDelta.applyDelta.
  assert (negb doNotValidate
          && negb (ApplyDelta.validateDelta (_lines (doc w)) D) = false) as ->.
  { destruct Hv as [-> | ->]; [done|]. by destruct doNotValidate. }
  unfold ApplyDelta.splice. rewrite Ha. done.
Qed.

End InsertLines.

(** ** The loop of [$splitAndapplyLargeDelta] *)

Section Slices.

Lemma slice_inside {A} (l : list A) a b :
  0 <= a <= b -> b <= Z.of_nat (length l) ->
  JS.slice l a b = take (Z.to_nat (b - a)) (drop (Z.to_nat a) l).
Proof.
  intros Hab Hb. unfold JS.slice, JS.relIndex.
  destruct (Z.ltb_spec a 0); [lia|]. destruct (Z.ltb_spec b 0); [lia|].
  by rewrite !Z.min_l by lia.
Qed.

Lemma sliceFrom_inside {A} (l : list A) a :
  0 <= a <= Z.of_nat (length l) -> JS.sliceFrom l a = drop (Z.to_nat a) l.
Proof.
  intros Ha. unfold JS.sliceFrom. rewrite slice_inside by lia.
  apply take_ge. rewrite length_drop. lia.
Qed.

End Slices.

Section ChunkObjects.

(** The object literal of one round of the loop. *)
Lemma chunk_alloc {B} (K : ref -> M B) w delta o chunkLines s e :
  deltas w !! delta = Some o ->
  (let* chunk := newArray chunkLines in
   pushArray chunk EmptyString ;;
   let* s' := newPoint s in
   let* e' := newPoint e in
   let* o := readDelta delta in
   let* d := newDelta (mkDeltaObj s' e' (o_action o) chunk) in
   K d) w
  = K (length (deltas w))
      (mkWorld (doc w) (points w ++ [s; e])
               (arrays w ++ [chunkLines ++ [EmptyString]])
               (deltas w ++ [mkDeltaObj (length (points w)) (S (length (points w)))
                                        (o_action o) (length (arrays w))])
               (signals w)).
Proof.
  intros Ho. unfold bind at 1. simpl.
  unfold bind at 1. unfold pushArray. unfold bind at 1.
  unfold readArray. simpl.
  rewrite lookup_app_r, Nat.sub_diag by lia. simpl.
  unfold bind at 1. simpl. unfold bind at 1. simpl.
  unfold bind at 1. unfold readDelta. simpl. rewrite Ho. simpl.
  unfold bind at 1. simpl.
  rewrite length_app. simpl.
  replace (length (points w) + 1)%nat with (S (length (points w))) by lia.
  rewrite <- app_assoc. simpl.
  replace (<[length (arrays w):=chunkLines ++ [EmptyString]]>
             (arrays w ++ [chunkLines]))
    with (arrays w ++ [chunkLines ++ [EmptyString]]); [done|].
  rewrite insert_app_r_alt, Nat.sub_diag by lia. done.
Qed.

End ChunkObjects.

Section SplitLoop.

Variables (n : nat) (delta : ref) (L : list string) (MAX r : Z).
Hypothesis HMAX : 2 <= MAX <= 20000.

(** An insert that is neither empty nor large is spliced and signalled,
    at any depth. *)
Lemma applyDelta__insert w d D depth doNotValidate :
  deltaAt w d = Some D ->
  action D = insert_ -> isNoop D = false ->
  Z.of_nat (length (lines D)) <= 20000 ->
  doNotValidate = true \/ ApplyDelta.validateDelta (_lines (doc w)) D = true ->
  applyDelta_ depth d doNotValidate w
  = Ok tt (spliced w (insertLines (_lines (doc w)) (start D) (lines D)) d).
Proof.
  intros HD Ha Hnoop Hlen Hv. rewrite (applyDelta__cases _ _ _ HD), Hnoop.
  assert (isLarge D = false) as ->.
  { unfold isLarge. rewrite Ha. lia. }
  by apply applyDelta_splice_insert.
Qed.

Lemma splitLoop_done fuel l from to c w :
  l <= from ->
  splitLoop (applyDelta_ n) fuel delta L MAX l r from to c w = Ok (from, c) w.
Proof.
  intros H. destruct fuel; simpl;
    destruct (Z.ltb_spec from l); try lia; done.
Qed.

Lemma splitLoop_step fuel l from to c :
  from < l ->
  splitLoop (applyDelta_ n) (S fuel) delta L MAX l r from to c
  = (let to := to + (MAX - 1) in
     let* chunk := newArray (JS.slice L from to) in
     pushArray chunk EmptyString ;;
     let* s := newPoint (pos (r + from) c) in
     let* e := newPoint (pos (r + to) 0) in
     let* o := readDelta delta in
     let* d := newDelta (mkDeltaObj s e (o_action o) chunk) in
     applyDelta_ n d true ;;
     splitLoop (applyDelta_ n) fuel delta L MAX l r to to 0).
Proof.
  intros H. simpl. destruct (Z.ltb_spec from l); [done|lia].
Qed.

Lemma document_eta D : mkDocument (_lines D) (_autoNewLine D) (_newLineMode D) = D.
Proof. by destruct D. Qed.

Lemma splitLoop_spec fuel : forall w from c o,
  let l := Z.of_nat (length L) - MAX + 1 in
  deltas w !! delta = Some o -> o_action o = insert_ ->
  0 <= from -> l - from <= Z.of_nat fuel ->
  exists Ws w',
    splitLoop (applyDelta_ n) fuel delta L MAX l r from from c w
      = Ok (from + Z.of_nat (length (concat Ws)), if from <? l then 0 else c) w' /\
    Forall (fun W => Z.of_nat (length W) = MAX - 1) Ws /\
    concat Ws = take (length (concat Ws)) (drop (Z.to_nat from) L) /\
    l <= from + Z.of_nat (length (concat Ws)) /\
    (from < l -> Ws <> [] /\ from + Z.of_nat (length (concat Ws)) < l + (MAX - 1)) /\
    (l <= from -> Ws = []) /\
    _autoNewLine (doc w') = _autoNewLine (doc w) /\
    _newLineMode (doc w') = _newLineMode (doc w) /\
    (0 <= r -> r + from <= Z.of_nat (length (_lines (doc w))) ->
     _lines (doc w') = afterWindows (_lines (doc w)) (mkPoint (r + from) c) Ws) /\
    points w' = points w ++ chunkPoints r from c Ws /\
    arrays w' = arrays w ++ map (fun W => W ++ [EmptyString]) Ws /\
    deltas w' = deltas w ++ chunkDeltas (length (points w)) (length (arrays w)) Ws /\
    signals w' = signals w ++ map change (seq (length (deltas w)) (length Ws)).
Proof.
  induction fuel as [|fuel IH]; intros w from c o l Ho Ha Hfrom Hfuel.
  - exists [], w. rewrite splitLoop_done by lia. simpl.
    destruct (Z.ltb_spec from l); [lia|].
    rewrite !app_nil_r, Z.add_0_r.
    repeat split; try done; try lia.
  - destruct (Z.le_gt_cases l from) as [Hge|Hlt].
    { exists [], w. rewrite splitLoop_done by lia. simpl.
      destruct (Z.ltb_spec from l); [lia|].
      rewrite !app_nil_r, Z.add_0_r.
      repeat split; try done; try lia. }
    set (to := from + (MAX - 1)).
    set (W := JS.slice L from to).
    assert (HW : W = take (Z.to_nat (MAX - 1)) (drop (Z.to_nat from) L)).
    { unfold W. rewrite slice_inside by (unfold to, l in *; lia).
      f_equal. unfold to. lia. }
    assert (HlenW : Z.of_nat (length W) = MAX - 1).
    { rewrite HW, length_take, length_drop. unfold l in *. lia. }
    set (w1 := mkWorld (doc w) (points w ++ [pos (r + from) c; pos (r + to) 0])
               (arrays w ++ [W ++ [EmptyString]])
               (deltas w ++ [mkDeltaObj (length (points w)) (S (length (points w)))
                                        (o_action o) (length (arrays w))])
               (signals w)).
    set (D := mkDelta (pos (r + from) c) (pos (r + to) 0) insert_ (W ++ [EmptyString])).
    assert (HD : deltaAt w1 (length (deltas w)) = Some D).
    { unfold deltaAt, w1. simpl.
      rewrite lookup_app_r, Nat.sub_diag by lia. simpl.
      rewrite lookup_app_r, Nat.sub_diag by lia. simpl.
      rewrite lookup_app_r by lia.
      replace (S (length (points w)) - length (points w))%nat with 1%nat by lia.
      simpl. rewrite lookup_app_r, Nat.sub_diag by lia. simpl.
      by rewrite Ha. }
    assert (HlenD : Z.of_nat (length (lines D)) = MAX).
    { simpl. rewrite length_app. simpl. lia. }
    set (X2 := insertLines (_lines (doc w)) (pos (r + from) c) (W ++ [EmptyString])).
    set (w2 := spliced w1 X2 (length (deltas w))).
    assert (Hself : applyDelta_ n (length (deltas w)) true w1 = Ok tt w2).
    { apply (applyDelta__insert w1 _ D); try done.
      - unfold isNoop. simpl. rewrite length_app. simpl.
        destruct (Z.leb_spec (Z.of_nat (length W + 1)) 1); [lia|done].
      - lia.
      - by left. }
    destruct (IH w2 to 0 o) as (Ws & w' & Hrun & HF & Hcat & Hl1 & Hl2 & Hl3
                                & Hnl & Hmode & Hdoc & Hpts & Harr & Hdel & Hsig).
    { unfold w2, w1. simpl. by apply lookup_app_l_Some. }
    { done. }
    { unfold to. lia. }
    { unfold to. lia. }
    exists (W :: Ws), w'.
    assert (Hto : from + Z.of_nat (length (concat (W :: Ws)))
                  = to + Z.of_nat (length (concat Ws))).
    { simpl. rewrite length_app. unfold to. lia. }
    split.
    { rewrite splitLoop_step by lia. fold to. cbv zeta.
      rewrite (chunk_alloc _ _ _ _ _ _ _ Ho). fold W w1.
      rewrite (bind_ok _ _ _ _ _ Hself). fold l in Hrun. rewrite Hrun, Hto.
      destruct (Z.ltb_spec from l); [|lia]. by destruct (to <? l). }
    split; [by constructor|].
    split.
    { simpl. rewrite length_app, <- take_take_drop. f_equal.
      - rewrite HW at 1. f_equal. lia.
      - rewrite Hcat at 1. f_equal. rewrite drop_drop. f_equal.
        unfold to. lia. }
    split; [lia|]. split.
    { intros _. split; [done|]. rewrite Hto.
      destruct (Z.le_gt_cases l to) as [Hge|Hlt'].
      - rewrite (Hl3 Hge). simpl. unfold to. lia.
      - destruct (Hl2 Hlt'). unfold to in *. lia. }
    split; [lia|].
    split; [by rewrite Hnl|]. split; [by rewrite Hmode|].
    split.
    { intros Hr Hrow. rewrite Hdoc; [|done|]; cycle 1.
      { unfold w2. simpl. unfold X2.
        pose proof (length_insertLines (_lines (doc w)) (pos (r + from) c)
                      (W ++ [EmptyString])) as Hlen.
        rewrite length_app in Hlen. simpl in Hlen.
        specialize (Hlen ltac:(by destruct W) ltac:(lia)). unfold to. lia. }
      unfold w2. simpl.
      destruct Ws as [|W' Ws].
      - simpl. by rewrite app_nil_r.
      - unfold afterWindows, X2, pos.
        replace (r + to) with (r + from + Z.of_nat (length W)) by (unfold to; lia).
        rewrite insertLines_window; [by rewrite <- app_assoc|lia| |].
        + intros ->. simpl in HlenW. lia.
        + by destruct (concat (W' :: Ws)). }
    split.
    { rewrite Hpts. unfold w2, w1. simpl. rewrite <- app_assoc. simpl.
      replace (from + Z.of_nat (length W)) with to by (unfold to; lia). done. }
    split.
    { rewrite Harr. unfold w2, w1. simpl. by rewrite <- app_assoc. }
    split.
    { rewrite Hdel. unfold w2, w1. simpl. rewrite <- app_assoc. simpl.
      rewrite !length_app. simpl. rewrite Ha.
      replace (length (points w) + 2)%nat with (S (S (length (points w)))) by lia.
      replace (length (arrays w) + 1)%nat with (S (length (arrays w))) by lia.
      done. }
    { rewrite Hsig. unfold w2, w1. simpl. rewrite <- app_assoc. simpl.
      rewrite length_app. simpl.
      replace (length (deltas w) + 1)%nat with (S (length (deltas w))) by lia.
      done. }
Qed.

End SplitLoop.

(** ** [$splitAndapplyLargeDelta] as a whole *)

Section NoopInsert.

Lemma isNoop_insert_false s e ls :
  ls <> [] -> ls <> [EmptyString] -> isNoop (mkDelta s e insert_ ls) = false.
Proof.
  intros H0 H1. unfold isNoop. cbn [action lines].
  destruct ls as [|x [|y ls]]; [done| |].
  - unfold JS.falsy, JS.index. simpl. case_decide; [congruence|done].
  - apply andb_false_iff. left. apply Z.leb_gt. simpl length. lia.
Qed.

Lemma afterWindows_nonempty X p Ws :
  Ws <> [] -> afterWindows X p Ws = insertLines X p (concat Ws ++ [EmptyString]).
Proof. by destruct Ws. Qed.

Lemma isNoop_insert_true s e :
  isNoop (mkDelta s e insert_ [EmptyString]) = true.
Proof. reflexivity. Qed.

End NoopInsert.

Section SplitWhole.

Variables (n : nat) (w : World) (delta : ref) (o : DeltaObj) (D : Delta).
Hypothesis Ho : deltas w !! delta = Some o.
Hypothesis Hs : points w !! o_start o = Some (start D).
Hypothesis He : points w !! o_end o = Some (end_ D).
Hypothesis Hl : arrays w !! o_lines o = Some (lines D).
Hypothesis Ha : o_action o = insert_.
Hypothesis Hlen : 20000 < Z.of_nat (length (lines D)).

Lemma splitAndapplyLargeDelta_spec :
  exists Ws tail w',
    _splitAndapplyLargeDelta (applyDelta_ n) delta 20000 w = Ok tt w' /\
    lines D = concat Ws ++ tail /\
    Ws <> [] /\
    Forall (fun W => Z.of_nat (length W) = 19999) Ws /\
    1 <= Z.of_nat (length tail) <= 19999 /\
    _autoNewLine (doc w') = _autoNewLine (doc w) /\
    _newLineMode (doc w') = _newLineMode (doc w) /\
    (0 <= row (start D) <= Z.of_nat (length (_lines (doc w))) ->
     _lines (doc w') = insertLines (_lines (doc w)) (start D) (lines D)) /\
    points w'
    = <[o_start o := mkPoint (row (start D) + Z.of_nat (length (concat Ws))) 0]>
        (points w ++ chunkPoints (row (start D)) 0 (column (start D)) Ws) /\
    arrays w' = arrays w ++ map (fun W => W ++ [EmptyString]) Ws ++ [tail] /\
    deltas w'
    = <[delta := mkDeltaObj (o_start o) (o_end o) insert_
                            (length (arrays w) + length Ws)%nat]>
        (deltas w ++ chunkDeltas (length (points w)) (length (arrays w)) Ws) /\
    signals w'
    = signals w ++ map change (seq (length (deltas w)) (length Ws))
      ++ (if decide (tail = [EmptyString]) then [] else [change delta]).
Proof.
  set (L := lines D) in *. set (r := row (start D)). set (c := column (start D)).
  set (l := Z.of_nat (length L) - 20000 + 1).
  destruct (splitLoop_spec n delta L 20000 r ltac:(lia) (Z.to_nat l) w 0 c o
              Ho Ha ltac:(lia) ltac:(lia))
    as (Ws & w1 & Hrun & HF & Hcat & Hl1 & Hl2 & _ & Hnl & Hmode & Hdoc
        & Hpts & Harr & Hdel & Hsig).
  fold l in Hrun, Hl1, Hl2. destruct Hl2 as [HWs Hlt]; [lia|].
  rewrite Z.add_0_l in *. change (Z.to_nat 0) with 0%nat in Hcat.
  rewrite drop_0 in Hcat.
  destruct (Z.ltb_spec 0 l) as [_|]; [|lia].
  set (from := Z.of_nat (length (concat Ws))) in *.
  set (tail := drop (length (concat Ws)) L).
  assert (Htail : JS.sliceFrom L from = tail).
  { rewrite sliceFrom_inside by (unfold from, l in *; lia).
    unfold tail, from. by rewrite Nat2Z.id. }
  assert (HL : L = concat Ws ++ tail).
  { rewrite Hcat at 1. apply eq_sym, take_drop. }
  assert (Hlt_tail : 1 <= Z.of_nat (length tail) <= 19999).
  { unfold tail. rewrite length_drop. unfold from, l in *. lia. }
  assert (Hd : (delta < length (deltas w))%nat) by (by eapply lookup_lt_Some).
  assert (Hps : (o_start o < length (points w))%nat) by (by eapply lookup_lt_Some).
  assert (Hpe : (o_end o < length (points w))%nat) by (by eapply lookup_lt_Some).
  set (o3 := mkDeltaObj (o_start o) (o_end o) (o_action o) (length (arrays w1))).
  set (w2 := mkWorld (doc w1) (points w1) (arrays w1 ++ [tail]) (deltas w1)
                     (signals w1)).
  set (w3 := mkWorld (doc w1) (points w1) (arrays w1 ++ [tail])
                     (<[delta := o3]> (deltas w1)) (signals w1)).
  set (w4 := mkWorld (doc w1)
                     (<[o_start o := mkPoint (r + from) c]> (points w1))
                     (arrays w1 ++ [tail])
                     (<[delta := o3]> (deltas w1)) (signals w1)).
  set (w5 := mkWorld (doc w1)
                     (<[o_start o := mkPoint (r + from) 0]> (points w1))
                     (arrays w1 ++ [tail])
                     (<[delta := o3]> (deltas w1)) (signals w1)).
  assert (E2 : newArray (JS.sliceFrom L from) w1 = Ok (length (arrays w1)) w2).
  { by rewrite Htail. }
  assert (E3 : readDelta delta w2 = Ok o w2).
  { apply readDelta_ok. simpl. rewrite Hdel. by apply lookup_app_l_Some. }
  assert (E4 : writeDelta delta o3 w2 = Ok tt w3) by done.
  assert (Ho3 : forall ps, deltas (mkWorld (doc w1) ps (arrays w1 ++ [tail])
                             (<[delta := o3]> (deltas w1)) (signals w1)) !! delta
                           = Some o3).
  { intros ps. simpl. apply list_lookup_insert_eq. rewrite Hdel, length_app. lia. }
  assert (E5 : readDelta delta w3 = Ok o3 w3) by apply readDelta_ok, Ho3.
  assert (E6 : readPoint (o_start o3) w3 = Ok (start D) w3).
  { apply readPoint_ok. simpl. rewrite Hpts. by apply lookup_app_l_Some. }
  assert (E7 : writePoint (o_start o3) (mkPoint (r + from) (column (start D))) w3
               = Ok tt w4) by done.
  assert (E8 : readDelta delta w4 = Ok o3 w4) by apply readDelta_ok, Ho3.
  assert (E9 : readPoint (o_start o3) w4 = Ok (mkPoint (r + from) c) w4).
  { apply readPoint_ok. simpl. apply list_lookup_insert_eq.
    rewrite Hpts, length_app. lia. }
  assert (E10 : writePoint (o_start o3) (mkPoint (row (mkPoint (r + from) c)) 0) w4
                = Ok tt w5).
  { unfold writePoint, modify, w4, w5, setPoints. simpl.
    by rewrite list_insert_insert_eq. }
  destruct (lookup_lt_is_Some_2
              (<[o_start o := mkPoint (r + from) 0]> (points w1)) (o_end o))
    as [e5 He5].
  { rewrite length_insert, Hpts, length_app. lia. }
  set (D5 := mkDelta (mkPoint (r + from) 0) e5 insert_ tail).
  assert (HD5 : deltaAt w5 delta = Some D5).
  { unfold D5. rewrite <- Ha.
    apply (deltaAt_intro w5 delta o3 (mkPoint (r + from) 0) e5 tail).
    - apply Ho3.
    - simpl. apply list_lookup_insert_eq. rewrite Hpts, length_app. lia.
    - exact He5.
    - simpl. by rewrite lookup_app_r, Nat.sub_diag by lia. }
  set (X1 := _lines (doc w1)).
  set (w6 := if decide (tail = [EmptyString]) then w5
             else spliced w5 (insertLines X1 (mkPoint (r + from) 0) tail) delta).
  assert (E11 : applyDelta_ n delta true w5 = Ok tt w6).
  { unfold w6. case_decide as Ht.
    - rewrite (applyDelta__cases _ _ _ HD5). unfold D5. rewrite Ht.
      by rewrite isNoop_insert_true.
    - apply (applyDelta__insert w5 delta D5); try done.
      + apply isNoop_insert_false; [|done].
        intros E. rewrite E in Hlt_tail. simpl in Hlt_tail. lia.
      + cbn [lines D5]. lia.
      + by left. }
  exists Ws, tail, w6. split.
  { unfold _splitAndapplyLargeDelta.
    rewrite (bind_ok _ _ _ _ _ (readDelta_ok _ _ _ Ho)).
    rewrite (bind_ok _ _ _ _ _ (readArray_ok _ _ _ Hl)).
    rewrite (bind_ok _ _ _ _ _ (readPoint_ok _ _ _ Hs)).
    fold L l r c. rewrite (bind_ok _ _ _ _ _ Hrun). cbv beta iota.
    rewrite (bind_ok _ _ _ _ _ E2), (bind_ok _ _ _ _ _ E3).
    fold o3. rewrite (bind_ok _ _ _ _ _ E4), (bind_ok _ _ _ _ _ E5).
    rewrite (bind_ok _ _ _ _ _ E6), (bind_ok _ _ _ _ _ E7).
    rewrite (bind_ok _ _ _ _ _ E8), (bind_ok _ _ _ _ _ E9).
    rewrite (bind_ok _ _ _ _ _ E10). exact E11. }
  split; [done|]. split; [done|]. split; [done|]. split; [done|].
  assert (Hw6 : doc w6 = (if decide (tail = [EmptyString]) then doc w1
                          else mkDocument (insertLines X1 (mkPoint (r + from) 0) tail)
                                 (_autoNewLine (doc w1)) (_newLineMode (doc w1)))
                /\ points w6 = points w5 /\ arrays w6 = arrays w5
                /\ deltas w6 = deltas w5
                /\ signals w6 = signals w5
                     ++ (if decide (tail = [EmptyString]) then [] else [change delta])).
  { unfold w6. case_decide; simpl; [by rewrite app_nil_r|done]. }
  destruct Hw6 as (Hdoc6 & Hpts6 & Harr6 & Hdel6 & Hsig6).
  split. { rewrite Hdoc6. by case_decide. }
  split. { rewrite Hdoc6. by case_decide. }
  split.
  { intros Hrow. rewrite Hdoc6.
    specialize (Hdoc ltac:(lia) ltac:(lia)). rewrite Z.add_0_r in Hdoc.
    rewrite afterWindows_nonempty in Hdoc by done. fold X1 in Hdoc.
    replace (start D) with (mkPoint r c) by (by destruct (start D)).
    case_decide as Ht.
    - unfold X1 in Hdoc. rewrite Hdoc, HL. by rewrite Ht.
    - simpl. rewrite Hdoc. unfold from. rewrite insertLines_window.
      + by rewrite <- HL.
      + lia.
      + intros E. unfold from in Hl1. rewrite E in Hl1. simpl in Hl1.
        unfold l in Hl1. lia.
      + intros E. rewrite E in Hlt_tail. simpl in Hlt_tail. lia. }
  split. { rewrite Hpts6. simpl. by rewrite Hpts. }
  split. { rewrite Harr6. simpl. by rewrite Harr, <- app_assoc. }
  split.
  { rewrite Hdel6. simpl. rewrite Hdel. unfold o3.
    by rewrite Harr, length_app, length_map, Ha. }
  { rewrite Hsig6. simpl. by rewrite Hsig, <- app_assoc. }
Qed.

End SplitWhole.

(** ** Large inserts *)

Section LargeInsert.

Lemma chunkDeltas_lookup np na Ws i :
  (i < length Ws)%nat ->
  chunkDeltas np na Ws !! i
  = Some (mkDeltaObj (np + 2 * i)%nat (S (np + 2 * i)) insert_ (na + i)%nat).
Proof.
  revert np na i. induction Ws as [|W Ws IH]; intros np na i Hi; simpl in Hi; [lia|].
  destruct i as [|i]; simpl.
  - do 2 f_equal; lia.
  - rewrite IH by lia. do 2 f_equal; lia.
Qed.

Lemma applyDelta_large w delta D doNotValidate :
  deltaAt w delta = Some D -> action D = insert_ ->
  20000 < Z.of_nat (length (lines D)) ->
  applyDelta delta doNotValidate w
  = _splitAndapplyLargeDelta (applyDelta_ 0) delta 20000 w.
Proof.
  intros HD Ha Hlen. unfold applyDelta. rewrite (applyDelta__cases _ _ _ HD).
  assert (isNoop D = false) as ->.
  { unfold isNoop. rewrite Ha. apply andb_false_iff. left. lia. }
  assert (isLarge D = true) as ->; [|done].
  unfold isLarge. rewrite Ha. lia.
Qed.

End LargeInsert.

(** C9. [applyDelta] of an insert of more than 20000 lines returns with the
    caller's delta object changed: its [lines] are what remains of the lines
    after the first [k] of them, fewer than 20000, and its [start], still the
    same point object, has been moved [k] rows down to column 0, for some
    [k > 0]. *)
Theorem applyDelta_large_mutates_delta (w : World) (delta : ref) (D : Delta)
    (doNotValidate : bool) :
  deltaAt w delta = Some D ->
  action D = insert_ ->
  20000 < Z.of_nat (length (lines D)) ->
  exists w' D' k,
    applyDelta delta doNotValidate w = Ok tt w' /\
    deltaAt w' delta = Some D' /\
    0 < k /\
    lines D' = drop (Z.to_nat k) (lines D) /\
    1 <= Z.of_nat (length (lines D')) < 20000 /\
    start D' = mkPoint (row (start D) + k) 0 /\
    action D' = insert_ /\
    (forall o o', deltas w !! delta = Some o -> deltas w' !! delta = Some o' ->
                  o_start o' = o_start o /\ o_end o' = o_end o).
Proof.
  intros HD Ha Hlen.
  destruct (deltaAt_Some _ _ _ HD) as (o & Ho & Hs & He & Hl & Hact).
  rewrite Ha in Hact.
  destruct (splitAndapplyLargeDelta_spec 0 w delta o D Ho Hs He Hl Hact Hlen)
    as (Ws & tail & w' & Hrun & HL & HWs & HF & Htail & _ & _ & _
        & Hpts & Harr & Hdel & _).
  assert (Hd : (delta < length (deltas w))%nat) by (by eapply lookup_lt_Some).
  assert (Hps : (o_start o < length (points w))%nat) by (by eapply lookup_lt_Some).
  assert (Hpe : (o_end o < length (points w))%nat) by (by eapply lookup_lt_Some).
  set (o' := mkDeltaObj (o_start o) (o_end o) insert_
                        (length (arrays w) + length Ws)%nat) in *.
  assert (Ho' : deltas w' !! delta = Some o').
  { rewrite Hdel. apply list_lookup_insert_eq. rewrite length_app. lia. }
  destruct (lookup_lt_is_Some_2 (points w') (o_end o)) as [e' He'].
  { rewrite Hpts, length_insert, length_app. lia. }
  set (k := Z.of_nat (length (concat Ws))).
  assert (Hk : 0 < k).
  { unfold k. destruct Ws as [|W Ws]; [done|]. inversion HF; subst.
    simpl. rewrite length_app. lia. }
  exists w', (mkDelta (mkPoint (row (start D) + k) 0) e' insert_ tail), k.
  split; [by rewrite (applyDelta_large _ _ _ _ HD Ha Hlen)|].
  split.
  { apply (deltaAt_intro w' delta o' _ e' tail Ho').
    - simpl. rewrite Hpts. apply list_lookup_insert_eq. rewrite length_app. lia.
    - exact He'.
    - simpl. rewrite Harr, app_assoc, lookup_app_r;
        rewrite length_app, length_map; [|lia].
      by rewrite Nat.sub_diag. }
  split; [done|]. split.
  { simpl. unfold k. rewrite Nat2Z.id, HL. by rewrite drop_app_length. }
  split; [simpl; lia|]. split; [done|]. split; [done|].
  intros o1 o1' H1 H1'. rewrite Ho in H1. rewrite Ho' in H1'.
  injection H1 as <-. by injection H1' as <-.
Qed.

(** The insert of 20001 lines into the empty document. *)
Lemma applyDelta_large_mutates_delta_witness :
  exists w' D' k,
    applyDelta 0%nat false bigWorld = Ok tt w' /\
    deltaAt w' 0%nat = Some D' /\
    0 < k /\
    lines D' = drop (Z.to_nat k) (lines bigDelta) /\
    1 <= Z.of_nat (length (lines D')) < 20000 /\
    start D' = mkPoint (row (start bigDelta) + k) 0 /\
    action D' = insert_ /\
    (forall o o', deltas bigWorld !! 0%nat = Some o -> deltas w' !! 0%nat = Some o' ->
                  o_start o' = o_start o /\ o_end o' = o_end o).
Proof.
  apply (applyDelta_large_mutates_delta bigWorld 0%nat bigDelta false);
    [reflexivity | reflexivity | vm_compute; reflexivity].
Defined.

(** C2. An insert of more than 20000 lines at a row of the document (or
    just below its last row) goes through the splitting and leaves the lines
    that the splice of the whole delta gives.  The delta objects signalled
    on the way are new ones, one per window, each carrying its window and
    one empty string more, and in the end the caller's delta object carrying
    the tail (not signalled when the tail is a single empty string); the
    windows and the tail put together are the lines of the insert. *)
Theorem chunked_insert_same_as_splice (w : World) (delta : ref) (D : Delta)
    (doNotValidate : bool) :
  deltaAt w delta = Some D ->
  action D = insert_ ->
  20000 < Z.of_nat (length (lines D)) ->
  0 <= row (start D) <= Z.of_nat (length (_lines (doc w))) ->
  exists w' Ws tail,
    applyDelta delta doNotValidate w = Ok tt w' /\
    ApplyDelta.splice (_lines (doc w)) D = Some (_lines (doc w')) /\
    concat Ws ++ tail = lines D /\
    (forall i W, Ws !! i = Some W ->
       exists o, deltas w' !! (length (deltas w) + i)%nat = Some o /\
                 o_action o = insert_ /\
                 arrays w' !! o_lines o = Some (W ++ [EmptyString])) /\
    (exists o, deltas w' !! delta = Some o /\ arrays w' !! o_lines o = Some tail) /\
    signals w' = signals w ++ map change (seq (length (deltas w)) (length Ws))
                 ++ (if decide (tail = [EmptyString]) then [] else [change delta]).
Proof.
  intros HD Ha Hlen Hrow.
  destruct (deltaAt_Some _ _ _ HD) as (o & Ho & Hs & He & Hl & Hact).
  rewrite Ha in Hact.
  destruct (splitAndapplyLargeDelta_spec 0 w delta o D Ho Hs He Hl Hact Hlen)
    as (Ws & tail & w' & Hrun & HL & HWs & HF & Htail & _ & _ & Hdoc
        & Hpts & Harr & Hdel & Hsig).
  assert (Hd : (delta < length (deltas w))%nat) by (by eapply lookup_lt_Some).
  exists w', Ws, tail.
  split; [by rewrite (applyDelta_large _ _ _ _ HD Ha Hlen)|].
  split.
  { rewrite (Hdoc Hrow). unfold ApplyDelta.splice. by rewrite Ha. }
  split; [done|]. split.
  { intros i W HW. pose proof (lookup_lt_Some _ _ _ HW) as Hi.
    eexists. split.
    - rewrite Hdel, list_lookup_insert_ne by lia.
      rewrite lookup_app_r by lia.
      replace (length (deltas w) + i - length (deltas w))%nat with i by lia.
      by apply chunkDeltas_lookup.
    - split; [done|]. simpl. rewrite Harr, lookup_app_r by lia.
      replace (length (arrays w) + i - length (arrays w))%nat with i by lia.
      rewrite lookup_app_l by (by rewrite length_map).
      by rewrite list_lookup_fmap, HW. }
  split; [|done].
  eexists. split.
  - rewrite Hdel. apply list_lookup_insert_eq. rewrite length_app. lia.
  - simpl. rewrite Harr, app_assoc, lookup_app_r;
      rewrite length_app, length_map; [|lia].
    by rewrite Nat.sub_diag.
Qed.

(** The insert of 20001 lines into the empty document. *)
Lemma chunked_insert_same_as_splice_witness :
  exists w' Ws tail,
    applyDelta 0%nat false bigWorld = Ok tt w' /\
    ApplyDelta.splice (_lines (doc bigWorld)) bigDelta = Some (_lines (doc w')) /\
    concat Ws ++ tail = lines bigDelta /\
    (forall i W, Ws !! i = Some W ->
       exists o, deltas w' !! (length (deltas bigWorld) + i)%nat = Some o /\
                 o_action o = insert_ /\
                 arrays w' !! o_lines o = Some (W ++ [EmptyString])) /\
    (exists o, deltas w' !! 0%nat = Some o /\ arrays w' !! o_lines o = Some tail) /\
    signals w' = signals bigWorld
                 ++ map change (seq (length (deltas bigWorld)) (length Ws))
                 ++ (if decide (tail = [EmptyString]) then [] else [change 0%nat]).
Proof.
  apply (chunked_insert_same_as_splice bigWorld 0%nat bigDelta false);
    [reflexivity | reflexivity | vm_compute; reflexivity
    | vm_compute; intuition discriminate].
Defined.


(** ** What [applyDelta] writes to *)

Section Frame.

Lemma applyDelta_direct_heaps w D d doNotValidate :
  let w' := worldOf ((ApplyDelta.applyDelta D doNotValidate ;;
                      EventEmitter._signal (change d)) w) in
  points w' = points w /\ arrays w' = arrays w /\ deltas w' = deltas w.
Proof.
  unfold bind, ApplyDelta.applyDelta.
  destruct (negb doNotValidate && _); [done|].
  by destruct (ApplyDelta.splice _ _).
Qed.

(** Of the objects that were there before, [applyDelta] writes to the
    delta object and to its start point at most. *)
Lemma applyDelta_frame w d D o doNotValidate :
  deltaAt w d = Some D -> deltas w !! d = Some o ->
  let w' := worldOf (applyDelta d doNotValidate w) in
  (forall r, r <> o_start o -> (r < length (points w))%nat ->
             points w' !! r = points w !! r) /\
  (forall r, (r < length (arrays w))%nat -> arrays w' !! r = arrays w !! r) /\
  (forall r, r <> d -> (r < length (deltas w))%nat ->
             deltas w' !! r = deltas w !! r).
Proof.
  intros HD Ho. unfold applyDelta. rewrite (applyDelta__cases _ _ _ HD).
  destruct (isNoop D); [done|].
  destruct (isLarge D) eqn:Hlarge.
  - unfold isLarge in Hlarge. destruct (action D) eqn:Ha; [|done].
    destruct (deltaAt_Some _ _ _ HD) as (o1 & Ho1 & Hs & He & Hl & Hact).
    rewrite Ho in Ho1. injection Ho1 as <-. rewrite Ha in Hact.
    destruct (splitAndapplyLargeDelta_spec 0 w d o D Ho Hs He Hl Hact ltac:(lia))
      as (Ws & tail & w' & Hrun & _ & _ & _ & _ & _ & _ & _
          & Hpts & Harr & Hdel & _).
    rewrite Hrun. simpl. rewrite Hpts, Harr, Hdel. repeat split.
    + intros r Hne Hr. rewrite list_lookup_insert_ne by done.
      by rewrite lookup_app_l.
    + intros r Hr. by rewrite lookup_app_l.
    + intros r Hne Hr. rewrite list_lookup_insert_ne by done.
      by rewrite lookup_app_l.
  - destruct (applyDelta_direct_heaps w D d doNotValidate) as (-> & -> & ->).
    done.
Qed.

End Frame.

(** C10. [revertDelta] leaves the delta it is given as it was: the delta
    object, its two points and its line array are the same afterwards, and so
    is every other object that existed before the call, whether the inverse
    is applied, discarded as stale, or rejected. *)
Theorem revertDelta_leaves_delta (w : World) (delta : ref) (D : Delta) :
  deltaAt w delta = Some D ->
  let w' := worldOf (revertDelta delta w) in
  deltas w' !! delta = deltas w !! delta /\
  deltaAt w' delta = Some D /\
  preserved (points w) (points w') /\
  preserved (arrays w) (arrays w') /\
  preserved (deltas w) (deltas w').
Proof.
  intros HD w'.
  assert (Hall : preserved (points w) (points w') /\
                 preserved (arrays w) (arrays w') /\
                 preserved (deltas w) (deltas w')).
  { unfold w'. destruct (revertDelta_eval _ _ _ HD) as [-> HI].
    set (w1 := withInverse w D) in *. set (d := length (deltas w)) in *.
    assert (H1 : preserved (points w) (points w1) /\
                 preserved (arrays w) (arrays w1) /\
                 preserved (deltas w) (deltas w1)).
    { unfold w1, withInverse, preserved. simpl.
      repeat split; intros r x Hx; by apply lookup_app_l_Some. }
    destruct (deltaAt_Some _ _ _ HI) as (o & Ho & Hs & He & Hl & Hact).
    assert (Hso : o_start o = length (points w)).
    { unfold w1, withInverse, d in Ho. simpl in Ho.
      rewrite lookup_app_r, Nat.sub_diag in Ho by lia. by injection Ho as <-. }
    assert (Hcases : _safeApplyDelta d w1 = Ok tt w1 \/
                     _safeApplyDelta d w1 = applyDelta d false w1).
    { rewrite (safeApplyDelta_cases _ _ _ HI).
      destruct (match action (inverseOf D) with insert_ => _ | remove_ => _ end);
        [by right|by left]. }
    destruct Hcases as [-> | ->]; [done|].
    destruct (applyDelta_frame w1 d (inverseOf D) o false HI Ho) as (Fp & Fa & Fd).
    destruct H1 as (Pp & Pa & Pd). repeat split; intros r x Hx.
    - rewrite Fp; [by apply Pp| |].
      + rewrite Hso. apply lookup_lt_Some in Hx. lia.
      + unfold w1, withInverse. simpl. rewrite length_app.
        apply lookup_lt_Some in Hx. lia.
    - rewrite Fa; [by apply Pa|].
      unfold w1, withInverse. simpl. rewrite length_app.
      apply lookup_lt_Some in Hx. lia.
    - rewrite Fd; [by apply Pd| |].
      + unfold d. apply lookup_lt_Some in Hx. lia.
      + unfold w1, withInverse. simpl. rewrite length_app.
        apply lookup_lt_Some in Hx. lia. }
  destruct Hall as (Pp & Pa & Pd).
  destruct (deltaAt_Some _ _ _ HD) as (o & Ho & Hs & He & Hl & Hact).
  split; [by rewrite Ho; apply Pd|].
  split; [|done].
  destruct D as [s e a l]. simpl in *. rewrite <- Hact.
  apply (deltaAt_intro w' delta o s e l); auto.
Qed.

(** The revert of an insert of two lines that was applied to a one-line
    document: the inverse is applied, the delta is as before. *)
Lemma revertDelta_leaves_delta_witness :
  let w := mkWorld (mkDocument ["ab"; "cd"] EmptyString auto)
                   [mkPoint 0 1; mkPoint 1 1] [["b"; "c"]]
                   [mkDeltaObj 0%nat 1%nat insert_ 0%nat] [] in
  let D := mkDelta (mkPoint 0 1) (mkPoint 1 1) insert_ ["b"; "c"] in
  let w' := worldOf (revertDelta 0%nat w) in
  deltas w' !! 0%nat = deltas w !! 0%nat /\
  deltaAt w' 0%nat = Some D /\
  preserved (points w) (points w') /\
  preserved (arrays w) (arrays w') /\
  preserved (deltas w) (deltas w').
Proof.
  intros w D. apply (revertDelta_leaves_delta w 0%nat D). reflexivity.
Defined.

(** ** The line store is never empty *)

Section NeverEmpty.

Lemma keepsLine_ret {A} (a : A) : keepsLine (ret a).
Proof. by intros w. Qed.

Lemma keepsLine_throw {A} e : keepsLine (@throw A e).
Proof. by intros w. Qed.

Lemma keepsLine_bind {A B} (m : M A) (f : A -> M B) :
  keepsLine m -> (forall a, keepsLine (f a)) -> keepsLine (bind m f).
Proof.
  intros Hm Hf w Hw. unfold bind. specialize (Hm w Hw).
  destruct (m w) as [a w1|e w1]; simpl in *; [by apply Hf|done].
Qed.

Lemma keepsLine_gets {A} (f : World -> A) : keepsLine (gets f).
Proof. by intros w. Qed.

Lemma keepsLine_orThrow {A} (o : option A) e : keepsLine (orThrow o e).
Proof. intros w. by destruct o. Qed.

(** A step that leaves the document alone. *)
Lemma keepsLine_same_doc {A} (m : M A) :
  (forall w, doc (worldOf (m w)) = doc w) -> keepsLine m.
Proof. intros H w Hw. unfold hasLine. by rewrite H. Qed.

Lemma keepsLine_newPoint p : keepsLine (newPoint p).
Proof. by apply keepsLine_same_doc. Qed.

Lemma keepsLine_newArray l : keepsLine (newArray l).
Proof. by apply keepsLine_same_doc. Qed.

Lemma keepsLine_newDelta o : keepsLine (newDelta o).
Proof. by apply keepsLine_same_doc. Qed.

Lemma keepsLine_readPoint r : keepsLine (readPoint r).
Proof. apply keepsLine_same_doc. intros w. unfold readPoint. by destruct (_ !! _). Qed.

Lemma keepsLine_readArray r : keepsLine (readArray r).
Proof. apply keepsLine_same_doc. intros w. unfold readArray. by destruct (_ !! _). Qed.

Lemma keepsLine_readDelta r : keepsLine (readDelta r).
Proof. apply keepsLine_same_doc. intros w. unfold readDelta. by destruct (_ !! _). Qed.

Lemma keepsLine_writePoint r p : keepsLine (writePoint r p).
Proof. by apply keepsLine_same_doc. Qed.

Lemma keepsLine_writeDelta r o : keepsLine (writeDelta r o).
Proof. by apply keepsLine_same_doc. Qed.

Lemma keepsLine_pushArray r x : keepsLine (pushArray r x).
Proof.
  apply keepsLine_bind; [apply keepsLine_readArray|].
  intros l. by apply keepsLine_same_doc.
Qed.

Lemma keepsLine_signal s : keepsLine (EventEmitter._signal s).
Proof. by apply keepsLine_same_doc. Qed.

Lemma keepsLine_detectNewLine text : keepsLine (_detectNewLine text).
Proof.
  apply keepsLine_bind; [|intros; apply keepsLine_signal]. by intros w.
Qed.

Lemma keepsLine_setNewLineMode mode : keepsLine (setNewLineMode mode).
Proof.
  apply keepsLine_bind; [apply keepsLine_gets|]. intros D.
  case_decide; [apply keepsLine_ret|].
  apply keepsLine_bind; [|intros; apply keepsLine_signal]. by intros w.
Qed.

Lemma length_mergeLines_pos before ls after :
  (1 <= length (ApplyDelta.mergeLines before ls after))%nat.
Proof.
  destruct ls as [|x [|y ls]]; simpl; lia.
Qed.

(** Whatever the delta, the splice leaves a line. *)
Lemma splice_has_line X D X' :
  ApplyDelta.splice X D = Some X' -> (1 <= length X')%nat.
Proof.
  unfold ApplyDelta.splice. destruct (action D).
  - intros [= <-]. rewrite !length_app.
    pose proof (length_mergeLines_pos
                  (JS.substring (ApplyDelta.lineAt X (row (start D))) 0
                                (column (start D)))
                  (lines D)
                  (JS.substringFrom (ApplyDelta.lineAt X (row (start D)))
                                    (column (start D)))).
    lia.
  - destruct (row (start D) =? row (end_ D)).
    + intros [= <-]. rewrite !length_app. simpl. lia.
    + destruct (JS.index X (row (end_ D))); [|done].
      intros [= <-]. rewrite !length_app. simpl. lia.
Qed.

Lemma keepsLine_splice D doNotValidate :
  keepsLine (ApplyDelta.applyDelta D doNotValidate).
Proof.
  intros w Hw. unfold ApplyDelta.applyDelta.
  destruct (negb doNotValidate && _); [done|].
  destruct (ApplyDelta.splice _ _) as [X'|] eqn:E; [|done].
  apply splice_has_line in E. unfold hasLine, getLength. simpl. lia.
Qed.

Lemma keepsLine_splitLoop self fuel delta L MAX l r :
  (forall d skip, keepsLine (self d skip)) ->
  forall from to c, keepsLine (splitLoop self fuel delta L MAX l r from to c).
Proof.
  intros Hself. induction fuel as [|fuel IH]; intros from to c; simpl;
    destruct (from <? l); try apply keepsLine_ret; try apply keepsLine_throw.
  apply keepsLine_bind; [apply keepsLine_newArray|]. intros chunk.
  apply keepsLine_bind; [apply keepsLine_pushArray|]. intros _.
  apply keepsLine_bind; [apply keepsLine_newPoint|]. intros s.
  apply keepsLine_bind; [apply keepsLine_newPoint|]. intros e.
  apply keepsLine_bind; [apply keepsLine_readDelta|]. intros o.
  apply keepsLine_bind; [apply keepsLine_newDelta|]. intros d.
  apply keepsLine_bind; [apply Hself|]. intros _. apply IH.
Qed.

Lemma keepsLine_splitAndapplyLargeDelta self delta MAX :
  (forall d skip, keepsLine (self d skip)) ->
  keepsLine (_splitAndapplyLargeDelta self delta MAX).
Proof.
  intros Hself. unfold _splitAndapplyLargeDelta.
  apply keepsLine_bind; [apply keepsLine_readDelta|]. intros o.
  apply keepsLine_bind; [apply keepsLine_readArray|]. intros ls.
  apply keepsLine_bind; [apply keepsLine_readPoint|]. intros s.
  apply keepsLine_bind; [by apply keepsLine_splitLoop|]. intros [from c].
  apply keepsLine_bind; [apply keepsLine_newArray|]. intros tail.
  apply keepsLine_bind; [apply keepsLine_readDelta|]. intros o1.
  apply keepsLine_bind; [apply keepsLine_writeDelta|]. intros _.
  apply keepsLine_bind; [apply keepsLine_readDelta|]. intros o2.
  apply keepsLine_bind; [apply keepsLine_readPoint|]. intros s2.
  apply keepsLine_bind; [apply keepsLine_writePoint|]. intros _.
  apply keepsLine_bind; [apply keepsLine_readDelta|]. intros o3.
  apply keepsLine_bind; [apply keepsLine_readPoint|]. intros s3.
  apply keepsLine_bind; [apply keepsLine_writePoint|]. intros _.
  apply Hself.
Qed.

Lemma keepsLine_applyDelta_ depth :
  forall delta doNotValidate, keepsLine (applyDelta_ depth delta doNotValidate).
Proof.
  induction depth as [|depth IH]; intros delta doNotValidate; simpl;
    (apply keepsLine_bind; [apply keepsLine_readDelta|]; intros o;
     apply keepsLine_bind; [apply keepsLine_readArray|]; intros ls;
     apply keepsLine_bind; [apply keepsLine_readPoint|]; intros s;
     apply keepsLine_bind; [apply keepsLine_readPoint|]; intros e;
     destruct (if if o_action o is insert_ then true else false then _ else _);
     [apply keepsLine_ret|];
     destruct ((if o_action o is insert_ then true else false) && _);
     [|apply keepsLine_bind; [apply keepsLine_splice|];
       intros; apply keepsLine_signal]).
  - apply keepsLine_throw.
  - by apply keepsLine_splitAndapplyLargeDelta.
Qed.

Lemma keepsLine_applyDelta delta doNotValidate :
  keepsLine (applyDelta delta doNotValidate).
Proof. apply keepsLine_applyDelta_. Qed.

End NeverEmpty.

Create HintDb keeps.
#[export] Hint Resolve keepsLine_ret keepsLine_throw keepsLine_gets
  keepsLine_orThrow keepsLine_newPoint keepsLine_newArray keepsLine_newDelta
  keepsLine_readPoint keepsLine_readArray keepsLine_readDelta
  keepsLine_writePoint keepsLine_writeDelta keepsLine_pushArray
  keepsLine_signal keepsLine_detectNewLine keepsLine_setNewLineMode
  keepsLine_applyDelta : keeps.

(** Walks down a method: binds, branches and destructured results. *)
Ltac keeps_line :=
  repeat first
    [ solve [auto with keeps]
    | apply keepsLine_bind; [|intros ?]
    | match goal with
      | |- keepsLine (let '(_, _) := ?x in _) => destruct x
      | |- keepsLine (if ?b then _ else _) => destruct b
      | |- keepsLine (match ?x with _ => _ end) => destruct x
      end ].

Section NeverEmptyMethods.

Lemma keepsLine_newDeltaOf s e a ls : keepsLine (newDeltaOf s e a ls).
Proof. unfold newDeltaOf. keeps_line. Qed.
Hint Resolve keepsLine_newDeltaOf : keeps.

Lemma keepsLine_insertMergedLines p ls : keepsLine (insertMergedLines p ls).
Proof. unfold insertMergedLines. keeps_line. Qed.
Hint Resolve keepsLine_insertMergedLines : keeps.

Lemma keepsLine_insert p text : keepsLine (insert p text).
Proof. unfold insert. keeps_line. Qed.
Hint Resolve keepsLine_insert : keeps.

Lemma keepsLine_insertInLine p text : keepsLine (insertInLine p text).
Proof. unfold insertInLine. keeps_line. Qed.

Lemma keepsLine_insertFullLines r ls : keepsLine (insertFullLines r ls).
Proof. unfold insertFullLines. keeps_line. Qed.

Lemma keepsLine_remove range : keepsLine (remove range).
Proof. unfold remove. keeps_line. Qed.
Hint Resolve keepsLine_remove : keeps.

Lemma keepsLine_removeInLine r c1 c2 : keepsLine (removeInLine r c1 c2).
Proof. unfold removeInLine. keeps_line. Qed.

Lemma keepsLine_removeFullLines r1 r2 : keepsLine (removeFullLines r1 r2).
Proof. unfold removeFullLines. keeps_line. Qed.

Lemma keepsLine_removeNewLine r : keepsLine (removeNewLine r).
Proof. unfold removeNewLine. keeps_line. Qed.

Lemma keepsLine_replace range text : keepsLine (replace range text).
Proof. unfold replace. keeps_line. Qed.

Lemma keepsLine_setValue text : keepsLine (setValue text).
Proof. unfold setValue. keeps_line. Qed.

Lemma keepsLine_safeApplyDelta d : keepsLine (_safeApplyDelta d).
Proof. unfold _safeApplyDelta. keeps_line. Qed.
Hint Resolve keepsLine_safeApplyDelta : keeps.

Lemma keepsLine_revertDelta d : keepsLine (revertDelta d).
Proof. unfold revertDelta. keeps_line. Qed.
Hint Resolve keepsLine_revertDelta : keeps.

Lemma keepsLine_applyDeltas ds : keepsLine (applyDeltas ds).
Proof. induction ds; simpl; keeps_line. Qed.

Lemma keepsLine_revertDeltas ds : keepsLine (revertDeltas ds).
Proof. unfold revertDeltas. induction (rev ds); simpl; keeps_line. Qed.

Lemma keepsLine_newDeltas ds : keepsLine (newDeltas ds).
Proof. unfold newDeltas. induction ds; simpl; keeps_line. Qed.

Hint Resolve keepsLine_insertInLine keepsLine_insertFullLines
  keepsLine_removeInLine keepsLine_removeFullLines keepsLine_removeNewLine
  keepsLine_replace keepsLine_setValue keepsLine_applyDeltas
  keepsLine_revertDeltas keepsLine_newDeltas : keeps.

Lemma keepsLine_call c : keepsLine (call c).
Proof. destruct c; simpl; keeps_line. Qed.

Lemma hasLine_calls cs : forall w, hasLine w -> hasLine (calls cs w).
Proof.
  induction cs as [|c cs IH]; intros w Hw; simpl; [done|].
  by apply IH, keepsLine_call.
Qed.

Lemma hasLine_newDocument textOrLines :
  hasLine (worldOf (newDocument textOrLines)).
Proof.
  unfold newDocument, constructor, bind. simpl.
  set (w0 := setDoc _ protoWorld).
  assert (H0 : hasLine w0) by (unfold hasLine; simpl; vm_compute; discriminate).
  destruct textOrLines as [text|ls].
  - destruct (JS.strlen text =? 0); [done|].
    assert (K : keepsLine (insert (mkPoint 0 0) text ;; ret tt)) by keeps_line.
    by apply K.
  - destruct (Z.of_nat (length ls) =? 0); [done|].
    assert (K : keepsLine (insertMergedLines (mkPoint 0 0) ls ;; ret tt))
      by keeps_line.
    by apply K.
Qed.

End NeverEmptyMethods.

(** ** The splice of a remove *)

Section RemoveLines.

Lemma newDeltaOf_eval w D :
  newDeltaOf (start D) (end_ D) (action D) (lines D) w
  = Ok (length (deltas w), length (points w), S (length (points w)))
       (withDelta w D) /\
  deltaAt (withDelta w D) (length (deltas w)) = Some D.
Proof.
  split.
  - unfold newDeltaOf, bind, newPoint, newArray, newDelta, ret, withDelta. simpl.
    rewrite length_app, <- app_assoc. simpl.
    by replace (length (points w) + 1)%nat with (S (length (points w))) by lia.
  - unfold deltaAt, withDelta. simpl.
    rewrite lookup_app_r, Nat.sub_diag by lia. simpl.
    rewrite lookup_app_r, Nat.sub_diag by lia. simpl.
    rewrite lookup_app_r by lia.
    replace (S (length (points w)) - length (points w))%nat with 1%nat by lia.
    simpl. rewrite lookup_app_r, Nat.sub_diag by lia. simpl. by destruct D.
Qed.

Lemma splice_remove X D :
  action D = remove_ ->
  0 <= row (start D) <= row (end_ D) ->
  row (end_ D) < Z.of_nat (length X) ->
  ApplyDelta.splice X D = Some (removeLines X (start D) (end_ D)).
Proof.
  intros Ha Hrow Hlen. unfold ApplyDelta.splice, removeLines. rewrite Ha.
  destruct (Z.eqb_spec (row (start D)) (row (end_ D))) as [E|E].
  - by rewrite E.
  - destruct (index_in_range X (row (end_ D))) as [endLine HendLine]; [lia|].
    rewrite HendLine. apply index_Some in HendLine as [? Hlk].
    rewrite (lineAt_lookup X (row (end_ D)) endLine) by done.
    do 4 f_equal. lia.
Qed.

(** A remove with validation skipped, or passed, splices and signals. *)
Lemma applyDelta_remove w d D doNotValidate :
  deltaAt w d = Some D ->
  action D = remove_ -> isNoop D = false ->
  doNotValidate = true \/ ApplyDelta.validateDelta (_lines (doc w)) D = true ->
  0 <= row (start D) <= row (end_ D) ->
  row (end_ D) < Z.of_nat (length (_lines (doc w))) ->
  applyDelta d doNotValidate w
  = Ok tt (spliced w (removeLines (_lines (doc w)) (start D) (end_ D)) d).
Proof.
  intros HD Ha Hnoop Hv Hrow Hlen. unfold applyDelta.
  rewrite (applyDelta__cases _ _ _ HD), Hnoop.
  assert (isLarge D = false) as -> by (unfold isLarge; by rewrite Ha).
  unfold bind, ApplyDelta.applyDelta.
  assert (negb doNotValidate
          && negb (ApplyDelta.validateDelta (_lines (doc w)) D) = false) as ->.
  { destruct Hv as [-> | ->]; [done|]. by destruct doNotValidate. }
  by rewrite splice_remove.
Qed.

End RemoveLines.

(** ** Full lines *)

Section FullLines.

Lemma substring_whole s : JS.substring s 0 (JS.strlen s) = s.
Proof.
  pose proof (substring_prefix s EmptyString) as E.
  by rewrite app_empty_r in E.
Qed.

Lemma substringFrom_end s : JS.substringFrom s (JS.strlen s) = EmptyString.
Proof.
  pose proof (substringFrom_suffix s EmptyString) as E.
  by rewrite app_empty_r in E.
Qed.

Lemma getLine_lineAt D r : getLine D r = ApplyDelta.lineAt (_lines D) r.
Proof. reflexivity. Qed.

Lemma length_slice_inside {A} (l : list A) a b :
  0 <= a <= b -> b <= Z.of_nat (length l) ->
  Z.of_nat (length (JS.slice l a b)) = b - a.
Proof.
  intros Hab Hb. rewrite slice_inside by done.
  rewrite length_take, length_drop. lia.
Qed.

(** The lines of a range over rows of the document are one more than the
    rows it spans. *)
Lemma length_getLinesForRange D s e :
  0 <= row s <= row e -> row e < getLength D ->
  Z.of_nat (length (getLinesForRange D (mkRange s e))) = row e - row s + 1.
Proof.
  intros Hrow Hlen. unfold getLinesForRange. simpl.
  destruct (Z.eqb_spec (row s) (row e)) as [E|E]; [simpl; lia|].
  unfold getLines.
  pose proof (length_slice_inside (_lines D) (row s) (row e + 1)
                ltac:(lia) ltac:(unfold getLength in Hlen; lia)) as HL.
  destruct (JS.slice (_lines D) (row s) (row e + 1)) as [|first rest] eqn:Hs.
  { simpl in HL. lia. }
  set (ls := JS.substringFrom _ _ :: rest).
  assert (Hls : Z.of_nat (length ls) = row e - row s + 1).
  { unfold ls. simpl length in *. lia. }
  destruct (_ =? _); [|done].
  destruct (JS.index ls _); [|done]. by rewrite length_insert.
Qed.

Lemma positionInDocument_intro X p :
  0 <= row p < Z.of_nat (length X) ->
  0 <= column p <= JS.strlen (ApplyDelta.lineAt X (row p)) ->
  ApplyDelta.positionInDocument X p = true.
Proof.
  intros Hr Hc. unfold ApplyDelta.positionInDocument.
  repeat (apply andb_true_intro; split); lia.
Qed.

Lemma validateDelta_remove X D :
  action D = remove_ ->
  ApplyDelta.positionInDocument X (start D) = true ->
  ApplyDelta.positionInDocument X (end_ D) = true ->
  row (end_ D) - row (start D) = Z.of_nat (length (lines D)) - 1 ->
  ApplyDelta.validateDelta X D = true.
Proof.
  intros Ha Hs He Hn. unfold ApplyDelta.validateDelta.
  rewrite Ha, Hs, He. simpl. lia.
Qed.

Lemma isNoop_remove_rows s e ls :
  row s <> row e -> isNoop (mkDelta s e remove_ ls) = false.
Proof.
  intros H. unfold isNoop, Range.comparePoints. simpl.
  destruct (Z.eqb_spec (row s - row e) 0); lia.
Qed.

End FullLines.

Section RemoveFullLines.

Variables (w : World) (firstRow lastRow : Z).
Hypothesis Hline : hasLine w.

Let X := _lines (doc w).
Let f := clipRow (doc w) firstRow.
Let l := clipRow (doc w) lastRow.
Let len := getLength (doc w).

Lemma clipRow_range : 0 <= f < len /\ 0 <= l < len.
Proof. unfold f, l, clipRow, len, hasLine in *. lia. Qed.

(** The delta that [removeFullLines] builds, applied. *)
Lemma removeFullLines_eval (s e : Point) :
  s = (if (l =? len - 1) && (f >? 0)
       then mkPoint (f - 1) (JS.strlen (getLine (doc w) (f - 1)))
       else mkPoint f 0) ->
  e = (if l <? len - 1 then mkPoint (l + 1) 0
       else mkPoint l (JS.strlen (getLine (doc w) l))) ->
  let Dr := mkDelta s e remove_ (getLinesForRange (doc w) (mkRange s e)) in
  removeFullLines firstRow lastRow w
  = (applyDelta (length (deltas w)) false ;;
     ret (JS.slice X f (l + 1))) (withDelta w Dr).
Proof.
  intros Hs He Dr. unfold removeFullLines. unfold bind at 1. unfold gets.
  cbv beta iota zeta.
  change (Z.min (Z.max 0 firstRow) (getLength (doc w) - 1)) with f.
  change (Z.min (Z.max 0 lastRow) (getLength (doc w) - 1)) with l.
  fold len.
  erewrite bind_ok; cycle 1.
  { etrans; [|exact (proj1 (newDeltaOf_eval w Dr))].
    unfold Dr, Range.new. cbn [start end_ action lines rstart rend].
    rewrite Hs, He.
    destruct ((l =? len - 1) && (f >? 0)), (l <? len - 1); reflexivity. }
  reflexivity.
Qed.

Lemma removeFullLines_applied (s e : Point) :
  s = (if (l =? len - 1) && (f >? 0)
       then mkPoint (f - 1) (JS.strlen (getLine (doc w) (f - 1)))
       else mkPoint f 0) ->
  e = (if l <? len - 1 then mkPoint (l + 1) 0
       else mkPoint l (JS.strlen (getLine (doc w) l))) ->
  0 <= row s <= row e -> row e < len ->
  0 <= column s <= JS.strlen (getLine (doc w) (row s)) ->
  0 <= column e <= JS.strlen (getLine (doc w) (row e)) ->
  let Dr := mkDelta s e remove_ (getLinesForRange (doc w) (mkRange s e)) in
  removeFullLines firstRow lastRow w
  = Ok (JS.slice X f (l + 1))
       (if isNoop Dr then withDelta w Dr
        else spliced (withDelta w Dr) (removeLines X s e) (length (deltas w))).
Proof.
  intros Hs He Hrow Hlen Hcs Hce Dr.
  rewrite (removeFullLines_eval s e Hs He). fold Dr.
  destruct (newDeltaOf_eval w Dr) as [_ HD].
  destruct (isNoop Dr) eqn:Hnoop.
  - unfold applyDelta. unfold bind.
    by rewrite (applyDelta__cases _ _ _ HD), Hnoop.
  - erewrite bind_ok; [reflexivity|].
    apply (applyDelta_remove (withDelta w Dr) _ Dr); try done.
    right. apply validateDelta_remove; try done.
    + apply positionInDocument_intro; simpl; [unfold len, getLength in *; lia|done].
    + apply positionInDocument_intro; simpl; [unfold len, getLength in *; lia|done].
    + simpl. rewrite length_getLinesForRange; simpl; [lia|lia|done].
Qed.

End RemoveFullLines.

Section RemoveLinesCases.

Variable X : list string.

Lemma removeLines_following f l :
  0 <= f <= l -> l + 1 < Z.of_nat (length X) ->
  removeLines X (mkPoint f 0) (mkPoint (l + 1) 0)
  = take (Z.to_nat f) X ++ drop (S (Z.to_nat l)) X.
Proof.
  intros Hf Hl. unfold removeLines. simpl.
  destruct (lookup_lt_is_Some_2 X (Z.to_nat (l + 1))) as [line Hline]; [lia|].
  rewrite substring_0_0, substringFrom_0, sapp_nil.
  rewrite (lineAt_lookup X (l + 1) line) by (done || lia).
  f_equal. replace (S (Z.to_nat l)) with (Z.to_nat (l + 1)) by lia.
  by rewrite (drop_S _ _ _ Hline).
Qed.

Lemma removeLines_preceding f l :
  0 < f <= l -> l = Z.of_nat (length X) - 1 ->
  removeLines X (mkPoint (f - 1) (JS.strlen (ApplyDelta.lineAt X (f - 1))))
                (mkPoint l (JS.strlen (ApplyDelta.lineAt X l)))
  = take (Z.to_nat f) X ++ drop (S (Z.to_nat l)) X.
Proof.
  intros Hf Hl. unfold removeLines. simpl.
  destruct (lookup_lt_is_Some_2 X (Z.to_nat (f - 1))) as [line Hline]; [lia|].
  rewrite substring_whole, substringFrom_end, app_empty_r.
  rewrite (lineAt_lookup X (f - 1) line) by (done || lia).
  replace (Z.to_nat f) with (S (Z.to_nat (f - 1))) by lia.
  by rewrite (take_S_r _ _ _ Hline), <- app_assoc.
Qed.

Lemma removeLines_all l :
  0 <= l -> l = Z.of_nat (length X) - 1 ->
  removeLines X (mkPoint 0 0) (mkPoint l (JS.strlen (ApplyDelta.lineAt X l)))
  = [EmptyString].
Proof.
  intros Hl0 Hl. unfold removeLines. simpl.
  rewrite substring_0_0, substringFrom_end, sapp_nil.
  rewrite drop_ge by lia. done.
Qed.

End RemoveLinesCases.

Section RemoveFullLinesRun.

Variables (w : World) (firstRow lastRow : Z).
Hypothesis Hline : hasLine w.
Hypothesis Hfl : clipRow (doc w) firstRow <= clipRow (doc w) lastRow.

Let X := _lines (doc w).
Let f := clipRow (doc w) firstRow.
Let l := clipRow (doc w) lastRow.
Let len := getLength (doc w).
Let s := if (l =? len - 1) && (f >? 0)
         then mkPoint (f - 1) (JS.strlen (getLine (doc w) (f - 1)))
         else mkPoint f 0.
Let e := if l <? len - 1 then mkPoint (l + 1) 0
         else mkPoint l (JS.strlen (getLine (doc w) l)).
Let Dr := mkDelta s e remove_ (getLinesForRange (doc w) (mkRange s e)).

(** With the first row not after the last, the delta passes the
    validation and is spliced, unless it is empty. *)
Lemma removeFullLines_run :
  removeFullLines firstRow lastRow w
  = Ok (JS.slice X f (l + 1))
       (if isNoop Dr then withDelta w Dr
        else spliced (withDelta w Dr) (removeLines X s e) (length (deltas w))).
Proof.
  destruct (clipRow_range w firstRow lastRow Hline) as [Hf Hl].
  fold f l len in Hf, Hl, Hfl.
  assert (Hcol : forall r, 0 <= JS.strlen (getLine (doc w) r)
                           <= JS.strlen (getLine (doc w) r)).
  { intros r. pose proof (strlen_nonneg (getLine (doc w) r)). lia. }
  assert (H0 : forall r, 0 <= 0 <= JS.strlen (getLine (doc w) r)).
  { intros r. pose proof (strlen_nonneg (getLine (doc w) r)). lia. }
  apply (removeFullLines_applied w firstRow lastRow s e); try done;
    fold f l len; unfold s, e;
    destruct (Z.eqb_spec l (len - 1)), (Z.gtb_spec f 0), (Z.ltb_spec l (len - 1));
    simpl; try lia; auto.
Qed.

(** All the rows: they are returned and one empty line is left. *)
Lemma removeFullLines_all_rows :
  f = 0 -> l = len - 1 ->
  exists w', removeFullLines firstRow lastRow w = Ok X w' /\
             _lines (doc w') = [EmptyString].
Proof.
  intros Hf0 Hll.
  destruct (clipRow_range w firstRow lastRow Hline) as [Hf Hl].
  fold f l len in Hf, Hl, Hfl.
  assert (HlenX : len = Z.of_nat (length X)) by reflexivity.
  rewrite removeFullLines_run.
  rewrite slice_inside by lia.
  replace (Z.to_nat f) with 0%nat by lia. rewrite drop_0, take_ge by lia.
  eexists. split; [reflexivity|].
  assert (Hs : s = mkPoint 0 0).
  { unfold s. destruct (Z.gtb_spec f 0); [lia|]. rewrite andb_false_r.
    by rewrite Hf0. }
  assert (He : e = mkPoint l (JS.strlen (ApplyDelta.lineAt X l))).
  { unfold e. destruct (Z.ltb_spec l (len - 1)); [lia|done]. }
  destruct (isNoop Dr) eqn:Hnoop.
  + simpl. unfold isNoop, Dr in Hnoop. simpl in Hnoop.
    apply Z.eqb_eq, comparePoints_zero in Hnoop. rewrite Hs, He in Hnoop.
    simpl in Hnoop. destruct Hnoop as [Hl0 Hc0].
    assert (Hone : length X = 1%nat) by lia.
    rewrite <- Hl0 in Hc0. apply eq_sym, strlen_empty_inv in Hc0.
    fold X. destruct X as [|x [|y X']]; try done.
    rewrite (lineAt_lookup [x] 0 x) in Hc0 by done. by rewrite Hc0.
  + simpl. rewrite Hs, He. apply removeLines_all; lia.
Qed.

End RemoveFullLinesRun.

(** C6 (amended). With the rows clipped to the document and the first not
    after the last: unless the rows are the whole document,
    [removeFullLines] returns the rows and leaves the line store without
    them, the delta it applies running from column 0 of the first row to
    column 0 of the row after the last (the following newline), or, when the
    last row is the document's last, from the end of the row before the first
    to the end of the last (the preceding newline).  When the rows are the
    whole document it returns them and leaves one empty line. *)
Theorem removeFullLines_rows (w : World) (firstRow lastRow : Z) :
  hasLine w ->
  clipRow (doc w) firstRow <= clipRow (doc w) lastRow ->
  let X := _lines (doc w) in
  let f := clipRow (doc w) firstRow in
  let l := clipRow (doc w) lastRow in
  let len := getLength (doc w) in
  (0 < f \/ l < len - 1 -> removesRows w firstRow lastRow) /\
  (f = 0 -> l = len - 1 ->
   exists w', removeFullLines firstRow lastRow w = Ok X w' /\
              _lines (doc w') = [EmptyString]) /\
  (exists r w' Dr,
     removeFullLines firstRow lastRow w = Ok r w' /\
     deltaAt w' (length (deltas w)) = Some Dr /\
     action Dr = remove_ /\
     (l < len - 1 -> start Dr = mkPoint f 0 /\ end_ Dr = mkPoint (l + 1) 0) /\
     (l = len - 1 -> 0 < f ->
      start Dr = mkPoint (f - 1) (JS.strlen (getLine (doc w) (f - 1))) /\
      end_ Dr = mkPoint l (JS.strlen (getLine (doc w) l)))).
Proof.
  intros Hline Hfl X f l len.
  destruct (clipRow_range w firstRow lastRow Hline) as [Hf Hl].
  fold f l len in Hf, Hl, Hfl.
  assert (HlenX : len = Z.of_nat (length X)) by reflexivity.
  assert (Hslice : JS.slice X f (l + 1)
                   = take (Z.to_nat (l - f + 1)) (drop (Z.to_nat f) X)).
  { rewrite slice_inside by lia.
    f_equal. lia. }
  set (s := if (l =? len - 1) && (f >? 0)
            then mkPoint (f - 1) (JS.strlen (getLine (doc w) (f - 1)))
            else mkPoint f 0).
  set (e := if l <? len - 1 then mkPoint (l + 1) 0
            else mkPoint l (JS.strlen (getLine (doc w) l))).
  set (Dr := mkDelta s e remove_ (getLinesForRange (doc w) (mkRange s e))).
  pose proof (removeFullLines_run w firstRow lastRow Hline Hfl) as Hrun.
  fold X f l len s e Dr in Hrun.
  destruct (newDeltaOf_eval w Dr) as [_ HD].
  assert (HD' : deltaAt (if isNoop Dr then withDelta w Dr
                         else spliced (withDelta w Dr) (removeLines X s e)
                                      (length (deltas w)))
                        (length (deltas w)) = Some Dr).
  { by destruct (isNoop Dr). }
  split; [|split].
  - intros Hcase. unfold removesRows. fold X f l. rewrite Hrun, <- Hslice.
    eexists. split; [reflexivity|].
    assert (isNoop Dr = false) as ->.
    { apply isNoop_remove_rows. unfold s, e.
      destruct (Z.eqb_spec l (len - 1)), (Z.gtb_spec f 0), (Z.ltb_spec l (len - 1));
        simpl; lia. }
    simpl. unfold s, e.
    destruct (Z.ltb_spec l (len - 1)) as [Hlt|Hge].
    + destruct (Z.eqb_spec l (len - 1)); [lia|]. simpl.
      apply removeLines_following; lia.
    + destruct (Z.eqb_spec l (len - 1)); [|lia].
      destruct (Z.gtb_spec f 0); [|lia]. simpl.
      rewrite !getLine_lineAt. fold X.
      apply removeLines_preceding; lia.
  - intros Hf0 Hll.
    by apply (removeFullLines_all_rows w firstRow lastRow Hline Hfl).
  - exists (JS.slice X f (l + 1)). eexists. exists Dr.
    split; [exact Hrun|]. split; [exact HD'|]. split; [done|].
    simpl. unfold s, e. split.
    + intros Hlt. destruct (Z.eqb_spec l (len - 1)); [lia|].
      destruct (Z.ltb_spec l (len - 1)); [done|lia].
    + intros Hll Hf0. destruct (Z.eqb_spec l (len - 1)); [|lia].
      destruct (Z.gtb_spec f 0); [|lia].
      destruct (Z.ltb_spec l (len - 1)); [lia|done].
Qed.

(** The first row of three. *)
Lemma removeFullLines_rows_witness :
  removesRows (worldOf (newDocument (inr ["a"; "b"; "c"]))) 0 0.
Proof.
  apply (removeFullLines_rows (worldOf (newDocument (inr ["a"; "b"; "c"]))) 0 0);
    [vm_compute; discriminate | vm_compute; discriminate
    | right; vm_compute; reflexivity].
Defined.

(** The example of the specification: [removeFullLines(0,0)] on
    [["a","b","c"]] leaves [["b","c"]] and returns [["a"]]. *)
Example removeFullLines_first_of_three :
  exists w', removeFullLines 0 0 (worldOf (newDocument (inr ["a"; "b"; "c"])))
             = Ok ["a"] w' /\
             _lines (doc w') = ["b"; "c"].
Proof. eexists. split; [vm_compute; reflexivity|reflexivity]. Qed.

(** C6 as stated fails when the rows are the whole document: the only row
    of a one-line document is returned, and a line remains, no newline being
    there to consume. *)
Lemma removeFullLines_whole_document :
  ~ removesRows (worldOf (newDocument (inr ["a"]))) 0 0.
Proof.
  intros (w' & Hrun & Hlines). vm_compute in Hrun. injection Hrun as <-.
  vm_compute in Hlines. discriminate.
Qed.

(** C3. A document made by the constructor from any text or lines, after
    any sequence of calls on it, has a line at least; and removing all its
    rows then leaves exactly one, empty, line. *)
Theorem document_never_empty :
  forall (textOrLines : string + list string) (cs : list Call),
    let w := calls cs (worldOf (newDocument textOrLines)) in
    1 <= getLength (doc w) /\
    exists w', removeFullLines 0 (getLength (doc w) - 1) w = Ok (_lines (doc w)) w' /\
               _lines (doc w') = [EmptyString] /\
               getLength (doc w') = 1.
Proof.
  intros textOrLines cs w.
  assert (Hw : hasLine w) by apply hasLine_calls, hasLine_newDocument.
  split; [exact Hw|].
  unfold hasLine in Hw.
  destruct (removeFullLines_all_rows w 0 (getLength (doc w) - 1) Hw)
    as (w' & Hrun & Hlines); try (unfold clipRow; lia).
  exists w'. split; [done|]. split; [done|].
  unfold getLength. by rewrite Hlines.
Qed.

(** ** Inserts of any size *)

Section InsertAnySize.

(** An insert at a row of the document, split or not, leaves the lines
    of the one splice. *)
Lemma applyDelta_insert_lines w d D doNotValidate :
  deltaAt w d = Some D ->
  action D = insert_ -> isNoop D = false ->
  doNotValidate = true \/ ApplyDelta.validateDelta (_lines (doc w)) D = true ->
  0 <= row (start D) <= Z.of_nat (length (_lines (doc w))) ->
  exists w',
    applyDelta d doNotValidate w = Ok tt w' /\
    _lines (doc w') = insertLines (_lines (doc w)) (start D) (lines D) /\
    _autoNewLine (doc w') = _autoNewLine (doc w) /\
    _newLineMode (doc w') = _newLineMode (doc w).
Proof.
  intros HD Ha Hnoop Hv Hrow.
  destruct (Z.le_gt_cases (Z.of_nat (length (lines D))) 20000) as [Hsmall|Hlarge].
  - eexists. split; [by apply applyDelta__insert|]. done.
  - destruct (deltaAt_Some _ _ _ HD) as (o & Ho & Hs & He & Hl & Hact).
    rewrite Ha in Hact.
    destruct (splitAndapplyLargeDelta_spec 0 w d o D Ho Hs He Hl Hact ltac:(lia))
      as (Ws & tail & w' & Hrun & _ & _ & _ & _ & Hnl & Hmode & Hdoc & _).
    exists w'. rewrite (applyDelta_large _ _ _ _ HD Ha ltac:(lia)).
    split; [done|]. split; [by apply Hdoc|]. done.
Qed.

Lemma validateDelta_insert X D :
  action D = insert_ ->
  ApplyDelta.positionInDocument X (start D) = true ->
  row (end_ D) - row (start D) = Z.of_nat (length (lines D)) - 1 ->
  ApplyDelta.validateDelta X D = true.
Proof.
  intros Ha Hs Hn. unfold ApplyDelta.validateDelta.
  rewrite Ha, Hs. simpl. lia.
Qed.

Lemma mergeLines_empty ls :
  ls <> [] -> ApplyDelta.mergeLines EmptyString ls EmptyString = ls.
Proof.
  intros H. rewrite mergeLines_continue by done. unfold suffixLast.
  rewrite app_empty_r. by rewrite <- app_removelast_last.
Qed.

(** Into the one empty line of a new document. *)
Lemma insertLines_into_empty ls :
  ls <> [] -> insertLines [EmptyString] (mkPoint 0 0) ls = ls.
Proof.
  intros H. unfold insertLines. simpl.
  change (ApplyDelta.lineAt [EmptyString] 0) with EmptyString.
  rewrite substring_0_0, substringFrom_0, mergeLines_empty by done.
  by rewrite app_nil_r.
Qed.

Lemma getAllLines_all D : getAllLines D = _lines D.
Proof.
  unfold getAllLines, getLines, getLength, JS.slice, JS.relIndex.
  change (0 <? 0) with false. cbv iota.
  destruct (Z.ltb_spec (Z.of_nat (length (_lines D)) + 1) 0); [lia|].
  rewrite (Z.min_l 0) by lia. rewrite Z.min_r by lia. rewrite Z.sub_0_r.
  change (Z.to_nat 0) with 0%nat. rewrite drop_0. apply take_ge. lia.
Qed.

End InsertAnySize.

(** ** Splitting and joining lines *)

Section SplitJoin.

Lemma isEOL_false c : JS.isEOL c = false -> c <> JS.CR /\ c <> JS.LF.
Proof. unfold JS.isEOL. by repeat case_decide. Qed.

Lemma noEOL_cons c s :
  noEOL (String c s) = true -> c <> JS.CR /\ c <> JS.LF /\ noEOL s = true.
Proof.
  simpl. intros [H1 H2]%andb_prop. apply negb_true_iff, isEOL_false in H1.
  tauto.
Qed.

Lemma splitEOL_cons_line c t :
  c <> JS.CR -> c <> JS.LF ->
  JS.splitEOL (String c t)
  = match JS.splitEOL t with
    | piece :: pieces => String c piece :: pieces
    | [] => [String c EmptyString]
    end.
Proof. intros H1 H2. simpl. by repeat case_decide. Qed.

Lemma splitEOL_nonempty t : JS.splitEOL t <> [].
Proof.
  destruct t as [|c t]; [done|]. simpl.
  repeat case_decide; try done; destruct t; try done;
    repeat case_decide; try done; by destruct (JS.splitEOL _).
Qed.

Lemma splitEOL_line x t :
  noEOL x = true ->
  JS.splitEOL (x +:+ t)
  = match JS.splitEOL t with
    | piece :: pieces => (x +:+ piece) :: pieces
    | [] => [x]
    end.
Proof.
  induction x as [|c x IH]; intros Hx.
  - rewrite sapp_nil. pose proof (splitEOL_nonempty t).
    by destruct (JS.splitEOL t).
  - apply noEOL_cons in Hx as (H1 & H2 & Hx).
    rewrite sapp_cons, splitEOL_cons_line, IH by done.
    pose proof (splitEOL_nonempty t). by destruct (JS.splitEOL t).
Qed.

Lemma firstEOL_line x t :
  noEOL x = true -> JS.firstEOL (x +:+ t) = JS.firstEOL t.
Proof.
  induction x as [|c x IH]; intros Hx; [done|].
  apply noEOL_cons in Hx as (H1 & H2 & Hx).
  rewrite sapp_cons. simpl. repeat case_decide; try done. by apply IH.
Qed.

(** What lines joined by a carriage return start with is no line feed. *)
Lemma join_CR_head ls c t :
  Forall (fun x => noEOL x = true) ls ->
  JS.join (String JS.CR EmptyString) ls = String c t -> c <> JS.LF.
Proof.
  intros Hls. destruct ls as [|x ls]; [done|].
  inversion Hls as [|? ? Hx _]; subst.
  destruct x as [|c' x].
  - destruct ls; simpl; [done|]. rewrite sapp_nil, sapp_cons.
    intros [= <- _]. done.
  - apply noEOL_cons in Hx as (_ & H2 & _).
    destruct ls; simpl; [by intros [= <- _]|].
    rewrite sapp_cons. by intros [= <- _].
Qed.

Lemma splitEOL_CR c t :
  c <> JS.LF ->
  JS.splitEOL (String JS.CR (String c t))
  = EmptyString :: JS.splitEOL (String c t).
Proof.
  intros H. remember (String c t) as u eqn:Hu. simpl.
  repeat case_decide; try done. subst u. cbv beta iota.
  repeat case_decide; done.
Qed.

Lemma splitEOL_separator sep ls :
  isSeparator sep -> Forall (fun x => noEOL x = true) ls ->
  JS.splitEOL (sep +:+ JS.join sep ls)
  = EmptyString :: JS.splitEOL (JS.join sep ls).
Proof.
  intros [-> | [-> | ->]] Hls; try done.
  rewrite sapp_cons, sapp_nil.
  destruct (JS.join (String JS.CR EmptyString) ls) as [|c t] eqn:E; [done|].
  apply (join_CR_head _ _ _ Hls) in E. by apply splitEOL_CR.
Qed.

Lemma firstEOL_separator sep ls :
  isSeparator sep -> Forall (fun x => noEOL x = true) ls ->
  JS.firstEOL (sep +:+ JS.join sep ls) = Some sep.
Proof.
  intros [-> | [-> | ->]] Hls; try done.
  rewrite sapp_cons, sapp_nil.
  destruct (JS.join (String JS.CR EmptyString) ls) as [|c t] eqn:E; [done|].
  apply (join_CR_head _ _ _ Hls) in E. simpl.
  repeat case_decide; done.
Qed.

Lemma join_cons sep x y ls :
  JS.join sep (x :: y :: ls) = x +:+ sep +:+ JS.join sep (y :: ls).
Proof. reflexivity. Qed.

(** Splitting what was joined gives the lines back. *)
Lemma splitEOL_join sep ls :
  isSeparator sep -> ls <> [] -> Forall (fun x => noEOL x = true) ls ->
  JS.splitEOL (JS.join sep ls) = ls.
Proof.
  intros Hsep Hne Hls. induction ls as [|x ls IH]; [done|].
  inversion Hls as [|? ? Hx Hls']; subst.
  destruct ls as [|y ls].
  - simpl. pose proof (splitEOL_line x EmptyString Hx) as E.
    simpl in E. by rewrite !app_empty_r in E.
  - rewrite join_cons, splitEOL_line by done.
    rewrite splitEOL_separator by done. rewrite IH by done.
    by rewrite app_empty_r.
Qed.

(** The first separator of joined lines is the one they were joined
    with. *)
Lemma firstEOL_join sep x y ls :
  isSeparator sep -> Forall (fun x => noEOL x = true) (x :: y :: ls) ->
  JS.firstEOL (JS.join sep (x :: y :: ls)) = Some sep.
Proof.
  intros Hsep Hls. inversion Hls as [|? ? Hx Hls']; subst.
  by rewrite join_cons, firstEOL_line, firstEOL_separator.
Qed.

End SplitJoin.

(** ** [insertMergedLines] and the constructor *)

Section InsertMergedLines.

Lemma clippedPos_in_document D r c :
  1 <= getLength D ->
  ApplyDelta.positionInDocument (_lines D) (clippedPos D (Some r) c) = true.
Proof.
  intros Hlen. unfold clippedPos.
  assert (Hc : forall line c0,
             0 <= Z.min (Z.max c0 0) (JS.strlen line) <= JS.strlen line).
  { intros line c0. pose proof (strlen_nonneg line). lia. }
  destruct (Z.ltb_spec r 0); [|destruct (Z.geb_spec r (getLength D))];
    (apply positionInDocument_intro; simpl;
     [unfold getLength in *; lia|rewrite <- getLine_lineAt; apply Hc]).
Qed.

Lemma last_index (ls : list string) :
  ls <> [] ->
  JS.index ls (Z.of_nat (length ls) - 1) = Some (List.last ls EmptyString).
Proof.
  intros H. apply index_Some. split.
  - destruct ls; [done|]. simpl length. lia.
  - replace (Z.to_nat (Z.of_nat (length ls) - 1)) with (length ls - 1)%nat by lia.
    induction ls as [|x [|y ls] IH]; try done.
    specialize (IH ltac:(done)).
    change (List.last (x :: y :: ls) EmptyString)
      with (List.last (y :: ls) EmptyString).
    rewrite <- IH. simpl. by rewrite Nat.sub_0_r.
Qed.

(** Lines that are not one empty string, inserted at any position of a
    document with a line: the position is clipped, and the lines are
    spliced there. *)
Lemma insertMergedLines_lines w p ls :
  hasLine w -> ls <> [] -> ls <> [EmptyString] ->
  exists pt w',
    insertMergedLines p ls w = Ok pt w' /\
    _lines (doc w')
    = insertLines (_lines (doc w))
                  (clippedPos (doc w) (Some (row p)) (Some (column p))) ls /\
    _autoNewLine (doc w') = _autoNewLine (doc w) /\
    _newLineMode (doc w') = _newLineMode (doc w).
Proof.
  intros Hw Hne Hne'. unfold insertMergedLines.
  unfold bind at 1. unfold gets.
  set (s := clippedPos (doc w) (Some (row p)) (Some (column p))).
  rewrite (bind_ok _ _ _ _ _ (f_equal (fun o => orThrow o TypeError w)
                                      (last_index ls Hne))).
  set (e := mkPoint _ _).
  set (Dd := mkDelta s e insert_ ls).
  destruct (newDeltaOf_eval w Dd) as [Hnew HD].
  rewrite (bind_ok _ _ _ _ _ Hnew). cbv beta iota.
  pose proof (clippedPos_in_document (doc w) (row p) (Some (column p)) Hw) as Hpos.
  fold s in Hpos.
  destruct (applyDelta_insert_lines (withDelta w Dd) (length (deltas w)) Dd false HD)
    as (w' & Hrun & Hlines & Hnl & Hmode); try done.
  - by apply isNoop_insert_false.
  - right. apply validateDelta_insert; try done. unfold Dd, e. simpl. lia.
  - unfold ApplyDelta.positionInDocument in Hpos. simpl. lia.
  - rewrite (bind_ok _ _ _ _ _ Hrun).
    assert (Ho : deltas (withDelta w Dd) !! length (deltas w)
                 = Some (mkDeltaObj (length (points w)) (S (length (points w)))
                                    insert_ (length (arrays w)))).
    { unfold withDelta. simpl. by rewrite lookup_app_r, Nat.sub_diag by lia. }
    destruct (applyDelta_frame _ _ _ _ false HD Ho) as (Fp & _ & _).
    rewrite Hrun in Fp. simpl in Fp.
    specialize (Fp (S (length (points w))) ltac:(lia)
                   ltac:(rewrite length_app; simpl; lia)).
    rewrite lookup_app_r in Fp by lia.
    replace (S (length (points w)) - length (points w))%nat with 1%nat in Fp by lia.
    simpl in Fp.
    rewrite (bind_ok _ _ _ _ _ (readPoint_ok _ _ _ Fp)).
    by exists (clonePos e), w'.
Qed.

End InsertMergedLines.

(** C4. For lines without carriage return and line feed, joined by one of
    the three separators into a text, the document constructed from the text
    holds these lines and its [getValue()] is the text. *)
Theorem document_getValue_roundtrip (sep : string) (ls : list string) :
  isSeparator sep ->
  ls <> [] ->
  Forall (fun x => noEOL x = true) ls ->
  exists w,
    newDocument (inl (JS.join sep ls)) = Ok tt w /\
    _lines (doc w) = ls /\
    getValue (doc w) = JS.join sep ls.
Proof.
  intros Hsep Hne Hls. set (T := JS.join sep ls).
  assert (Hsplit : JS.splitEOL T = ls) by (by apply splitEOL_join).
  unfold newDocument, constructor.
  set (w0 := mkWorld (mkDocument [EmptyString] EmptyString auto) [] [] [] []).
  assert (E0 : setLines [EmptyString] protoWorld = Ok tt w0) by reflexivity.
  rewrite (bind_ok _ _ _ _ _ E0).
  destruct (Z.eqb_spec (JS.strlen T) 0) as [HT|HT].
  - apply strlen_empty_inv in HT. exists w0. split; [done|].
    rewrite HT in Hsplit. rewrite <- Hsplit, HT. by split.
  - assert (Hne' : ls <> [EmptyString]).
    { intros E. apply HT. unfold T. by rewrite E. }
    set (nl := default (String JS.LF EmptyString) (JS.firstEOL T)).
    set (w1 := mkWorld (mkDocument [EmptyString] nl auto) [] [] []
                       [changeNewLineMode]).
    assert (E1 : _detectNewLine T w0 = Ok tt w1) by reflexivity.
    assert (Hw1 : hasLine w1) by (unfold hasLine, getLength; simpl; lia).
    destruct (insertMergedLines_lines w1 (mkPoint 0 0) ls Hw1 Hne Hne')
      as (pt & w' & Hrun & Hlines & Hnl & Hmode).
    assert (Hins : insert (mkPoint 0 0) T w0 = Ok pt w').
    { unfold insert. unfold bind at 1. unfold gets.
      change (getLength (doc w0) <=? 1) with true. cbv iota.
      rewrite (bind_ok _ _ _ _ _ E1). unfold _split. by rewrite Hsplit. }
    exists w'. split; [by rewrite (bind_ok _ _ _ _ _ Hins)|].
    change (clippedPos (doc w1) (Some (row (mkPoint 0 0)))
                       (Some (column (mkPoint 0 0)))) with (mkPoint 0 0) in Hlines.
    change (_lines (doc w1)) with [EmptyString] in Hlines.
    rewrite insertLines_into_empty in Hlines by done.
    split; [done|].
    unfold getValue. rewrite getAllLines_all, Hlines.
    destruct ls as [|x [|y rest]]; [done|done|].
    f_equal. unfold getNewLineCharacter. rewrite Hmode, Hnl. simpl.
    unfold nl, T. rewrite firstEOL_join by done. simpl.
    rewrite orElse_line_or. case_decide as E; [|done].
    by destruct Hsep as [-> | [-> | ->]].
Qed.

(** Two lines joined by a carriage return and a line feed. *)
Lemma document_getValue_roundtrip_witness :
  exists w,
    newDocument (inl (JS.join (String JS.CR (String JS.LF EmptyString)) ["ab"; "cd"]))
    = Ok tt w /\
    _lines (doc w) = ["ab"; "cd"] /\
    getValue (doc w) = JS.join (String JS.CR (String JS.LF EmptyString)) ["ab"; "cd"].
Proof.
  apply (document_getValue_roundtrip (String JS.CR (String JS.LF EmptyString))
                                     ["ab"; "cd"]);
    [right; left; reflexivity | discriminate
    | repeat constructor].
Defined.

(** ** A splice and its inverse *)

Section MoreSubstrings.

Lemma length_sdrop n s :
  String.length (JS.sdrop n s) = (String.length s - n)%nat.
Proof.
  revert s. induction n as [|n IH]; intros [|c s]; simpl; auto.
Qed.

Lemma substring_inside s a b :
  0 <= a <= b -> b <= JS.strlen s ->
  JS.substring s a b = JS.stake (Z.to_nat (b - a)) (JS.sdrop (Z.to_nat a) s).
Proof.
  intros Hab Hb. unfold JS.substring, JS.clampIndex.
  replace (Z.min (Z.max a 0) (JS.strlen s)) with a by lia.
  replace (Z.min (Z.max b 0) (JS.strlen s)) with b by lia.
  by rewrite Z.min_l, Z.max_r by lia.
Qed.

Lemma substringFrom_inside s a :
  0 <= a <= JS.strlen s -> JS.substringFrom s a = JS.sdrop (Z.to_nat a) s.
Proof.
  intros Ha. unfold JS.substringFrom. rewrite substring_inside by lia.
  apply stake_all. rewrite length_sdrop. unfold JS.strlen in *. lia.
Qed.

(** The text before [a], from [a] to [b], and from [b] on. *)
Lemma substring_three s a b :
  0 <= a <= b -> b <= JS.strlen s ->
  JS.substring s 0 a +:+ JS.substring s a b +:+ JS.substringFrom s b = s.
Proof.
  intros Hab Hb.
  rewrite !substring_inside, substringFrom_inside by lia.
  rewrite Z.sub_0_r. change (Z.to_nat 0) with 0%nat. rewrite sdrop_0.
  rewrite <- (stake_sdrop (Z.to_nat a) s) at 4. f_equal.
  rewrite <- (stake_sdrop (Z.to_nat (b - a)) (JS.sdrop (Z.to_nat a) s)) at 2.
  f_equal. clear Hb.
  replace (Z.to_nat b) with (Z.to_nat a + Z.to_nat (b - a))%nat by lia.
  generalize (Z.to_nat a) (Z.to_nat (b - a)). clear. intros n m. revert s.
  induction n as [|n IH]; intros s; simpl.
  - done.
  - destruct s; simpl; [by destruct m|]. apply IH.
Qed.

Lemma substring_same s a : JS.substring s a a = EmptyString.
Proof.
  unfold JS.substring. rewrite Z.max_id, Z.min_id, Z.sub_diag.
  apply stake_0.
Qed.

Lemma strlen_substring s a b :
  0 <= a <= b -> b <= JS.strlen s -> JS.strlen (JS.substring s a b) = b - a.
Proof.
  intros Hab Hb. rewrite substring_inside by done.
  unfold JS.strlen in *. rewrite length_stake, length_sdrop. lia.
Qed.

End MoreSubstrings.

Section Middle.

Lemma lineAt_middle A line B :
  ApplyDelta.lineAt (A ++ line :: B) (Z.of_nat (length A)) = line.
Proof.
  apply lineAt_lookup; [lia|]. rewrite Nat2Z.id. apply list_lookup_middle. done.
Qed.

Lemma drop_middle {T} (A : list T) x B : drop (S (length A)) (A ++ x :: B) = B.
Proof.
  rewrite (cons_middle x), app_assoc.
  apply drop_app_length'. rewrite length_app. simpl. lia.
Qed.

Lemma positionInDocument_elim X p :
  ApplyDelta.positionInDocument X p = true ->
  exists line, X !! Z.to_nat (row p) = Some line /\
               0 <= row p < Z.of_nat (length X) /\
               0 <= column p <= JS.strlen line /\
               ApplyDelta.lineAt X (row p) = line.
Proof.
  unfold ApplyDelta.positionInDocument.
  intros [[[H1 H2]%andb_prop H3]%andb_prop H4]%andb_prop.
  destruct (lookup_lt_is_Some_2 X (Z.to_nat (row p))) as [line Hline]; [lia|].
  exists line. rewrite (lineAt_lookup X (row p) line) in * by (done || lia).
  repeat split; try done; lia.
Qed.

(** The splice of an insert, with the line store cut at the row. *)
Lemma insertLines_middle A line B c L :
  insertLines (A ++ line :: B) (mkPoint (Z.of_nat (length A)) c) L
  = A ++ ApplyDelta.mergeLines (JS.substring line 0 c) L
                               (JS.substringFrom line c) ++ B.
Proof.
  unfold insertLines. simpl. rewrite Nat2Z.id, lineAt_middle.
  by rewrite take_app_length, drop_middle.
Qed.

(** The splice of a remove, with the line store cut at both rows. *)
Lemma removeLines_middle A ls Mid le B cs ce :
  removeLines (A ++ ls :: Mid ++ le :: B)
              (mkPoint (Z.of_nat (length A)) cs)
              (mkPoint (Z.of_nat (length A) + 1 + Z.of_nat (length Mid)) ce)
  = A ++ (JS.substring ls 0 cs +:+ JS.substringFrom le ce) :: B.
Proof.
  unfold removeLines. simpl. rewrite Nat2Z.id, lineAt_middle.
  rewrite take_app_length.
  replace (A ++ ls :: Mid ++ le :: B) with ((A ++ ls :: Mid) ++ le :: B)
    by (by rewrite <- app_assoc).
  replace (Z.of_nat (length A) + 1 + Z.of_nat (length Mid))
    with (Z.of_nat (length (A ++ ls :: Mid)))
    by (rewrite length_app; simpl; lia).
  by rewrite lineAt_middle, Nat2Z.id, drop_middle.
Qed.

Lemma removeLines_middle_row A line B cs ce :
  removeLines (A ++ line :: B)
              (mkPoint (Z.of_nat (length A)) cs)
              (mkPoint (Z.of_nat (length A)) ce)
  = A ++ (JS.substring line 0 cs +:+ JS.substringFrom line ce) :: B.
Proof.
  unfold removeLines. simpl. rewrite Nat2Z.id, lineAt_middle.
  by rewrite take_app_length, drop_middle.
Qed.

End Middle.

Section InverseSplices.

(** Removing what was just inserted. *)
Lemma removeLines_insertLines X s L :
  ApplyDelta.positionInDocument X s = true -> L <> [] ->
  removeLines (insertLines X s L) s (insertEnd s L) = X.
Proof.
  intros Hs HL.
  destruct (positionInDocument_elim _ _ Hs) as (line & Hline & Hr & Hc & _).
  destruct s as [r c]. simpl in *.
  rewrite <- (take_drop_middle _ _ _ Hline).
  set (A := take (Z.to_nat r) X). set (B := drop (S (Z.to_nat r)) X).
  assert (HA : r = Z.of_nat (length A)).
  { unfold A. rewrite length_take. lia. }
  rewrite HA. rewrite insertLines_middle.
  set (pre := JS.substring line 0 c). set (post := JS.substringFrom line c).
  assert (Hpre : JS.strlen pre = c) by (by apply strlen_substring_prefix).
  assert (Hline' : pre +:+ post = line) by apply substring_split.
  rewrite (app_removelast_last EmptyString HL).
  set (W := removelast L). set (y := List.last L EmptyString).
  unfold insertEnd. simpl. rewrite last_last, length_app. simpl.
  destruct W as [|w0 W'].
  - simpl.
    replace (Z.of_nat (length A) + Z.of_nat 1 - 1) with (Z.of_nat (length A))
      by lia.
    rewrite removeLines_middle_row.
    pose proof (substring_prefix pre (y +:+ post)) as E1. rewrite Hpre in E1.
    pose proof (substringFrom_suffix (pre +:+ y) post) as E2.
    rewrite strlen_app, Hpre, app_assoc_s in E2.
    by rewrite E1, E2, Hline'.
  - rewrite mergeLines_split by done.
    unfold suffixLast. simpl removelast. simpl List.last. simpl prefixFirst.
    destruct (Z.eqb_spec (Z.of_nat (length (w0 :: W') + 1)) 1) as [E|_].
    { simpl in E. lia. }
    simpl app.
    replace (Z.of_nat (length A) + Z.of_nat (length (w0 :: W') + 1) - 1)
      with (Z.of_nat (length A) + 1 + Z.of_nat (length W'))
      by (simpl length; lia).
    rewrite <- (app_assoc W' [y +:+ post] B). simpl app.
    rewrite removeLines_middle.
    pose proof (substring_prefix pre w0) as E1. rewrite Hpre in E1.
    change (0 + JS.strlen y) with (JS.strlen y).
    by rewrite E1, substringFrom_suffix, Hline'.
Qed.

End InverseSplices.

Section RangeLines.

Variable D0 : Document.

Lemma getLinesForRange_row A line B cs ce :
  _lines D0 = A ++ line :: B ->
  getLinesForRange D0 (mkRange (mkPoint (Z.of_nat (length A)) cs)
                               (mkPoint (Z.of_nat (length A)) ce))
  = [JS.substring line cs ce].
Proof.
  intros HX. unfold getLinesForRange. simpl. rewrite Z.eqb_refl.
  by rewrite getLine_lineAt, HX, lineAt_middle.
Qed.

Lemma getLinesForRange_middle A ls Mid le B cs ce :
  _lines D0 = A ++ ls :: Mid ++ le :: B ->
  getLinesForRange D0
    (mkRange (mkPoint (Z.of_nat (length A)) cs)
             (mkPoint (Z.of_nat (length A) + 1 + Z.of_nat (length Mid)) ce))
  = JS.substringFrom ls cs :: Mid ++ [JS.substring le 0 ce].
Proof.
  intros HX. unfold getLinesForRange. simpl.
  destruct (Z.eqb_spec (Z.of_nat (length A))
                       (Z.of_nat (length A) + 1 + Z.of_nat (length Mid)));
    [lia|].
  unfold getLines. rewrite HX.
  rewrite slice_inside;
    [|lia|rewrite !length_app; simpl; rewrite length_app; simpl; lia].
  rewrite Nat2Z.id, drop_app_length.
  replace (Z.to_nat (Z.of_nat (length A) + 1 + Z.of_nat (length Mid) + 1
                     - Z.of_nat (length A)))
    with (length (ls :: Mid ++ [le]))
    by (simpl; rewrite length_app; simpl; lia).
  replace (ls :: Mid ++ le :: B) with ((ls :: Mid ++ [le]) ++ B)
    by (simpl; by rewrite <- app_assoc).
  rewrite take_app_length. simpl app. rewrite orElse_line.
  set (ls' := JS.substringFrom ls cs :: Mid ++ [le]).
  assert (Hlen : Z.of_nat (length ls') - 1 = 1 + Z.of_nat (length Mid)).
  { unfold ls'. simpl. rewrite length_app. simpl. lia. }
  rewrite Hlen.
  destruct (Z.eqb_spec (Z.of_nat (length A) + 1 + Z.of_nat (length Mid)
                        - Z.of_nat (length A))
                       (1 + Z.of_nat (length Mid))); [|lia].
  assert (Hidx : ls' !! Z.to_nat (1 + Z.of_nat (length Mid)) = Some le).
  { unfold ls'. replace (Z.to_nat (1 + Z.of_nat (length Mid)))
      with (S (length Mid)) by lia.
    simpl. by rewrite list_lookup_middle. }
  rewrite (proj2 (index_Some ls' _ le)) by (split; [lia|done]).
  unfold ls'. replace (Z.to_nat (1 + Z.of_nat (length Mid)))
    with (S (length Mid)) by lia.
  simpl. f_equal. rewrite insert_app_r_alt, Nat.sub_diag by lia. done.
Qed.

(** Two rows of the document, the first before the second, cut the line
    store in five. *)
Lemma two_rows (X : list string) rs re :
  0 <= rs < re -> re < Z.of_nat (length X) ->
  exists A ls Mid le B,
    X = A ++ ls :: Mid ++ le :: B /\
    rs = Z.of_nat (length A) /\
    re = Z.of_nat (length A) + 1 + Z.of_nat (length Mid).
Proof.
  intros Hrs Hre.
  destruct (lookup_lt_is_Some_2 X (Z.to_nat rs)) as [ls Hls]; [lia|].
  set (rest := drop (S (Z.to_nat rs)) X).
  destruct (lookup_lt_is_Some_2 rest (Z.to_nat (re - rs - 1))) as [le Hle].
  { unfold rest. rewrite length_drop. lia. }
  exists (take (Z.to_nat rs) X), ls, (take (Z.to_nat (re - rs - 1)) rest), le,
         (drop (S (Z.to_nat (re - rs - 1))) rest).
  split; [|split].
  - rewrite (take_drop_middle rest _ _ Hle). unfold rest.
    by rewrite (take_drop_middle X _ _ Hls).
  - rewrite length_take. lia.
  - rewrite !length_take. unfold rest. rewrite length_drop. lia.
Qed.

End RangeLines.

Section InverseSplices2.

(** Inserting what was just removed. *)
Lemma insertLines_removeLines D0 s e :
  ApplyDelta.positionInDocument (_lines D0) s = true ->
  ApplyDelta.positionInDocument (_lines D0) e = true ->
  Range.comparePoints s e <= 0 ->
  insertLines (removeLines (_lines D0) s e) s (getLinesForRange D0 (mkRange s e))
  = _lines D0.
Proof.
  intros Hs He Hcmp.
  destruct (positionInDocument_elim _ _ Hs) as (ls & Hls & Hrs & Hcs & _).
  destruct (positionInDocument_elim _ _ He) as (le & Hle & Hre & Hce & _).
  destruct s as [rs cs], e as [re ce]. simpl in *.
  unfold Range.comparePoints in Hcmp. simpl in Hcmp.
  destruct (Z.eqb_spec (rs - re) 0) as [Erow|Erow].
  - assert (re = rs) as -> by lia. rewrite Hls in Hle. injection Hle as <-.
    pose proof (take_drop_middle _ _ _ Hls) as HX.
    set (A := take (Z.to_nat rs) (_lines D0)) in *.
    set (B := drop (S (Z.to_nat rs)) (_lines D0)) in *.
    assert (HA : rs = Z.of_nat (length A)).
    { unfold A. rewrite length_take. lia. }
    clearbody A B. clear Hls Hrs Hre. subst rs.
    rewrite (getLinesForRange_row D0 A ls B) by done.
    rewrite <- HX.
    rewrite removeLines_middle_row, insertLines_middle.
    set (pre := JS.substring ls 0 cs). set (post := JS.substringFrom ls ce).
    assert (Hpre : JS.strlen pre = cs) by (by apply strlen_substring_prefix).
    pose proof (substring_prefix pre post) as E1. rewrite Hpre in E1.
    pose proof (substringFrom_suffix pre post) as E2. rewrite Hpre in E2.
    rewrite E1, E2. simpl. unfold pre, post.
    by rewrite substring_three by lia.
  - destruct (two_rows (_lines D0) rs re) as (A & ls' & Mid & le' & B & HX & HA & HB);
      [lia|lia|].
    assert (ls' = ls) as ->.
    { rewrite HX, HA, Nat2Z.id, list_lookup_middle in Hls by done.
      by injection Hls. }
    assert (le' = le) as ->.
    { rewrite HX, HB in Hle.
      replace (A ++ ls :: Mid ++ le' :: B) with ((A ++ ls :: Mid) ++ le' :: B)
        in Hle by (by rewrite <- app_assoc).
      rewrite list_lookup_middle in Hle by (rewrite length_app; simpl; lia).
      by injection Hle. }
    clear Hls Hle Hrs Hre Hcmp Erow. subst rs re.
    rewrite (getLinesForRange_middle D0 A ls Mid le B) by done.
    rewrite HX. rewrite removeLines_middle, insertLines_middle.
    set (pre := JS.substring ls 0 cs). set (post := JS.substringFrom le ce).
    assert (Hpre : JS.strlen pre = cs) by (by apply strlen_substring_prefix).
    pose proof (substring_prefix pre post) as E1. rewrite Hpre in E1.
    pose proof (substringFrom_suffix pre post) as E2. rewrite Hpre in E2.
    rewrite E1, E2.
    replace (JS.substringFrom ls cs :: Mid ++ [JS.substring le 0 ce])
      with ((JS.substringFrom ls cs :: Mid) ++ [JS.substring le 0 ce]) by done.
    rewrite mergeLines_split by done. unfold suffixLast, pre, post. simpl.
    by rewrite !substring_split, <- app_assoc.
Qed.

End InverseSplices2.

Section InverseValid.

(** After an insert, its start and its end are positions of the
    document. *)
Lemma positions_after_insert X s L :
  ApplyDelta.positionInDocument X s = true -> L <> [] ->
  ApplyDelta.positionInDocument (insertLines X s L) s = true /\
  ApplyDelta.positionInDocument (insertLines X s L) (insertEnd s L) = true.
Proof.
  intros Hs HL.
  destruct (positionInDocument_elim _ _ Hs) as (line & Hline & Hr & Hc & _).
  destruct s as [r c]. simpl in *.
  rewrite <- (take_drop_middle _ _ _ Hline).
  set (A := take (Z.to_nat r) X). set (B := drop (S (Z.to_nat r)) X).
  assert (HA : r = Z.of_nat (length A)).
  { unfold A. rewrite length_take. lia. }
  clearbody A B. clear Hline Hr. subst r.
  rewrite insertLines_middle.
  set (pre := JS.substring line 0 c). set (post := JS.substringFrom line c).
  assert (Hpre : JS.strlen pre = c) by (by apply strlen_substring_prefix).
  rewrite (app_removelast_last EmptyString HL).
  set (W := removelast L). set (y := List.last L EmptyString).
  unfold insertEnd. simpl. rewrite last_last, length_app. simpl.
  pose proof (strlen_nonneg y) as Hy. pose proof (strlen_nonneg post) as Hpost.
  destruct W as [|w0 W'].
  - simpl.
    replace (Z.of_nat (length A) + Z.of_nat 1 - 1) with (Z.of_nat (length A))
      by lia.
    split; apply positionInDocument_intro; simpl;
      rewrite ?length_app; simpl; try lia;
      rewrite lineAt_middle, !strlen_app; lia.
  - rewrite mergeLines_split by done.
    unfold suffixLast. simpl removelast. simpl List.last. simpl prefixFirst.
    destruct (Z.eqb_spec (Z.of_nat (length (w0 :: W') + 1)) 1) as [E|_].
    { simpl in E. lia. }
    simpl app. pose proof (strlen_nonneg w0) as Hw0.
    split; apply positionInDocument_intro; simpl;
      rewrite ?length_app; simpl; rewrite ?length_app; simpl; try lia.
    + rewrite lineAt_middle, strlen_app. lia.
    + replace (A ++ (pre +:+ w0) :: (W' ++ [y +:+ post]) ++ B)
        with ((A ++ (pre +:+ w0) :: W') ++ (y +:+ post) :: B)
        by (by rewrite <- !app_assoc).
      replace (Z.of_nat (length A) + Z.of_nat (S (length W' + 1)) - 1)
        with (Z.of_nat (length (A ++ (pre +:+ w0) :: W')))
        by (rewrite length_app; simpl; lia).
      rewrite lineAt_middle, strlen_app. lia.
Qed.

(** After a remove, its start is a position of the document. *)
Lemma position_after_remove X s e :
  ApplyDelta.positionInDocument X s = true ->
  ApplyDelta.positionInDocument X e = true ->
  row s <= row e ->
  ApplyDelta.positionInDocument (removeLines X s e) s = true.
Proof.
  intros Hs He Hrow.
  destruct (positionInDocument_elim _ _ Hs) as (ls & Hls & Hrs & Hcs & Hl1).
  destruct (positionInDocument_elim _ _ He) as (le & Hle & Hre & Hce & Hl2).
  unfold removeLines. rewrite Hl1, Hl2.
  assert (Hlen : length (take (Z.to_nat (row s)) X) = Z.to_nat (row s)).
  { rewrite length_take. lia. }
  apply positionInDocument_intro.
  - rewrite !length_app, Hlen. simpl. lia.
  - rewrite (lineAt_lookup _ (row s) (JS.substring ls 0 (column s)
                                      +:+ JS.substringFrom le (column e))).
    + rewrite strlen_app, strlen_substring_prefix by done.
      pose proof (strlen_nonneg (JS.substringFrom le (column e))). lia.
    + lia.
    + apply list_lookup_middle. by rewrite Hlen.
Qed.

(** The revert of a delta whose inverse changes nothing. *)
Lemma revertDelta_noop w delta D :
  deltaAt w delta = Some D -> isNoop (inverseOf D) = true ->
  revertDelta delta w = Ok tt (withInverse w D).
Proof.
  intros HD Hnoop. destruct (revertDelta_eval _ _ _ HD) as [-> HI].
  rewrite (safeApplyDelta_cases _ _ _ HI).
  destruct (match action (inverseOf D) with insert_ => _ | remove_ => _ end);
    [|done].
  unfold applyDelta. by rewrite (applyDelta__cases _ _ _ HI), Hnoop.
Qed.

End InverseValid.

Section NoopInverse.

(** An insert changes nothing exactly when it ends where it starts. *)
Lemma isNoop_insert_end s e L :
  L <> [] ->
  isNoop (mkDelta s e insert_ L)
  = (Range.comparePoints s (insertEnd s L) =? 0).
Proof.
  intros HL. unfold isNoop, Range.comparePoints, insertEnd. simpl.
  destruct L as [|x [|y L]]; [done| |].
  - simpl.
    replace (row s - (row s + Z.of_nat 1 - 1)) with 0 by lia.
    change (0 =? 0) with true. cbv iota. case_decide as E.
    + subst x. symmetry. apply Z.eqb_eq. unfold JS.strlen. simpl. lia.
    + symmetry. apply Z.eqb_neq. intros H. apply E, strlen_empty_inv. lia.
  - assert (Hn : 2 <= Z.of_nat (length (x :: y :: L))) by (simpl length; lia).
    set (n := Z.of_nat (length (x :: y :: L))) in *.
    destruct (Z.leb_spec n 1); [lia|]. simpl.
    destruct (Z.eqb_spec n 1); [lia|].
    destruct (Z.eqb_spec (row s - (row s + n - 1)) 0); [lia|].
    symmetry. apply Z.eqb_neq. lia.
Qed.

(** The lines of a range are there, and they are one empty string exactly
    when the range ends where it starts. *)
Lemma isNoop_range_lines D0 s e :
  ApplyDelta.positionInDocument (_lines D0) s = true ->
  ApplyDelta.positionInDocument (_lines D0) e = true ->
  Range.comparePoints s e <= 0 ->
  getLinesForRange D0 (mkRange s e) <> [] /\
  isNoop (mkDelta s e insert_ (getLinesForRange D0 (mkRange s e)))
  = (Range.comparePoints s e =? 0).
Proof.
  intros Hs He Hcmp.
  destruct (positionInDocument_elim _ _ Hs) as (ls & Hls & Hrs & Hcs & Hl1).
  destruct (positionInDocument_elim _ _ He) as (le & Hle & Hre & Hce & Hl2).
  pose proof (length_getLinesForRange D0 s e) as Hlen.
  unfold Range.comparePoints in *.
  destruct (Z.eqb_spec (row s - row e) 0) as [Erow|Erow].
  - assert (Hrow : row e = row s) by lia.
    unfold getLinesForRange. simpl. rewrite Hrow, Z.eqb_refl.
    split; [done|]. unfold isNoop. simpl.
    rewrite getLine_lineAt, Hl1. unfold JS.falsy, JS.index. simpl.
    rewrite Hrow, Hls in Hle. injection Hle as <-.
    case_decide as E.
    + symmetry. apply Z.eqb_eq.
      apply (f_equal JS.strlen) in E. rewrite strlen_substring in E by lia.
      unfold JS.strlen in E at 1. simpl in E. lia.
    + symmetry. apply Z.eqb_neq. intros H. apply E.
      replace (column e) with (column s) by lia. apply substring_same.
  - specialize (Hlen ltac:(lia) ltac:(unfold getLength; lia)).
    split.
    + intros E. rewrite E in Hlen. simpl in Hlen. lia.
    + unfold isNoop. simpl.
      destruct (Z.leb_spec (Z.of_nat (length (getLinesForRange D0 (mkRange s e)))) 1);
        [lia|]. simpl. symmetry. apply Z.eqb_neq. lia.
Qed.

Lemma safeApplyDelta_fits w d D :
  deltaAt w d = Some D -> fitting (getLength (doc w)) D ->
  _safeApplyDelta d w = applyDelta d false w.
Proof.
  intros HD Hfit. rewrite (safeApplyDelta_cases _ _ _ HD).
  destruct Hfit as [(-> & H1 & H2)|[-> H1]].
  - destruct (Z.ltb_spec (row (start D)) (getLength (doc w))); [|lia].
    destruct (Z.ltb_spec (row (end_ D)) (getLength (doc w))); [done|lia].
  - destruct (Z.leb_spec (row (start D)) (getLength (doc w))); [done|lia].
Qed.

End NoopInverse.

(** C1 (amended). A delta that is well formed for the document and is not
    split (an insert of at most 20000 lines, or a remove) is applied, and
    [revertDelta] of it right afterwards restores the document: its lines,
    its newline settings and so its [getValue()]. *)
Theorem revertDelta_restores (w : World) (delta : ref) (D : Delta)
    (doNotValidate : bool) :
  deltaAt w delta = Some D ->
  wellFormed (doc w) D ->
  isLarge D = false ->
  exists w1 w2,
    applyDelta delta doNotValidate w = Ok tt w1 /\
    revertDelta delta w1 = Ok tt w2 /\
    doc w2 = doc w /\
    getValue (doc w2) = getValue (doc w).
Proof.
  intros HD [Hs Hwf] Hlarge.
  assert (Hgoal : exists w1 w2,
             applyDelta delta doNotValidate w = Ok tt w1 /\
             revertDelta delta w1 = Ok tt w2 /\ doc w2 = doc w).
  2: { destruct Hgoal as (w1 & w2 & H1 & H2 & H3).
       exists w1, w2. by rewrite H3. }
  destruct D as [s e a L]. simpl in *.
  set (D := mkDelta s e a L) in *. set (X := _lines (doc w)) in *.
  destruct (positionInDocument_elim _ _ Hs) as (ls & Hls & Hrs & Hcs & _).
  destruct (isNoop D) eqn:Hnoop.
  { (* nothing to apply, nothing to revert *)
    exists w, (withInverse w D). split; [|split; [|done]].
    - unfold applyDelta. by rewrite (applyDelta__cases _ _ _ HD), Hnoop.
    - apply revertDelta_noop; [done|]. unfold inverseOf, D in *. simpl.
      destruct a; simpl.
      + destruct Hwf as [HL ->]. by rewrite isNoop_insert_end in Hnoop.
      + destruct Hwf as (He & Hcmp & ->).
        destruct (isNoop_range_lines (doc w) s e Hs He Hcmp) as [_ ->].
        exact Hnoop. }
  destruct a.
  - (* an insert, then the remove that reverts it *)
    destruct Hwf as [HL He]. subst e.
    set (e := insertEnd s L) in *.
    set (X1 := insertLines X s L).
    set (w1 := spliced w X1 delta).
    assert (Hlen : Z.of_nat (length L) <= 20000).
    { unfold isLarge in Hlarge. simpl in Hlarge. lia. }
    assert (Hrun1 : applyDelta delta doNotValidate w = Ok tt w1).
    { apply (applyDelta__insert w delta D); try done. right.
      apply validateDelta_insert; try done. unfold D, e, insertEnd. simpl. lia. }
    assert (HL1 : 1 <= Z.of_nat (length L)) by (destruct L; [done|simpl length; lia]).
    assert (Hlen1 : row e < Z.of_nat (length X1)).
    { pose proof (length_insertLines X s L HL ltac:(lia)).
      unfold e, insertEnd, X1. simpl. lia. }
    assert (Hrows : 0 <= row s <= row e) by (unfold e, insertEnd; simpl; lia).
    destruct (revertDelta_eval w1 delta D HD) as [Hrev HI].
    destruct (positions_after_insert X s L Hs HL) as [Hs1 He1].
    assert (Hrun2 : revertDelta delta w1
                    = Ok tt (spliced (withInverse w1 D) (removeLines X1 s e)
                                     (length (deltas w1)))).
    { rewrite Hrev, (safeApplyDelta_fits _ _ _ HI);
        [|left; split; [done|]; split;
          [change (row s < Z.of_nat (length X1))
          |change (row e < Z.of_nat (length X1))]; lia].
      refine (applyDelta_remove (withInverse w1 D) (length (deltas w1))
                (inverseOf D) false HI _ _ _ _ _); try done.
      - unfold D in Hnoop. rewrite isNoop_insert_end in Hnoop by done.
        exact Hnoop.
      - right. apply validateDelta_remove; try done.
        unfold e, insertEnd. simpl. lia. }
    exists w1, (spliced (withInverse w1 D) (removeLines X1 s e) (length (deltas w1))).
    split; [done|]. split; [done|].
    simpl. unfold X1, e. rewrite removeLines_insertLines by done.
    apply document_eta.
  - (* a remove, then the insert that reverts it *)
    destruct Hwf as (He & Hcmp & HL).
    destruct (positionInDocument_elim _ _ He) as (le & Hle & Hre & Hce & _).
    destruct (isNoop_range_lines (doc w) s e Hs He Hcmp) as [HLne HLnoop].
    rewrite <- HL in HLne, HLnoop.
    assert (Hcmp0 : (Range.comparePoints s e =? 0) = false) by exact Hnoop.
    assert (Hrows : 0 <= row s <= row e).
    { unfold Range.comparePoints in Hcmp.
      destruct (Z.eqb_spec (row s - row e) 0); lia. }
    assert (Hspan : row e - row s = Z.of_nat (length L) - 1).
    { pose proof (length_getLinesForRange (doc w) s e Hrows (proj2 Hre)) as E.
      rewrite <- HL in E. rewrite E. ring. }
    set (X1 := removeLines X s e).
    set (w1 := spliced w X1 delta).
    assert (Hrun1 : applyDelta delta doNotValidate w = Ok tt w1).
    { refine (applyDelta_remove w delta D doNotValidate HD _ _ _ _ _).
      - done.
      - done.
      - right. by apply validateDelta_remove.
      - exact Hrows.
      - exact (proj2 Hre). }
    destruct (revertDelta_eval w1 delta D HD) as [Hrev HI].
    assert (Hs1 : ApplyDelta.positionInDocument X1 s = true).
    { apply position_after_remove; try done. lia. }
    destruct (positionInDocument_elim _ _ Hs1) as (ls1 & _ & Hrs1 & _ & _).
    destruct (applyDelta_insert_lines (withInverse w1 D) (length (deltas w1))
                (inverseOf D) false HI)
      as (w2 & Hrun & Hlines & Hnl & Hmode); try done.
    { unfold inverseOf, D. simpl. by rewrite HLnoop. }
    { right. simpl. apply validateDelta_insert; try done. }
    { simpl. lia. }
    exists w1, w2. split; [done|]. split.
    { rewrite Hrev, (safeApplyDelta_fits _ _ _ HI); [done|].
      right. split; [done|]. change (row s <= Z.of_nat (length X1)). lia. }
    assert (Hfin : insertLines X1 s L = X).
    { unfold X1, X. rewrite HL. by apply insertLines_removeLines. }
    change (_lines (doc w2) = insertLines X1 s L) in Hlines.
    rewrite Hfin in Hlines. simpl in Hnl, Hmode. unfold X in Hlines.
    destruct (doc w2), (doc w). simpl in *. by subst.
Qed.

(** The remove of ["b"; "c"] between two lines, reverted. *)
Lemma revertDelta_restores_witness :
  let w := mkWorld (mkDocument ["ab"; "cd"] EmptyString auto)
                   [mkPoint 0 1; mkPoint 1 1] [["b"; "c"]]
                   [mkDeltaObj 0%nat 1%nat remove_ 0%nat] [] in
  exists w1 w2,
    applyDelta 0%nat false w = Ok tt w1 /\
    revertDelta 0%nat w1 = Ok tt w2 /\
    doc w2 = doc w /\
    getValue (doc w2) = getValue (doc w).
Proof.
  intros w.
  apply (revertDelta_restores w 0%nat
           (mkDelta (mkPoint 0 1) (mkPoint 1 1) remove_ ["b"; "c"]) false).
  - reflexivity.
  - split; [reflexivity|]. split; [reflexivity|]. split; [|reflexivity].
    vm_compute. discriminate.
  - reflexivity.
Defined.

Section Outcomes.

Lemma returned_Ok (o : Outcome unit) : returned o = true -> o = Ok tt (worldOf o).
Proof. by destruct o as [[] ?|]. Qed.

End Outcomes.

(** C1 as stated fails for an insert that is split: the insert of 20001
    lines into the empty document, well formed, is applied; [applyDelta] has
    left the tail in the delta, and [revertDelta] of it removes the tail
    only. *)
Lemma revertDelta_after_large_insert :
  deltaAt bigWorld 0%nat = Some bigDelta /\
  wellFormed (doc bigWorld) bigDelta /\
  exists w1 w2,
    applyDelta 0%nat false bigWorld = Ok tt w1 /\
    revertDelta 0%nat w1 = Ok tt w2 /\
    getLength (doc w2) = 20000 /\
    getValue (doc w2) <> getValue (doc bigWorld).
Proof.
  split; [reflexivity|]. split.
  { split; [reflexivity|]. split.
    - intros H. apply (f_equal (fun l => Z.of_nat (length l))) in H.
      vm_compute in H. discriminate.
    - vm_compute. reflexivity. }
  exists (worldOf (applyDelta 0%nat false bigWorld)),
         (worldOf (revertDelta 0%nat (worldOf (applyDelta 0%nat false bigWorld)))).
  split; [apply returned_Ok; vm_compute; reflexivity|].
  split; [apply returned_Ok; vm_compute; reflexivity|].
  split; [vm_compute; reflexivity|].
  intros H. apply (f_equal JS.strlen) in H. vm_compute in H. discriminate.
Qed.

(** C2 as stated fails in two ways.  Below the document: the insert of
    20001 lines at row 2 of the one-line document is split and leaves 20003
    lines, one more than the splice of the whole delta gives.  And the
    windows alone need not be the insert: of 39999 lines, the last of them
    empty, the two windows that are signalled carry 39998; what is left is
    a single empty string, for which nothing is signalled. *)
Lemma chunked_insert_differs_from_splice :
  (deltaAt belowWorld 0%nat = Some belowDelta /\
   exists w' X,
     applyDelta 0%nat false belowWorld = Ok tt w' /\
     ApplyDelta.splice (_lines (doc belowWorld)) belowDelta = Some X /\
     Z.of_nat (length X) = 20002 /\
     getLength (doc w') = 20003) /\
  (deltaAt emptyTailWorld 0%nat = Some emptyTailDelta /\
   Z.of_nat (length (lines emptyTailDelta)) = 39999 /\
   exists w',
     applyDelta 0%nat false emptyTailWorld = Ok tt w' /\
     signals w' = [change 1%nat; change 2%nat] /\
     Z.of_nat (length (concat (realContent <$> signalled w'))) = 39998 /\
     concat (realContent <$> signalled w') <> lines emptyTailDelta).
Proof.
  split.
  - split; [reflexivity|].
    exists (worldOf (applyDelta 0%nat false belowWorld)),
           (insertLines (_lines (doc belowWorld)) (start belowDelta)
                        (lines belowDelta)).
    split; [apply returned_Ok; vm_compute; reflexivity|].
    split; [reflexivity|].
    split; vm_compute; reflexivity.
  - split; [reflexivity|]. split; [vm_compute; reflexivity|].
    exists (worldOf (applyDelta 0%nat false emptyTailWorld)).
    split; [apply returned_Ok; vm_compute; reflexivity|].
    split; [vm_compute; reflexivity|].
    split; [vm_compute; reflexivity|].
    intros H. apply (f_equal (fun l => Z.of_nat (length l))) in H.
    vm_compute in H. discriminate.
Qed.

(** ** The examples of the specification, and the depth of the splitting *)

(** [Document(["a","bb","ccc"])], then [insertFullLines(1,["X","Y"])]. *)
Example insertFullLines_example :
  _lines (doc (worldOf (insertFullLines 1 ["X"; "Y"]
                          (worldOf (newDocument (inr ["a"; "bb"; "ccc"]))))))
  = ["a"; "X"; "Y"; "bb"; "ccc"].
Proof. vm_compute. reflexivity. Qed.

(** [Document("ab\ncd").remove({start:{row:0,column:1},end:{row:1,column:1}})]:
    what is left of the first row and what is left of the last row make one
    line, as the inverse insert needs it. *)
Example remove_example :
  _lines (doc (worldOf (remove (mkRange (mkPoint 0 1) (mkPoint 1 1))
                          (worldOf (newDocument
                                      (inl ("ab" +:+ String JS.LF "cd")))))))
  = ["ad"].
Proof. vm_compute. reflexivity. Qed.

(** One level of nesting is enough for [applyDelta]: it never runs out of
    depth, and the loop never out of rounds. *)
Lemma applyDelta_never_diverges w d doNotValidate w' :
  applyDelta d doNotValidate w <> Throw Diverges w'.
Proof.
  destruct (deltaAt w d) as [D|] eqn:HD.
  - unfold applyDelta. rewrite (applyDelta__cases _ _ _ HD).
    destruct (isNoop D); [done|].
    destruct (isLarge D) eqn:Hlarge.
    + unfold isLarge in Hlarge. destruct (action D) eqn:Ha; [|done].
      destruct (deltaAt_Some _ _ _ HD) as (o & Ho & Hs & He & Hl & Hact).
      rewrite Ha in Hact.
      destruct (splitAndapplyLargeDelta_spec 0 w d o D Ho Hs He Hl Hact ltac:(lia))
        as (Ws & tail & w1 & Hrun & _).
      by rewrite Hrun.
    + unfold bind, ApplyDelta.applyDelta.
      destruct (negb doNotValidate && _); [done|].
      by destruct (ApplyDelta.splice _ _).
  - unfold applyDelta, applyDelta_, bind, readDelta, readArray, readPoint, deltaAt
      in *.
    destruct (deltas w !! d) as [o|]; simpl in *; [|done].
    destruct (arrays w !! o_lines o) as [l|]; simpl in *; [|done].
    destruct (points w !! o_start o) as [s|]; simpl in *; [|done].
    destruct (points w !! o_end o) as [e|]; simpl in *; [|done].
    done.
Qed.

(** * Further properties *)

(** ** Index and position, the other way round *)

Section IndexPositionBack.

Lemma positionToIndex_loop_app A B nl :
  positionToIndex_loop (A ++ B) 0 nl
  = positionToIndex_loop A 0 nl + positionToIndex_loop B 0 nl.
Proof.
  induction A as [|a A IH]; simpl; [lia|].
  rewrite positionToIndex_loop_acc, (positionToIndex_loop_acc A), IH. lia.
Qed.

Lemma lineAt_cons x X k :
  0 < k -> ApplyDelta.lineAt (x :: X) k = ApplyDelta.lineAt X (k - 1).
Proof.
  intros Hk. unfold ApplyDelta.lineAt, JS.index.
  destruct (Z.ltb_spec k 0); [lia|]. destruct (Z.ltb_spec (k - 1) 0); [lia|].
  replace (Z.to_nat k) with (S (Z.to_nat (k - 1))) by lia. reflexivity.
Qed.

Lemma lineAt_head x X : ApplyDelta.lineAt (x :: X) 0 = x.
Proof. unfold ApplyDelta.lineAt. simpl. apply orElse_line. Qed.

(** What the loop of [indexToPosition] ends with: a row reached with the
    index that is left as its column, or the index less all the rows. *)
Lemma indexToPosition_loop_inv rest : forall i index nl,
  match indexToPosition_loop rest i index nl with
  | inl p =>
      i <= row p < i + Z.of_nat (length rest) /\
      index = positionToIndex_loop (take (Z.to_nat (row p - i)) rest) 0 nl
              + column p /\
      (0 <= index -> 0 <= column p) /\
      column p < JS.strlen (ApplyDelta.lineAt rest (row p - i)) + nl
  | inr over =>
      over = index - positionToIndex_loop rest 0 nl /\
      (rest <> [] \/ 0 <= index -> 0 <= over)
  end.
Proof.
  induction rest as [|line rest IH]; intros i index nl.
  - simpl. split; [lia|]. intros [H|H]; [done|lia].
  - cbn [indexToPosition_loop].
    destruct (Z.ltb_spec (index - (JS.strlen line + nl)) 0) as [Hlt|Hge].
    + cbn [row column length]. replace (i - i) with 0 by lia.
      rewrite lineAt_head. simpl. lia.
    + specialize (IH (i + 1) (index - (JS.strlen line + nl)) nl).
      destruct (indexToPosition_loop rest (i + 1) _ nl) as [p|over].
      * destruct IH as (Hr & Hi & Hc & Hl). cbn [length].
        replace (Z.to_nat (row p - i)) with (S (Z.to_nat (row p - (i + 1)))) by lia.
        rewrite lineAt_cons by lia.
        replace (row p - i - 1) with (row p - (i + 1)) by lia.
        cbn [take positionToIndex_loop].
        rewrite positionToIndex_loop_acc. repeat split; try lia.
      * destruct IH as (Hl & Hpos). cbn [positionToIndex_loop].
        rewrite positionToIndex_loop_acc. split; [lia|]. intros _.
        destruct rest; [simpl in Hl; lia|]. apply Hpos. by left.
Qed.

End IndexPositionBack.

(** ** The index of a position is the length of the text before it *)

Section TextBefore.

Lemma join_snoc sep L x y :
  JS.join sep ((x :: L) ++ [y]) = x +:+ sep +:+ JS.join sep (L ++ [y]).
Proof. destruct L; reflexivity. Qed.

Lemma strlen_join_snoc sep L x :
  JS.strlen (JS.join sep (L ++ [x]))
  = positionToIndex_loop L 0 (JS.strlen sep) + JS.strlen x.
Proof.
  induction L as [|y L IH]; [simpl; lia|].
  rewrite join_snoc, !strlen_app, IH. cbn [positionToIndex_loop].
  rewrite (positionToIndex_loop_acc L (0 + _)). lia.
Qed.

Lemma indexToPosition_loop_negative x X i index nl :
  0 <= nl -> index < 0 ->
  indexToPosition_loop (x :: X) i index nl = inl (mkPoint i index).
Proof.
  intros Hnl Hneg. cbn [indexToPosition_loop]. pose proof (strlen_nonneg x).
  destruct (Z.ltb_spec (index - (JS.strlen x + nl)) 0); [|lia].
  do 2 f_equal. lia.
Qed.

Lemma positionToIndex_loop_take_le X nl k m :
  0 <= nl -> (k <= m)%nat ->
  positionToIndex_loop (take k X) 0 nl <= positionToIndex_loop (take m X) 0 nl.
Proof.
  intros Hnl Hkm.
  assert (take m X = take k X ++ take (m - k) (drop k X)) as ->
    by (rewrite take_take_drop; f_equal; lia).
  rewrite positionToIndex_loop_app.
  pose proof (positionToIndex_loop_nonneg (take (m - k) (drop k X)) nl Hnl). lia.
Qed.

Lemma strlen_getValue D lastLine :
  _lines D !! (length (_lines D) - 1)%nat = Some lastLine ->
  JS.strlen (getValue D)
  = positionToIndex_loop (take (length (_lines D) - 1) (_lines D)) 0
                         (JS.strlen (getNewLineCharacter D))
    + JS.strlen lastLine.
Proof.
  intros Hlast. unfold getValue. rewrite getAllLines_all.
  rewrite <- (take_drop_middle _ _ _ Hlast) at 1.
  rewrite drop_ge by (apply lookup_lt_Some in Hlast; lia).
  apply strlen_join_snoc.
Qed.

End TextBefore.

Section SafeIntegers.

(** The lengths of all the lines, each with its newline character, are
    those of [getValue()] and one newline character more. *)
Lemma positionToIndex_loop_all D :
  1 <= getLength D ->
  positionToIndex_loop (_lines D) 0 (JS.strlen (getNewLineCharacter D))
  = JS.strlen (getValue D) + JS.strlen (getNewLineCharacter D).
Proof.
  intros Hlen. unfold getLength in Hlen.
  destruct (lookup_lt_is_Some_2 (_lines D) (length (_lines D) - 1)) as [x Hx];
    [lia|].
  rewrite (strlen_getValue D x Hx).
  rewrite <- (take_drop_middle _ _ _ Hx) at 1.
  rewrite positionToIndex_loop_app, drop_ge by lia. simpl. lia.
Qed.

(** Part of the rows, part of the lengths. *)
Lemma positionToIndex_loop_part X nl s k :
  0 <= nl ->
  0 <= positionToIndex_loop (take k (drop s X)) 0 nl
    <= positionToIndex_loop X 0 nl.
Proof.
  intros Hnl.
  assert (positionToIndex_loop X 0 nl
          = positionToIndex_loop (take s X) 0 nl
            + (positionToIndex_loop (take k (drop s X)) 0 nl
               + positionToIndex_loop (drop k (drop s X)) 0 nl)) as ->.
  { rewrite <- !positionToIndex_loop_app. by rewrite !take_drop. }
  pose proof (positionToIndex_loop_nonneg (take s X) nl Hnl).
  pose proof (positionToIndex_loop_nonneg (take k (drop s X)) nl Hnl).
  pose proof (positionToIndex_loop_nonneg (drop k (drop s X)) nl Hnl).
  lia.
Qed.

End SafeIntegers.

(** X1. On a document with a line at least, and as long as the index and
    the lengths taken from it are numbers that the code computes exactly
    (the magnitude of the index, the length of the text and the length of a
    newline character together within [Number.MAX_SAFE_INTEGER]),
    [indexToPosition] returns for the index, also a negative one and one
    past the end of the text, a position on a row of the document from
    [startRow] on, whose column is within that bound again, and
    [positionToIndex] with the same [startRow] converts that position back
    to the index. *)
Theorem positionToIndex_indexToPosition (D : Document) (index : Z)
    (startRow : option Z) :
  0 <= default 0 startRow < getLength D ->
  Z.abs index + JS.strlen (getValue D) + JS.strlen (getNewLineCharacter D)
    <= JS.MAX_SAFE_INTEGER ->
  exists p, indexToPosition D index startRow = Some p /\
            default 0 startRow <= row p < getLength D /\
            Z.abs (column p) <= JS.MAX_SAFE_INTEGER /\
            positionToIndex D p startRow = Some index.
Proof.
  intros Hs Hsafe.
  pose proof (positionToIndex_loop_all D ltac:(lia)) as Hall.
  pose proof (newline_length_pos D) as Hnl.
  unfold getLength in Hs. set (s := default 0 startRow) in *.
  set (X := _lines D) in *. set (nl := JS.strlen (getNewLineCharacter D)) in *.
  unfold indexToPosition, positionToIndex, getLength. fold X nl s.
  cbv zeta. destruct (Z.ltb_spec s 0) as [|_]; [lia|].
  pose proof (indexToPosition_loop_inv (drop (Z.to_nat s) X) s index nl) as Hinv.
  assert (Hlen : Z.of_nat (length (drop (Z.to_nat s) X)) = Z.of_nat (length X) - s)
    by (rewrite length_drop; lia).
  destruct (indexToPosition_loop (drop (Z.to_nat s) X) s index nl) as [p|over].
  - destruct Hinv as (Hr & Hi & _ & _). exists p. split; [done|].
    split; [lia|]. split.
    { pose proof (positionToIndex_loop_part X nl (Z.to_nat s)
                    (Z.to_nat (row p - s)) ltac:(lia)). lia. }
    rewrite andb_false_l.
    replace (Z.min (row p) (Z.of_nat (length X))) with (row p) by lia.
    f_equal. lia.
  - destruct Hinv as (Hl & _).
    destruct (index_in_range X (Z.of_nat (length X) - 1) ltac:(lia)) as [lastLine Hlast].
    rewrite Hlast. eexists. split; [reflexivity|]. cbn [row column].
    split; [lia|].
    apply index_Some in Hlast as [_ Hlast].
    assert (Hsplit : drop (Z.to_nat s) X
                     = take (Z.to_nat (Z.of_nat (length X) - 1 - s)) (drop (Z.to_nat s) X)
                       ++ [lastLine]).
    { rewrite <- (take_drop (Z.to_nat (Z.of_nat (length X) - 1 - s))
                            (drop (Z.to_nat s) X)) at 1.
      f_equal. rewrite drop_drop.
      replace (Z.to_nat s + Z.to_nat (Z.of_nat (length X) - 1 - s))%nat
        with (Z.to_nat (Z.of_nat (length X) - 1)) by lia.
      rewrite (drop_S _ _ _ Hlast), drop_ge by lia. reflexivity. }
    rewrite Hsplit, positionToIndex_loop_app in Hl. simpl in Hl.
    split.
    { pose proof (positionToIndex_loop_part X nl (Z.to_nat s)
                    (Z.to_nat (Z.of_nat (length X) - 1 - s)) ltac:(lia)). lia. }
    rewrite andb_false_l.
    replace (Z.min (Z.of_nat (length X) - 1) (Z.of_nat (length X)))
      with (Z.of_nat (length X) - 1) by lia.
    f_equal. lia.
Qed.

(** The second row of a three-line document is where index 3 is. *)
Lemma positionToIndex_indexToPosition_witness :
  let D := mkDocument ["a"; "bb"; "ccc"] EmptyString auto in
  exists p, indexToPosition D 3 None = Some p /\
            0 <= row p < 3 /\
            Z.abs (column p) <= JS.MAX_SAFE_INTEGER /\
            positionToIndex D p None = Some 3.
Proof.
  intros D.
  apply (positionToIndex_indexToPosition D 3 None); vm_compute;
    intuition congruence.
Defined.

(** X2. For a position of the document, [positionToIndex] is the length of
    the text that [getTextRange] returns for the range from the start of the
    document to the position, newline characters included. *)
Theorem positionToIndex_text_before (D : Document) (p : Point) :
  0 <= row p < getLength D ->
  0 <= column p <= JS.strlen (getLine D (row p)) ->
  positionToIndex D p None
  = Some (JS.strlen (getTextRange D (mkRange (mkPoint 0 0) p))).
Proof.
  intros Hr Hc. unfold getLength in Hr.
  destruct (index_in_range (_lines D) (row p) Hr) as [line Hline].
  unfold getLine in Hc. rewrite Hline, orElse_line in Hc.
  apply index_Some in Hline as [_ Hline].
  unfold positionToIndex. cbn [default]. rewrite andb_false_l, drop_0, Z.sub_0_r.
  replace (Z.min (row p) (Z.of_nat (length (_lines D)))) with (row p) by lia.
  f_equal. unfold getTextRange. destruct p as [r c]. cbn [row column] in *.
  destruct (Z.eq_dec r 0) as [->|Hr0].
  - assert (HX : _lines D = [] ++ line :: drop 1 (_lines D)).
    { change (Z.to_nat 0) with 0%nat in Hline.
      by rewrite <- (take_drop_middle _ _ _ Hline) at 1. }
    pose proof (getLinesForRange_row D [] line _ 0 c HX) as Hrow.
    change (Z.of_nat (@length string [])) with 0 in Hrow. rewrite Hrow.
    cbn [JS.join]. change (Z.to_nat 0) with 0%nat. rewrite take_0.
    rewrite strlen_substring by lia. simpl. lia.
  - destruct (two_rows (_lines D) 0 r ltac:(lia) ltac:(lia))
      as (A & ls & Mid & le & B & HX & HA & Hre).
    destruct A; [|simpl in HA; lia].
    rewrite app_nil_l in HX.
    pose proof (getLinesForRange_middle D [] ls Mid le B 0 c HX) as Hmid.
    change (Z.of_nat (@length string [])) with 0 in Hmid, Hre.
    rewrite <- Hre in Hmid. rewrite Hmid.
    rewrite substringFrom_0.
    assert (Hle : le = line).
    { rewrite HX in Hline. replace (Z.to_nat r) with (length (ls :: Mid)) in Hline
        by (simpl; lia).
      rewrite (app_comm_cons Mid (le :: B) ls) in Hline.
      rewrite list_lookup_middle in Hline by done. congruence. }
    subst le. rewrite (app_comm_cons Mid _ ls), strlen_join_snoc.
    rewrite strlen_substring, Z.sub_0_r by lia. f_equal.
    rewrite HX, (app_comm_cons Mid (line :: B) ls).
    replace (Z.to_nat r) with (length (ls :: Mid)) by (simpl; lia).
    by rewrite take_app_length.
Qed.

(** The text before column 2 of the second row of a three-line document. *)
Lemma positionToIndex_text_before_witness :
  let D := mkDocument ["a"; "bb"; "ccc"] EmptyString auto in
  positionToIndex D (mkPoint 1 2) None
  = Some (JS.strlen (getTextRange D (mkRange (mkPoint 0 0) (mkPoint 1 2)))).
Proof.
  intros D.
  apply (positionToIndex_text_before D (mkPoint 1 2));
    vm_compute; intuition congruence.
Defined.

(** X3. [indexToPosition] does not clip.  On a document with a line at
    least, and as long as the index and the lengths taken from it are
    numbers that the code computes exactly (the magnitude of the index, the
    length of the text and the length of a newline character together
    within [Number.MAX_SAFE_INTEGER]): a negative index gives the first row
    with the index as a negative column; an index that is not negative
    gives a column that is not negative, and on every row but the last a
    column before the end of the row's newline character; from the start of
    the last row on, also past the end of the text, the column is the index
    less the index of that start. *)
Theorem indexToPosition_not_clipped (D : Document) (index : Z) :
  1 <= getLength D ->
  Z.abs index + JS.strlen (getValue D) + JS.strlen (getNewLineCharacter D)
    <= JS.MAX_SAFE_INTEGER ->
  let len := getLength D in
  let nl := JS.strlen (getNewLineCharacter D) in
  let lastStart := JS.strlen (getValue D) - JS.strlen (getLine D (len - 1)) in
  exists p,
    indexToPosition D index None = Some p /\
    (index < 0 -> p = mkPoint 0 index) /\
    (0 <= index -> 0 <= column p) /\
    (0 <= index -> row p < len - 1 ->
     column p < JS.strlen (getLine D (row p)) + nl) /\
    (lastStart <= index -> p = mkPoint (len - 1) (index - lastStart)).
Proof.
  intros Hlen _ len nl lastStart. subst len. unfold getLength in *.
  set (X := _lines D) in *.
  assert (Hn : Z.to_nat (Z.of_nat (length X) - 1) = (length X - 1)%nat) by lia.
  destruct (index_in_range X (Z.of_nat (length X) - 1) ltac:(lia))
    as [lastLine Hlast].
  pose proof Hlast as Hlast'. apply index_Some in Hlast' as [_ Hlast'].
  rewrite Hn in Hlast'.
  assert (HlastStart : lastStart
                       = positionToIndex_loop (take (length X - 1) X) 0 nl).
  { unfold lastStart, getLine. fold X. rewrite Hlast, orElse_line.
    rewrite (strlen_getValue D lastLine); fold X nl; [lia|done]. }
  pose proof (newline_length_pos D) as Hnl. fold nl in Hnl.
  unfold indexToPosition. fold X nl. cbn [default].
  change (0 <? 0) with false. cbv iota. rewrite drop_0.
  pose proof (indexToPosition_loop_inv X 0 index nl) as Hinv.
  assert (Hneg : index < 0 -> indexToPosition_loop X 0 index nl = inl (mkPoint 0 index)).
  { intros Hneg. destruct X as [|x X']; [simpl in Hlen; lia|].
    apply indexToPosition_loop_negative; lia. }
  destruct (indexToPosition_loop X 0 index nl) as [p|over].
  - destruct Hinv as (Hr & Hi & Hc & Hl). rewrite Z.sub_0_r in *.
    exists p. split; [done|]. repeat split.
    + intros H. specialize (Hneg H). congruence.
    + done.
    + intros _ _. unfold getLine. fold X. exact Hl.
    + intros Hge. destruct (Z.eq_dec (row p) (Z.of_nat (length X) - 1)) as [E|E].
      * destruct p as [r c]. cbn [row column] in *. f_equal; [done|].
        rewrite HlastStart. subst r. rewrite Hn in Hi. lia.
      * exfalso.
        pose proof (positionToIndex_loop_take_le X nl (S (Z.to_nat (row p)))
                      (length X - 1) ltac:(lia) ltac:(lia)) as Hmono.
        destruct (lookup_lt_is_Some_2 X (Z.to_nat (row p)) ltac:(lia)) as [line Hline].
        rewrite (take_S_r _ _ _ Hline), positionToIndex_loop_app in Hmono.
        rewrite (lineAt_lookup X (row p) line) in Hl by (done || lia).
        simpl in Hmono. lia.
  - destruct Hinv as (Hover & Hpos). rewrite Hlast. eexists. split; [reflexivity|].
    assert (Htotal : positionToIndex_loop X 0 nl
                     = lastStart + (JS.strlen lastLine + nl)).
    { rewrite HlastStart. rewrite <- (take_drop_middle _ _ _ Hlast') at 1.
      rewrite positionToIndex_loop_app.
      rewrite drop_ge by lia. simpl. lia. }
    pose proof (strlen_nonneg lastLine).
    assert (0 <= over) by (apply Hpos; left; intros E; rewrite E in Hlen; simpl in Hlen; lia).
    repeat split.
    + intros Hn'. specialize (Hneg Hn'). discriminate.
    + cbn [column]. lia.
    + cbn [row]. lia.
    + intros _. f_equal. lia.
Qed.

(** Index 100 on a three-line document of six characters and two newlines:
    the last row starts at index 5. *)
Lemma indexToPosition_not_clipped_witness :
  indexToPosition (mkDocument ["a"; "bb"; "ccc"] EmptyString auto) 100 None
  = Some (mkPoint 2 95).
Proof.
  destruct (indexToPosition_not_clipped
              (mkDocument ["a"; "bb"; "ccc"] EmptyString auto) 100)
    as (p & Hp & _ & _ & _ & Hlast); [vm_compute; congruence ..|].
  rewrite Hp, Hlast; [reflexivity | vm_compute; congruence].
Defined.

(** ** Reading ranges and clipping positions *)

Section ReadingRanges.

Lemma slice_to_end {A} (l : list A) a b :
  0 <= a <= Z.of_nat (length l) -> Z.of_nat (length l) <= b ->
  JS.slice l a b = drop (Z.to_nat a) l.
Proof.
  intros Ha Hb. unfold JS.slice, JS.relIndex.
  destruct (Z.ltb_spec a 0); [lia|]. destruct (Z.ltb_spec b 0); [lia|].
  replace (Z.min a (Z.of_nat (length l))) with a by lia.
  replace (Z.min b (Z.of_nat (length l))) with (Z.of_nat (length l)) by lia.
  apply take_ge. rewrite length_drop. lia.
Qed.

Lemma getLine_none D r : getLength D <= r -> getLine D r = EmptyString.
Proof.
  intros Hr. unfold getLine, JS.index, getLength in *.
  destruct (Z.ltb_spec r 0); [done|].
  by rewrite lookup_ge_None_2 by lia.
Qed.

Lemma getLine_middle D A line B :
  _lines D = A ++ line :: B -> getLine D (Z.of_nat (length A)) = line.
Proof. intros HX. by rewrite getLine_lineAt, HX, lineAt_middle. Qed.

(** A row of the document cuts the line store in three. *)
Lemma one_row (X : list string) r :
  0 <= r < Z.of_nat (length X) ->
  exists A line B, X = A ++ line :: B /\ r = Z.of_nat (length A).
Proof.
  intros Hr.
  destruct (lookup_lt_is_Some_2 X (Z.to_nat r) ltac:(lia)) as [line Hline].
  exists (take (Z.to_nat r) X), line, (drop (S (Z.to_nat r)) X).
  split; [by rewrite take_drop_middle|]. rewrite length_take. lia.
Qed.

(** The last row cuts it in two. *)
Lemma last_row (X : list string) :
  X <> [] -> exists A line, X = A ++ [line].
Proof.
  intros HX. exists (removelast X), (List.last X EmptyString).
  by apply app_removelast_last.
Qed.

Lemma getLinesForRange_to_end D A ls Rest cs e :
  _lines D = A ++ ls :: Rest ->
  getLength D <= row e ->
  getLinesForRange D (mkRange (mkPoint (Z.of_nat (length A)) cs) e)
  = JS.substringFrom ls cs :: Rest.
Proof.
  intros HX He. unfold getLinesForRange, getLength in *. cbn [rstart rend row column].
  rewrite HX in He. rewrite length_app in He. cbn [length] in He.
  destruct (Z.eqb_spec (Z.of_nat (length A)) (row e)); [lia|].
  unfold getLines. rewrite HX, slice_to_end;
    [|rewrite length_app; simpl; lia|rewrite length_app; simpl; lia].
  rewrite Nat2Z.id, drop_app_length, orElse_line.
  destruct (Z.eqb_spec (row e - Z.of_nat (length A))
              (Z.of_nat (length (JS.substringFrom ls cs :: Rest)) - 1));
    [simpl in *; lia|done].
Qed.

End ReadingRanges.

(** X4. On a document with a line at least, the text of the range from the
    start of the first row to the end of the last row, the range that
    [setValue] removes, is [getValue()]. *)
Theorem getTextRange_whole (D : Document) :
  1 <= getLength D ->
  let len := getLength D in
  getTextRange D (Range.new 0 0 (len - 1) (JS.strlen (getLine D (len - 1))))
  = getValue D.
Proof.
  intros Hlen len. subst len. unfold getTextRange, getValue, Range.new.
  rewrite getAllLines_all. f_equal. unfold getLength in *.
  destruct (last_row (_lines D)) as (A & lastLine & HX);
    [intros E; rewrite E in Hlen; simpl in Hlen; lia|].
  assert (HlenA : Z.of_nat (length (_lines D)) - 1 = Z.of_nat (length A))
    by (rewrite HX, length_app; simpl; lia).
  rewrite HlenA, (getLine_middle D A lastLine []) by done.
  destruct A as [|first Mid].
  - rewrite (getLinesForRange_row D [] lastLine []) by done.
    by rewrite substring_whole, HX.
  - change (first :: Mid) with ([] ++ first :: Mid) in HX.
    rewrite <- app_assoc in HX. cbn [app] in HX.
    pose proof (getLinesForRange_middle D [] first Mid lastLine [] 0
                  (JS.strlen lastLine) HX) as Hmid.
    change (Z.of_nat (@length string [])) with 0 in Hmid.
    replace (Z.of_nat (length (first :: Mid))) with (0 + 1 + Z.of_nat (length Mid))
      by (simpl; lia).
    rewrite Hmid, substringFrom_0, substring_whole. by rewrite HX.
Qed.

(** A document of two rows. *)
Lemma getTextRange_whole_witness :
  let D := mkDocument ["ab"; "cd"] EmptyString auto in
  getTextRange D (Range.new 0 0 1 2) = getValue D.
Proof.
  intros D. apply (getTextRange_whole D). vm_compute. congruence.
Defined.

(** X5. A range that starts on a row of the document and ends on a row past
    the document gives the lines from its start to the end of the document,
    the last line in full: the column of its end is not looked at. *)
Theorem getLinesForRange_past_end (D : Document) (s e : Point) :
  0 <= row s < getLength D ->
  getLength D <= row e ->
  let len := getLength D in
  getLinesForRange D (mkRange s e)
  = getLinesForRange D
      (mkRange s (mkPoint (len - 1) (JS.strlen (getLine D (len - 1))))).
Proof.
  intros Hs He len. subst len.
  destruct (one_row (_lines D) (row s) Hs) as (A & ls & Rest & HX & Hrs).
  destruct s as [rs cs]. cbn [row] in *. subst rs.
  rewrite (getLinesForRange_to_end D A ls Rest cs e HX He).
  assert (Hlen : getLength D = Z.of_nat (length A) + 1 + Z.of_nat (length Rest))
    by (unfold getLength; rewrite HX, length_app; simpl; lia).
  destruct Rest as [|r0 Rest'] using rev_ind.
  - replace (getLength D - 1) with (Z.of_nat (length A)) by (simpl in Hlen; lia).
    rewrite (getLine_middle D A ls []) by done.
    by rewrite (getLinesForRange_row D A ls []).
  - clear IHRest'. rewrite length_app in Hlen. cbn [length] in Hlen.
    assert (HX' : _lines D = A ++ ls :: Rest' ++ r0 :: []) by done.
    assert (Hlast : getLine D (getLength D - 1) = r0).
    { replace (getLength D - 1) with (Z.of_nat (length (A ++ ls :: Rest'))).
      - apply (getLine_middle D (A ++ ls :: Rest') r0 []).
        rewrite HX. by rewrite <- app_assoc.
      - rewrite length_app. simpl. lia. }
    rewrite Hlast.
    replace (getLength D - 1) with (Z.of_nat (length A) + 1 + Z.of_nat (length Rest'))
      by lia.
    rewrite (getLinesForRange_middle D A ls Rest' r0 [] cs (JS.strlen r0) HX').
    by rewrite substring_whole.
Qed.

(** From column 1 of the first row of two to row 5. *)
Lemma getLinesForRange_past_end_witness :
  let D := mkDocument ["ab"; "cd"] EmptyString auto in
  getLinesForRange D (mkRange (mkPoint 0 1) (mkPoint 5 0))
  = getLinesForRange D (mkRange (mkPoint 0 1) (mkPoint 1 2)).
Proof.
  intros D. apply (getLinesForRange_past_end D (mkPoint 0 1) (mkPoint 5 0));
    vm_compute; intuition congruence.
Defined.

(** X6. On a document with a line at least, [clippedPos] with a row that is
    given returns a position of the document: a position of the document is
    returned as it is, a row past the end gives the end of the last line
    whatever the column, a negative row gives the first row. *)
Theorem clippedPos_clips (D : Document) (r : Z) (c : option Z) :
  1 <= getLength D ->
  let p := clippedPos D (Some r) c in
  let len := getLength D in
  (0 <= row p < len /\ 0 <= column p <= JS.strlen (getLine D (row p))) /\
  (forall c0, c = Some c0 -> 0 <= r < len ->
              0 <= c0 <= JS.strlen (getLine D r) -> p = mkPoint r c0) /\
  (len <= r -> p = mkPoint (len - 1) (JS.strlen (getLine D (len - 1)))) /\
  (r < 0 -> row p = 0).
Proof.
  intros Hlen p len. subst p len.
  assert (Hc : forall line c0,
             0 <= Z.min (Z.max c0 0) (JS.strlen line) <= JS.strlen line).
  { intros line c0. pose proof (strlen_nonneg line). lia. }
  unfold clippedPos.
  destruct (Z.ltb_spec r 0) as [Hneg|Hnn];
    [|destruct (Z.geb_spec r (getLength D)) as [Hge|Hlt]]; cbn [row column].
  - split; [split; [lia|apply Hc]|]. split; [intros; lia|]. split; [intros; lia|done].
  - split; [split; [lia|apply Hc]|]. split; [intros; lia|].
    split; [|intros; lia]. intros _. f_equal.
    pose proof (strlen_nonneg (getLine D (getLength D - 1))). lia.
  - split; [split; [lia|destruct c; apply Hc]|].
    split; [|split; intros; lia].
    intros c0 -> _ Hc0. f_equal. lia.
Qed.

(** Row 7 of a document of two rows. *)
Lemma clippedPos_clips_witness :
  clippedPos (mkDocument ["ab"; "cde"] EmptyString auto) (Some 7) (Some 1)
  = mkPoint 1 3.
Proof.
  destruct (clippedPos_clips (mkDocument ["ab"; "cde"] EmptyString auto) 7 (Some 1))
    as (_ & _ & Hpast & _); [vm_compute; congruence|].
  apply Hpast. vm_compute. congruence.
Defined.

(** X7. With no row given, [clippedPos] returns column 0 of the row after
    the last one, whatever the column: the one case in which its result is
    no position of the document. *)
Theorem clippedPos_no_row (D : Document) (c : option Z) :
  clippedPos D None c = mkPoint (getLength D) 0.
Proof.
  unfold clippedPos. rewrite getLine_none by lia.
  f_equal. change (JS.strlen EmptyString) with 0. destruct c; lia.
Qed.

(** X8. On a document with a line at least, [$clipPosition] overwrites the
    point object it is given with the position that [clippedPos] returns for
    the object's row and column, and returns the object; nothing else
    changes. *)
Theorem clipPosition_clippedPos (w : World) (position : ref) (p : Point) :
  hasLine w ->
  points w !! position = Some p ->
  _clipPosition position w
  = Ok position
       (setPoints (<[position := clippedPos (doc w) (Some (row p)) (Some (column p))]>
                    (points w)) w).
Proof.
  intros Hlen Hp. unfold hasLine in Hlen. unfold _clipPosition.
  unfold bind at 1, gets. cbv beta iota.
  rewrite (bind_ok _ _ _ _ _ (readPoint_ok _ _ _ Hp)).
  assert (Hlt : (position < length (points w))%nat) by by eapply lookup_lt_Some.
  assert (Hread : forall q w0, points w0 = <[position := q]> (points w) ->
                               readPoint position w0 = Ok q w0).
  { intros q w0 E. apply readPoint_ok. rewrite E. by apply list_lookup_insert_eq. }
  unfold clippedPos.
  pose proof (strlen_nonneg (getLine (doc w) (getLength (doc w) - 1))) as Hlast.
  destruct (Z.geb_spec (row p) (getLength (doc w))) as [Hge|Hlt'].
  - destruct (Z.ltb_spec (row p) 0); [lia|].
    unfold bind, writePoint, modify, ret. cbn [points setPoints].
    erewrite Hread by reflexivity.
    unfold setPoints. cbn [row column points doc arrays deltas signals].
    rewrite list_insert_insert_eq.
    replace (Z.max 0 (getLength (doc w) - 1)) with (getLength (doc w) - 1) by lia.
    rewrite Z.max_l, Z.min_l by lia. reflexivity.
  - unfold bind, writePoint, modify, ret. cbn [points setPoints].
    erewrite Hread by reflexivity.
    unfold setPoints. cbn [row column points doc arrays deltas signals].
    rewrite list_insert_insert_eq.
    destruct (Z.ltb_spec (row p) 0).
    + rewrite (Z.max_l 0 (row p)) by lia. reflexivity.
    + rewrite (Z.max_r 0 (row p)) by lia. reflexivity.
Qed.

(** A point object at row 7 is clipped to the end of a document of two
    rows. *)
Lemma clipPosition_clippedPos_witness :
  let w := mkWorld (mkDocument ["ab"; "cde"] EmptyString auto)
                   [mkPoint 7 1] [] [] [] in
  _clipPosition 0%nat w = Ok 0%nat (setPoints [mkPoint 1 3] w).
Proof.
  intros w. apply (clipPosition_clippedPos w 0%nat (mkPoint 7 1));
    [vm_compute; congruence | reflexivity].
Defined.

(** ** Splitting a text into lines *)

Section Splitting.

Lemma join_head_cons sep c x L :
  JS.join sep (String c x :: L) = String c (JS.join sep (x :: L)).
Proof. destruct L; [done|]. cbn [JS.join]. by rewrite sapp_cons. Qed.

Lemma join_empty_head sep L :
  L <> [] -> JS.join sep (EmptyString :: L) = sep +:+ JS.join sep L.
Proof. destruct L; [done|]. intros _. cbn [JS.join]. by rewrite sapp_nil. Qed.

Lemma splitEOL_pieces text : Forall (fun x => noEOL x = true) (JS.splitEOL text).
Proof.
  induction text as [|c rest IH]; [by repeat constructor|].
  cbn [JS.splitEOL].
  destruct (decide (c = JS.CR)) as [->|Hcr].
  - destruct rest as [|c' rest'].
    + by repeat constructor.
    + destruct (decide (c' = JS.LF)) as [->|Hlf].
      * constructor; [done|]. cbn [JS.splitEOL] in IH.
        destruct (decide (JS.LF = JS.CR)) as [E|_]; [discriminate E|].
        destruct (decide (JS.LF = JS.LF)) as [_|E]; [|done].
        by inversion IH.
      * by constructor.
  - destruct (decide (c = JS.LF)) as [->|Hlf]; [by constructor|].
    pose proof (splitEOL_nonempty rest) as Hne.
    destruct (JS.splitEOL rest) as [|piece pieces]; [done|].
    inversion IH as [|? ? Hp Hps]; subst. constructor; [|done].
    cbn [noEOL]. rewrite Hp. unfold JS.isEOL.
    destruct (decide (c = JS.CR)); [done|]. by destruct (decide (c = JS.LF)).
Qed.

End Splitting.

(** X9. [$split] never returns an empty array, and none of its pieces holds
    a carriage return or a line feed; so splitting a text, joining the
    pieces with any of the three line separators and splitting again gives
    the same pieces. *)
Theorem split_pieces (text : string) :
  _split text <> [] /\
  Forall (fun x => noEOL x = true) (_split text) /\
  forall sep, isSeparator sep -> _split (JS.join sep (_split text)) = _split text.
Proof.
  unfold _split. split; [apply splitEOL_nonempty|].
  split; [apply splitEOL_pieces|].
  intros sep Hsep. apply splitEOL_join; [done|apply splitEOL_nonempty|apply splitEOL_pieces].
Qed.

(** X10. For a text without carriage returns, joining the pieces of [$split]
    with a line feed gives the text back: the split drops nothing but the
    separators. *)
Theorem split_join_LF (text : string) :
  noCR text = true ->
  JS.join (String JS.LF EmptyString) (_split text) = text.
Proof.
  unfold _split. induction text as [|c rest IH]; [done|]. cbn [noCR JS.splitEOL].
  destruct (decide (c = JS.CR)) as [->|Hcr]; [done|]. rewrite andb_true_l.
  intros Hrest. specialize (IH Hrest).
  destruct (decide (c = JS.LF)) as [->|Hlf].
  - rewrite join_empty_head by apply splitEOL_nonempty.
    by rewrite IH, sapp_cons, sapp_nil.
  - pose proof (splitEOL_nonempty rest) as Hne.
    destruct (JS.splitEOL rest) as [|piece pieces]; [done|].
    by rewrite join_head_cons, IH.
Qed.

(** Two line feeds in a row and one at the end. *)
Lemma split_join_LF_witness :
  let text := "ab" +:+ String JS.LF (String JS.LF ("cd" +:+ String JS.LF EmptyString)) in
  JS.join (String JS.LF EmptyString) (_split text) = text.
Proof.
  intros text. apply (split_join_LF text). reflexivity.
Defined.

(** ** The newline settings *)

Section NewLineSettings.

Lemma sameNewLine_refl w : sameNewLine w w.
Proof. by repeat split. Qed.

Lemma sameNewLine_trans w1 w2 w3 :
  sameNewLine w1 w2 -> sameNewLine w2 w3 -> sameNewLine w1 w3.
Proof. intros (?&?&?) (?&?&?). repeat split; congruence. Qed.

Lemma keepsNewLine_ret {A} (a : A) : keepsNewLine (ret a).
Proof. intros w. apply sameNewLine_refl. Qed.

Lemma keepsNewLine_throw {A} e : keepsNewLine (@throw A e).
Proof. intros w. apply sameNewLine_refl. Qed.

Lemma keepsNewLine_bind {A B} (m : M A) (f : A -> M B) :
  keepsNewLine m -> (forall a, keepsNewLine (f a)) -> keepsNewLine (bind m f).
Proof.
  intros Hm Hf w. unfold bind. specialize (Hm w).
  destruct (m w) as [a w1|e w1]; simpl in *; [|done].
  eapply sameNewLine_trans; [exact Hm|apply Hf].
Qed.

Lemma keepsNewLine_gets {A} (f : World -> A) : keepsNewLine (gets f).
Proof. intros w. apply sameNewLine_refl. Qed.

Lemma keepsNewLine_orThrow {A} (o : option A) e : keepsNewLine (orThrow o e).
Proof. intros w. destruct o; apply sameNewLine_refl. Qed.

(** A step that leaves the document and the signals alone. *)
Lemma keepsNewLine_heap {A} (m : M A) :
  (forall w, doc (worldOf (m w)) = doc w /\ signals (worldOf (m w)) = signals w) ->
  keepsNewLine m.
Proof. intros H w. destruct (H w) as [Hd Hs]. unfold sameNewLine. by rewrite Hd, Hs. Qed.

Lemma keepsNewLine_newPoint p : keepsNewLine (newPoint p).
Proof. by apply keepsNewLine_heap. Qed.

Lemma keepsNewLine_newArray l : keepsNewLine (newArray l).
Proof. by apply keepsNewLine_heap. Qed.

Lemma keepsNewLine_newDelta o : keepsNewLine (newDelta o).
Proof. by apply keepsNewLine_heap. Qed.

Lemma keepsNewLine_readPoint r : keepsNewLine (readPoint r).
Proof. apply keepsNewLine_heap. intros w. unfold readPoint. by destruct (_ !! _). Qed.

Lemma keepsNewLine_readArray r : keepsNewLine (readArray r).
Proof. apply keepsNewLine_heap. intros w. unfold readArray. by destruct (_ !! _). Qed.

Lemma keepsNewLine_readDelta r : keepsNewLine (readDelta r).
Proof. apply keepsNewLine_heap. intros w. unfold readDelta. by destruct (_ !! _). Qed.

Lemma keepsNewLine_writePoint r p : keepsNewLine (writePoint r p).
Proof. by apply keepsNewLine_heap. Qed.

Lemma keepsNewLine_writeDelta r o : keepsNewLine (writeDelta r o).
Proof. by apply keepsNewLine_heap. Qed.

Lemma keepsNewLine_pushArray r x : keepsNewLine (pushArray r x).
Proof.
  apply keepsNewLine_bind; [apply keepsNewLine_readArray|].
  intros l. by apply keepsNewLine_heap.
Qed.

Lemma modeSignals_app sg sg' :
  modeSignals (sg ++ sg') = (modeSignals sg + modeSignals sg')%nat.
Proof. induction sg as [|[d|] sg IH]; simpl; lia. Qed.

Lemma keepsNewLine_change d : keepsNewLine (EventEmitter._signal (change d)).
Proof.
  intros w. unfold sameNewLine. simpl. rewrite modeSignals_app. simpl.
  repeat split. lia.
Qed.

Lemma keepsNewLine_splice D doNotValidate :
  keepsNewLine (ApplyDelta.applyDelta D doNotValidate).
Proof.
  intros w. unfold ApplyDelta.applyDelta.
  destruct (negb doNotValidate && _); [apply sameNewLine_refl|].
  destruct (ApplyDelta.splice _ _) as [X'|]; [|apply sameNewLine_refl].
  by repeat split.
Qed.

End NewLineSettings.

Create HintDb newline.
#[export] Hint Resolve keepsNewLine_ret keepsNewLine_throw keepsNewLine_gets
  keepsNewLine_orThrow keepsNewLine_newPoint keepsNewLine_newArray
  keepsNewLine_newDelta keepsNewLine_readPoint keepsNewLine_readArray
  keepsNewLine_readDelta keepsNewLine_writePoint keepsNewLine_writeDelta
  keepsNewLine_pushArray keepsNewLine_change keepsNewLine_splice : newline.

(** Walks down a method: binds, branches and destructured results. *)
Ltac keeps_newline :=
  repeat first
    [ solve [auto with newline]
    | apply keepsNewLine_bind; [|intros ?]
    | match goal with
      | |- keepsNewLine (let '(_, _) := ?x in _) => destruct x
      | |- keepsNewLine (if ?b then _ else _) => destruct b
      | |- keepsNewLine (match ?x with _ => _ end) => destruct x
      end ].

Section NewLineMethods.

Lemma keepsNewLine_splitLoop self fuel delta L MAX l r :
  (forall d skip, keepsNewLine (self d skip)) ->
  forall from to c, keepsNewLine (splitLoop self fuel delta L MAX l r from to c).
Proof.
  intros Hself. induction fuel as [|fuel IH]; intros from to c; simpl;
    destruct (from <? l); try apply keepsNewLine_ret; try apply keepsNewLine_throw.
  keeps_newline.
Qed.

Lemma keepsNewLine_splitAndapplyLargeDelta self delta MAX :
  (forall d skip, keepsNewLine (self d skip)) ->
  keepsNewLine (_splitAndapplyLargeDelta self delta MAX).
Proof.
  intros Hself. unfold _splitAndapplyLargeDelta.
  pose proof (keepsNewLine_splitLoop self) as Hloop.
  keeps_newline.
Qed.

Lemma keepsNewLine_applyDelta_ depth :
  forall delta doNotValidate, keepsNewLine (applyDelta_ depth delta doNotValidate).
Proof.
  induction depth as [|depth IH]; intros delta doNotValidate; simpl.
  - keeps_newline.
  - pose proof (keepsNewLine_splitAndapplyLargeDelta (applyDelta_ depth)) as Hs.
    keeps_newline.
Qed.

Lemma keepsNewLine_applyDelta delta doNotValidate :
  keepsNewLine (applyDelta delta doNotValidate).
Proof. apply keepsNewLine_applyDelta_. Qed.
Hint Resolve keepsNewLine_applyDelta : newline.

Lemma keepsNewLine_newDeltaOf s e a ls : keepsNewLine (newDeltaOf s e a ls).
Proof. unfold newDeltaOf. keeps_newline. Qed.
Hint Resolve keepsNewLine_newDeltaOf : newline.

Lemma keepsNewLine_insertMergedLines p ls : keepsNewLine (insertMergedLines p ls).
Proof. unfold insertMergedLines. keeps_newline. Qed.
Hint Resolve keepsNewLine_insertMergedLines : newline.

Lemma keepsNewLine_remove range : keepsNewLine (remove range).
Proof. unfold remove. keeps_newline. Qed.
Hint Resolve keepsNewLine_remove : newline.

Lemma keepsNewLine_safeApplyDelta d : keepsNewLine (_safeApplyDelta d).
Proof. unfold _safeApplyDelta. keeps_newline. Qed.
Hint Resolve keepsNewLine_safeApplyDelta : newline.

Lemma keepsNewLine_revertDelta d : keepsNewLine (revertDelta d).
Proof. unfold revertDelta. keeps_newline. Qed.
Hint Resolve keepsNewLine_revertDelta : newline.

Lemma keepsNewLine_applyDeltas ds : keepsNewLine (applyDeltas ds).
Proof. induction ds; simpl; keeps_newline. Qed.

Lemma keepsNewLine_revertDeltas ds : keepsNewLine (revertDeltas ds).
Proof. unfold revertDeltas. induction (rev ds); simpl; keeps_newline. Qed.

Lemma keepsNewLine_newDeltas ds : keepsNewLine (newDeltas ds).
Proof. unfold newDeltas. induction ds; simpl; keeps_newline. Qed.
Hint Resolve keepsNewLine_applyDeltas keepsNewLine_revertDeltas
  keepsNewLine_newDeltas : newline.

Lemma keepsNewLine_call c : setsNewLine c = false -> keepsNewLine (call c).
Proof.
  destruct c; try discriminate; intros _; simpl;
    try unfold insertInLine; try unfold insertFullLines;
    try unfold removeInLine; try unfold removeFullLines;
    try unfold removeNewLine; keeps_newline.
Qed.

(** The first separator of a text is a newline character. *)
Lemma firstEOL_isNewLine text sep :
  JS.firstEOL text = Some sep -> isNewLine sep = true.
Proof.
  induction text as [|c rest IH]; [done|]. cbn [JS.firstEOL].
  destruct (decide (c = JS.CR)).
  - destruct rest as [|c' ?]; [by intros [= <-]|].
    destruct (decide (c' = JS.LF)); by intros [= <-].
  - destruct (decide (c = JS.LF)); [by intros [= <-]|done].
Qed.

Lemma detectNewLine_eval text w :
  _detectNewLine text w
  = Ok tt (mkWorld (mkDocument (_lines (doc w))
                               (default (String JS.LF EmptyString) (JS.firstEOL text))
                               (_newLineMode (doc w)))
                   (points w) (arrays w) (deltas w)
                   (signals w ++ [changeNewLineMode])).
Proof. reflexivity. Qed.

(** What [insert] does before it hands over to [insertMergedLines]. *)
Lemma insert_eval p text w :
  insert p text w
  = if getLength (doc w) <=? 1
    then insertMergedLines p (_split text)
           (mkWorld (mkDocument (_lines (doc w))
                                (default (String JS.LF EmptyString) (JS.firstEOL text))
                                (_newLineMode (doc w)))
                    (points w) (arrays w) (deltas w)
                    (signals w ++ [changeNewLineMode]))
    else insertMergedLines p (_split text) w.
Proof.
  unfold insert. unfold bind at 1, gets. cbv beta iota.
  destruct (getLength (doc w) <=? 1); unfold bind at 1;
    [rewrite detectNewLine_eval|]; reflexivity.
Qed.

Lemma autoNewLineOk_same w w' :
  sameNewLine w w' -> autoNewLineOk w -> autoNewLineOk w'.
Proof. intros (Ha & _ & _). unfold autoNewLineOk. by rewrite Ha. Qed.

Lemma autoNewLineOk_insert p text w :
  autoNewLineOk w -> autoNewLineOk (worldOf (insert p text w)).
Proof.
  intros Hw. rewrite insert_eval. destruct (getLength (doc w) <=? 1).
  - eapply autoNewLineOk_same; [apply keepsNewLine_insertMergedLines|].
    right. simpl. destruct (JS.firstEOL text) as [sep|] eqn:E; [|done].
    by eapply firstEOL_isNewLine.
  - eapply autoNewLineOk_same; [apply keepsNewLine_insertMergedLines|done].
Qed.

Lemma autoNewLineOk_bind {A B} (m : M A) (f : A -> M B) w :
  autoNewLineOk (worldOf (m w)) ->
  (forall a w1, autoNewLineOk w1 -> autoNewLineOk (worldOf (f a w1))) ->
  autoNewLineOk (worldOf (bind m f w)).
Proof.
  intros Hm Hf. unfold bind. destruct (m w) as [a w1|e w1]; simpl in *; [by apply Hf|done].
Qed.

Lemma autoNewLineOk_call c w :
  autoNewLineOk w -> autoNewLineOk (worldOf (call c w)).
Proof.
  intros Hw. destruct (setsNewLine c) eqn:Hc.
  - destruct c; try discriminate; simpl.
    + (* setValue *)
      unfold setValue. unfold bind at 1, gets. cbv beta iota.
      apply autoNewLineOk_bind.
      * eapply autoNewLineOk_same; [apply keepsNewLine_remove|done].
      * intros _ w1 Hw1. apply autoNewLineOk_bind; [by apply autoNewLineOk_insert|].
        by intros.
    + (* setNewLineMode *)
      unfold setNewLineMode. unfold bind at 1, gets. cbv beta iota.
      case_decide; [done|]. done.
    + (* insert *)
      apply autoNewLineOk_bind; [by apply autoNewLineOk_insert|]. by intros.
    + (* replace *)
      apply autoNewLineOk_bind; [|by intros].
      unfold replace. unfold bind at 1, gets. cbv beta iota.
      destruct (_ && _); [done|]. case_decide; [done|].
      apply autoNewLineOk_bind.
      * eapply autoNewLineOk_same; [apply keepsNewLine_remove|done].
      * intros _ w1 Hw1. destruct (JS.falsy _); [done|].
        by apply autoNewLineOk_insert.
  - eapply autoNewLineOk_same; [by apply keepsNewLine_call|done].
Qed.

Lemma autoNewLineOk_calls cs : forall w, autoNewLineOk w -> autoNewLineOk (calls cs w).
Proof.
  induction cs as [|c cs IH]; intros w Hw; simpl; [done|].
  by apply IH, autoNewLineOk_call.
Qed.

Lemma autoNewLineOk_newDocument textOrLines :
  autoNewLineOk (worldOf (newDocument textOrLines)).
Proof.
  unfold newDocument, constructor, bind. simpl.
  set (w0 := setDoc _ protoWorld).
  assert (H0 : autoNewLineOk w0) by by left.
  destruct textOrLines as [text|ls].
  - destruct (JS.strlen text =? 0); [done|].
    fold (bind (insert (mkPoint 0 0) text) (fun _ => ret tt) w0).
    apply autoNewLineOk_bind; [by apply autoNewLineOk_insert|]. by intros.
  - destruct (Z.of_nat (length ls) =? 0); [done|].
    fold (bind (insertMergedLines (mkPoint 0 0) ls) (fun _ => ret tt) w0).
    apply autoNewLineOk_bind; [|by intros].
    eapply autoNewLineOk_same; [apply keepsNewLine_insertMergedLines|done].
Qed.

Lemma isNewLine_separator sep : isNewLine sep = true <-> isSeparator sep.
Proof.
  unfold isNewLine, isSeparator. rewrite !orb_true_iff, !bool_decide_eq_true.
  tauto.
Qed.

End NewLineMethods.

(** X11. Whatever a document was made from and whatever was called on it,
    [getNewLineCharacter()] is one of the three line separators, the strings
    for which [isNewLine] holds, in every newline mode. *)
Theorem getNewLineCharacter_isNewLine :
  forall (textOrLines : string + list string) (cs : list Call),
    let w := calls cs (worldOf (newDocument textOrLines)) in
    isNewLine (getNewLineCharacter (doc w)) = true.
Proof.
  intros textOrLines cs w.
  assert (Hw : autoNewLineOk w)
    by apply autoNewLineOk_calls, autoNewLineOk_newDocument.
  unfold getNewLineCharacter. destruct (_newLineMode (doc w)); [done|done|].
  rewrite orElse_line_or. case_decide as E; [done|].
  destruct Hw as [Hw|Hw]; [done|done].
Qed.

(** X12. [insert] looks for the newline character of the text only while the
    document has no line break: on a document of one line it sets
    [$autoNewLine] to the first separator of the text, a line feed when
    there is none, and signals [changeNewLineMode] once; on a document of
    more lines it leaves the newline settings as they are and does not
    signal it.  The newline mode is never changed. *)
Theorem insert_detects_newline (w : World) (position : Point) (text : string) :
  let w' := worldOf (insert position text w) in
  _newLineMode (doc w') = _newLineMode (doc w) /\
  (if getLength (doc w) <=? 1
   then _autoNewLine (doc w')
        = default (String JS.LF EmptyString) (JS.firstEOL text) /\
        modeSignals (signals w') = S (modeSignals (signals w))
   else _autoNewLine (doc w') = _autoNewLine (doc w) /\
        modeSignals (signals w') = modeSignals (signals w)).
Proof.
  intros w'. subst w'. rewrite insert_eval.
  destruct (getLength (doc w) <=? 1).
  - destruct (keepsNewLine_insertMergedLines position (_split text)
                (mkWorld (mkDocument (_lines (doc w))
                            (default (String JS.LF EmptyString) (JS.firstEOL text))
                            (_newLineMode (doc w)))
                         (points w) (arrays w) (deltas w)
                         (signals w ++ [changeNewLineMode])))
      as (Ha & Hm & Hs).
    simpl in Ha, Hm, Hs. rewrite modeSignals_app in Hs. simpl in Hs.
    repeat split; [done|done|lia].
  - destruct (keepsNewLine_insertMergedLines position (_split text) w)
      as (Ha & Hm & Hs).
    by repeat split.
Qed.

(** X13. No call but [setValue], [setNewLineMode], [insert] and [replace]
    changes the newline settings or signals [changeNewLineMode], whether it
    returns or throws: not the other inserting and removing methods, nor
    applying and reverting deltas. *)
Theorem newline_settings_kept (c : Call) (w : World) :
  setsNewLine c = false -> sameNewLine w (worldOf (call c w)).
Proof. intros Hc. by apply keepsNewLine_call. Qed.

(** Removing the first of two rows of a document in windows mode. *)
Lemma newline_settings_kept_witness :
  let w := mkWorld (mkDocument ["ab"; "cd"] EmptyString windows) [] [] [] [] in
  sameNewLine w (worldOf (call (CallRemoveFullLines 0 0) w)).
Proof.
  intros w. apply (newline_settings_kept (CallRemoveFullLines 0 0) w). reflexivity.
Defined.

(** ** Inserting lines *)

Section InsertRun.

(** The splice of an insert of one empty line changes nothing. *)
Lemma insertLines_noop X s :
  ApplyDelta.positionInDocument X s = true ->
  insertLines X s [EmptyString] = X.
Proof.
  intros Hs.
  destruct (positionInDocument_elim _ _ Hs) as (line & Hline & Hr & Hc & Hat).
  unfold insertLines. rewrite Hat. cbn [ApplyDelta.mergeLines].
  rewrite sapp_nil, substring_split. by apply take_drop_middle.
Qed.

Lemma length_insertLines_eq X s ls :
  ApplyDelta.positionInDocument X s = true -> ls <> [] ->
  Z.of_nat (length (insertLines X s ls))
  = Z.of_nat (length X) + Z.of_nat (length ls) - 1.
Proof.
  intros Hs Hne.
  destruct (positionInDocument_elim _ _ Hs) as (line & Hline & Hr & Hc & Hat).
  unfold insertLines. rewrite !length_app, length_mergeLines by done.
  rewrite length_take, length_drop. lia.
Qed.

(** [insertMergedLines] with lines, at any position of a document with a
    line: the position is clipped, the lines are spliced there, and the
    end of what was inserted is returned. *)
Lemma insertMergedLines_run w p ls :
  hasLine w -> ls <> [] ->
  let s := clippedPos (doc w) (Some (row p)) (Some (column p)) in
  exists w',
    insertMergedLines p ls w = Ok (insertEnd s ls) w' /\
    _lines (doc w') = insertLines (_lines (doc w)) s ls /\
    _autoNewLine (doc w') = _autoNewLine (doc w) /\
    _newLineMode (doc w') = _newLineMode (doc w).
Proof.
  intros Hw Hne s. unfold insertMergedLines.
  unfold bind at 1. unfold gets. fold s.
  rewrite (bind_ok _ _ _ _ _ (f_equal (fun o => orThrow o TypeError w)
                                      (last_index ls Hne))).
  set (e := mkPoint _ _).
  assert (He : clonePos e = insertEnd s ls) by reflexivity.
  set (Dd := mkDelta s e insert_ ls).
  destruct (newDeltaOf_eval w Dd) as [Hnew HD].
  rewrite (bind_ok _ _ _ _ _ Hnew). cbv beta iota.
  pose proof (clippedPos_in_document (doc w) (row p) (Some (column p)) Hw) as Hpos.
  fold s in Hpos.
  assert (Hend : points (withDelta w Dd) !! S (length (points w)) = Some e).
  { unfold withDelta. cbn [points]. rewrite lookup_app_r by lia.
    by replace (S (length (points w)) - length (points w))%nat with 1%nat by lia. }
  destruct (decide (ls = [EmptyString])) as [Hempty|Hfull].
  - assert (Hrun : applyDelta (length (deltas w)) false (withDelta w Dd)
                   = Ok tt (withDelta w Dd)).
    { unfold applyDelta. rewrite (applyDelta__cases _ _ _ HD).
      unfold Dd. rewrite Hempty. by rewrite isNoop_insert_true. }
    rewrite (bind_ok _ _ _ _ _ Hrun).
    rewrite (bind_ok _ _ _ _ _ (readPoint_ok _ _ _ Hend)).
    exists (withDelta w Dd). rewrite He. split; [done|].
    cbn [doc withDelta]. rewrite Hempty, insertLines_noop by done. done.
  - destruct (applyDelta_insert_lines (withDelta w Dd) (length (deltas w)) Dd false HD)
      as (w' & Hrun & Hlines & Hnl & Hmode); try done.
    + by apply isNoop_insert_false.
    + right. apply validateDelta_insert; try done. unfold Dd, e. simpl. lia.
    + unfold ApplyDelta.positionInDocument in Hpos. simpl. lia.
    + rewrite (bind_ok _ _ _ _ _ Hrun).
      assert (Ho : deltas (withDelta w Dd) !! length (deltas w)
                   = Some (mkDeltaObj (length (points w)) (S (length (points w)))
                                      insert_ (length (arrays w)))).
      { unfold withDelta. simpl. by rewrite lookup_app_r, Nat.sub_diag by lia. }
      destruct (applyDelta_frame _ _ _ _ false HD Ho) as (Fp & _ & _).
      rewrite Hrun in Fp. cbn [worldOf] in Fp.
      specialize (Fp (S (length (points w))) ltac:(simpl; lia)
                     ltac:(unfold withDelta; simpl; rewrite length_app; simpl; lia)).
      rewrite (bind_ok _ _ _ _ _ (readPoint_ok _ _ _ (eq_trans Fp Hend))).
      exists w'. by rewrite He.
Qed.

Lemma substring_infix pre y post :
  JS.substring (pre +:+ y +:+ post) (JS.strlen pre) (JS.strlen pre + JS.strlen y) = y.
Proof.
  pose proof (strlen_nonneg pre). pose proof (strlen_nonneg y).
  pose proof (strlen_nonneg post).
  rewrite substring_inside by (rewrite ?strlen_app; lia).
  unfold JS.strlen. rewrite Nat2Z.id, sdrop_app_length.
  replace (Z.to_nat (Z.of_nat (String.length pre) + Z.of_nat (String.length y)
                     - Z.of_nat (String.length pre)))
    with (String.length y) by lia.
  apply stake_app_length.
Qed.

(** Reading back what was just inserted. *)
Lemma getLinesForRange_insertLines D' X s L :
  ApplyDelta.positionInDocument X s = true -> L <> [] ->
  _lines D' = insertLines X s L ->
  getLinesForRange D' (mkRange s (insertEnd s L)) = L.
Proof.
  intros Hs HL HD'.
  destruct (positionInDocument_elim _ _ Hs) as (line & Hline & Hr & Hc & _).
  destruct s as [r c]. simpl in *.
  rewrite <- (take_drop_middle _ _ _ Hline) in HD'.
  set (A := take (Z.to_nat r) X) in *. set (B := drop (S (Z.to_nat r)) X) in *.
  assert (HA : r = Z.of_nat (length A)).
  { unfold A. rewrite length_take. lia. }
  rewrite HA in HD' |- *. rewrite insertLines_middle in HD'.
  set (pre := JS.substring line 0 c) in *.
  set (post := JS.substringFrom line c) in *.
  assert (Hpre : JS.strlen pre = c) by (by apply strlen_substring_prefix).
  rewrite (app_removelast_last EmptyString HL) in HD' |- *.
  set (W := removelast L) in *. set (y := List.last L EmptyString) in *.
  unfold insertEnd. cbn [row column]. rewrite last_last, length_app. cbn [length].
  destruct W as [|w0 W'].
  - cbn [app ApplyDelta.mergeLines length Nat.add] in HD' |- *.
    change (Z.of_nat 1 =? 1) with true. cbv iota.
    replace (Z.of_nat (length A) + Z.of_nat 1 - 1) with (Z.of_nat (length A))
      by lia.
    rewrite (getLinesForRange_row D' A _ B _ _ HD').
    by rewrite <- Hpre, substring_infix.
  - rewrite mergeLines_split in HD' by done.
    unfold suffixLast in HD'. cbn [removelast List.last prefixFirst app] in HD'.
    destruct (Z.eqb_spec (Z.of_nat (length (w0 :: W') + 1)) 1) as [E|_].
    { simpl in E. lia. }
    replace (Z.of_nat (length A) + Z.of_nat (length (w0 :: W') + 1) - 1)
      with (Z.of_nat (length A) + 1 + Z.of_nat (length W'))
      by (simpl length; lia).
    rewrite <- (app_assoc W' [y +:+ post] B) in HD'. cbn [app] in HD'.
    rewrite (getLinesForRange_middle D' A _ W' _ B _ _ HD').
    change (0 + JS.strlen y) with (JS.strlen y).
    rewrite <- Hpre, substringFrom_suffix, substring_prefix. done.
Qed.

Lemma positionInDocument_range X p :
  ApplyDelta.positionInDocument X p = true ->
  0 <= row p < Z.of_nat (length X) /\
  0 <= column p <= JS.strlen (ApplyDelta.lineAt X (row p)).
Proof.
  intros Hp. destruct (positionInDocument_elim _ _ Hp) as (line & _ & Hr & Hc & Hat).
  by rewrite Hat.
Qed.

End InsertRun.

(** X14. On a document with a line at least, [insertMergedLines] throws
    exactly when the array of lines is empty: it is then a [TypeError], the
    length of the last line being read where there is no line, and the
    document is left as it was, nothing being signalled. *)
Theorem insertMergedLines_no_lines (w : World) (position : Point)
    (ls : list string) :
  hasLine w ->
  (ls = [] -> insertMergedLines position ls w = Throw TypeError w) /\
  (returned (insertMergedLines position ls w) = false -> ls = []).
Proof.
  intros Hw. split; [by intros ->|].
  intros Hthrown. destruct ls as [|l ls]; [done|].
  destruct (insertMergedLines_run w position (l :: ls) Hw ltac:(done))
    as (w' & Hrun & _).
  by rewrite Hrun in Hthrown.
Qed.

(** No lines at the start of a document of one line. *)
Lemma insertMergedLines_no_lines_witness :
  let w := mkWorld (mkDocument ["ab"] EmptyString auto) [] [] [] [] in
  insertMergedLines (mkPoint 0 0) [] w = Throw TypeError w.
Proof.
  intros w.
  apply (insertMergedLines_no_lines w (mkPoint 0 0) []);
    [vm_compute; congruence | reflexivity].
Defined.

(** X15. On a document with a line at least, [insertMergedLines] with lines
    returns for any position, which it clips: the document has one row more
    for each line but the first, the position returned is a position of the
    document, and the lines of the range from the clipped position to the
    position returned are the lines that were inserted. *)
Theorem insertMergedLines_read_back (w : World) (position : Point)
    (ls : list string) :
  hasLine w -> ls <> [] ->
  let s := clippedPos (doc w) (Some (row position)) (Some (column position)) in
  exists e w',
    insertMergedLines position ls w = Ok e w' /\
    getLength (doc w') = getLength (doc w) + Z.of_nat (length ls) - 1 /\
    row e = row s + Z.of_nat (length ls) - 1 /\
    0 <= column e <= JS.strlen (getLine (doc w') (row e)) /\
    getLinesForRange (doc w') (mkRange s e) = ls.
Proof.
  intros Hw Hne s.
  destruct (insertMergedLines_run w position ls Hw Hne) as (w' & Hrun & Hlines & _).
  fold s in Hrun, Hlines.
  pose proof (clippedPos_in_document (doc w) (row position) (Some (column position)) Hw)
    as Hpos.
  fold s in Hpos.
  destruct (positions_after_insert _ _ _ Hpos Hne) as [_ Hend].
  rewrite <- Hlines in Hend. apply positionInDocument_range in Hend as [_ Hcol].
  exists (insertEnd s ls), w'. split; [done|]. split.
  - unfold getLength. rewrite Hlines. by apply length_insertLines_eq.
  - split; [reflexivity|]. split; [by rewrite getLine_lineAt|].
    by apply (getLinesForRange_insertLines (doc w') (_lines (doc w)) s ls).
Qed.

(** Two lines into the middle of the one line of a document. *)
Lemma insertMergedLines_read_back_witness :
  let w := mkWorld (mkDocument ["abcd"] EmptyString auto) [] [] [] [] in
  exists e w',
    insertMergedLines (mkPoint 0 2) ["x"; "yz"] w = Ok e w' /\
    getLength (doc w') = 1 + 2 - 1 /\
    row e = 0 + 2 - 1 /\
    0 <= column e <= JS.strlen (getLine (doc w') (row e)) /\
    getLinesForRange (doc w') (mkRange (mkPoint 0 2) e) = ["x"; "yz"].
Proof.
  intros w.
  apply (insertMergedLines_read_back w (mkPoint 0 2) ["x"; "yz"]);
    [vm_compute; congruence | congruence].
Defined.

(** ** Inserting a text and full lines *)

Section InsertFull.

Lemma clippedPos_inside D r c :
  0 <= r < getLength D -> 0 <= c <= JS.strlen (getLine D r) ->
  clippedPos D (Some r) (Some c) = mkPoint r c.
Proof.
  intros Hr Hc. unfold clippedPos.
  destruct (Z.ltb_spec r 0); [lia|]. destruct (Z.geb_spec r (getLength D)); [lia|].
  f_equal. lia.
Qed.

(** Lines and an empty one, merged in at the start of a row, come before
    the row. *)
Lemma insertLines_full_before X r ls :
  0 <= r < Z.of_nat (length X) ->
  insertLines X (mkPoint r 0) (ls ++ [EmptyString])
  = take (Z.to_nat r) X ++ ls ++ drop (Z.to_nat r) X.
Proof.
  intros Hr. destruct (one_row X r Hr) as (A & line & B & -> & ->).
  rewrite insertLines_middle, Nat2Z.id, take_app_length, drop_app_length.
  rewrite substring_0_0, substringFrom_0. f_equal.
  destruct ls as [|x ls'].
  - cbn [app ApplyDelta.mergeLines]. by rewrite !sapp_nil.
  - rewrite mergeLines_window by done. cbn [prefixFirst].
    by rewrite sapp_nil, <- app_assoc.
Qed.

(** An empty line and lines, merged in at the end of the last row, come
    after the document. *)
Lemma insertLines_full_after A lastLine ls :
  insertLines (A ++ [lastLine])
              (mkPoint (Z.of_nat (length A)) (JS.strlen lastLine))
              (EmptyString :: ls)
  = (A ++ [lastLine]) ++ ls.
Proof.
  rewrite insertLines_middle, substring_whole, substringFrom_end, app_nil_r.
  rewrite <- app_assoc. f_equal.
  destruct ls as [|x ls'].
  - cbn [ApplyDelta.mergeLines app]. by rewrite sapp_nil, app_empty_r.
  - cbn [ApplyDelta.mergeLines]. rewrite !app_empty_r. cbn [app]. f_equal.
    symmetry. by apply app_removelast_last.
Qed.

(** What [removeFullLines] leaves when the rows are not the whole
    document. *)
Lemma removeFullLines_removes w firstRow lastRow :
  hasLine w ->
  clipRow (doc w) firstRow <= clipRow (doc w) lastRow ->
  0 < clipRow (doc w) firstRow \/ clipRow (doc w) lastRow < getLength (doc w) - 1 ->
  removesRows w firstRow lastRow.
Proof.
  intros Hline Hfl Hcase.
  set (X := _lines (doc w)). set (f := clipRow (doc w) firstRow) in *.
  set (l := clipRow (doc w) lastRow) in *. set (len := getLength (doc w)) in *.
  destruct (clipRow_range w firstRow lastRow Hline) as [Hf Hl].
  fold f l len in Hf, Hl.
  assert (HlenX : len = Z.of_nat (length X)) by reflexivity.
  assert (Hslice : JS.slice X f (l + 1)
                   = take (Z.to_nat (l - f + 1)) (drop (Z.to_nat f) X)).
  { rewrite slice_inside by lia. f_equal. lia. }
  set (s := if (l =? len - 1) && (f >? 0)
            then mkPoint (f - 1) (JS.strlen (getLine (doc w) (f - 1)))
            else mkPoint f 0).
  set (e := if l <? len - 1 then mkPoint (l + 1) 0
            else mkPoint l (JS.strlen (getLine (doc w) l))).
  set (Dr := mkDelta s e remove_ (getLinesForRange (doc w) (mkRange s e))).
  pose proof (removeFullLines_run w firstRow lastRow Hline Hfl) as Hrun.
  fold X f l len s e Dr in Hrun.
  unfold removesRows. fold X f l. rewrite Hrun, <- Hslice.
  eexists. split; [reflexivity|].
  assert (isNoop Dr = false) as ->.
  { apply isNoop_remove_rows. unfold s, e.
    destruct (Z.eqb_spec l (len - 1)), (Z.gtb_spec f 0), (Z.ltb_spec l (len - 1));
      simpl; lia. }
  simpl. unfold s, e.
  destruct (Z.ltb_spec l (len - 1)) as [Hlt|Hge].
  + destruct (Z.eqb_spec l (len - 1)); [lia|]. simpl.
    apply removeLines_following; lia.
  + destruct (Z.eqb_spec l (len - 1)); [|lia].
    destruct (Z.gtb_spec f 0); [|lia]. simpl.
    rewrite !getLine_lineAt. fold X.
    apply removeLines_preceding; lia.
Qed.

Lemma insertFullLines_run w r ls :
  hasLine w ->
  let X := _lines (doc w) in
  let r' := Z.min (Z.max r 0) (getLength (doc w)) in
  exists w',
    insertFullLines r ls w = Ok tt w' /\
    _lines (doc w') = take (Z.to_nat r') X ++ ls ++ drop (Z.to_nat r') X.
Proof.
  intros Hw X r'. unfold insertFullLines. unfold bind at 1, gets. cbv beta iota zeta.
  fold r'. unfold hasLine in Hw.
  assert (Hr' : 0 <= r' <= getLength (doc w)) by (unfold r'; lia).
  destruct (Z.ltb_spec r' (getLength (doc w))) as [Hlt|Hge].
  - destruct (insertMergedLines_run w (mkPoint r' 0) (ls ++ [EmptyString]) Hw)
      as (w' & Hrun & Hlines & _); [by destruct ls|].
    cbn [row column] in Hrun, Hlines.
    rewrite clippedPos_inside in Hrun, Hlines
      by (try pose proof (strlen_nonneg (getLine (doc w) r')); lia).
    unfold bind. rewrite Hrun. exists w'. split; [done|].
    rewrite Hlines. apply insertLines_full_before. unfold getLength, X in *. lia.
  - assert (Hr : r' = getLength (doc w)) by lia.
    destruct (last_row X) as (A & lastLine & HX).
    { intros E. unfold getLength in Hw. fold X in Hw. rewrite E in Hw. simpl in Hw. lia. }
    assert (HlenA : r' - 1 = Z.of_nat (length A)).
    { rewrite Hr. unfold getLength. fold X. rewrite HX, length_app. simpl. lia. }
    assert (Hidx : JS.index (_lines (doc w)) (r' - 1) = Some lastLine).
    { apply index_Some. split; [lia|]. fold X. rewrite HlenA, Nat2Z.id, HX.
      by apply list_lookup_middle. }
    unfold bind at 1. rewrite Hidx. cbn [orThrow ret].
    destruct (insertMergedLines_run w (mkPoint (r' - 1) (JS.strlen lastLine))
                ([EmptyString] ++ ls) Hw)
      as (w' & Hrun & Hlines & _); [done|].
    cbn [row column] in Hrun, Hlines.
    assert (Hline : getLine (doc w) (r' - 1) = lastLine).
    { unfold getLine. by rewrite Hidx, orElse_line. }
    rewrite clippedPos_inside in Hrun, Hlines
      by (rewrite ?Hline; pose proof (strlen_nonneg lastLine); lia).
    unfold bind. rewrite Hrun. exists w'. split; [done|].
    rewrite Hlines. fold X. rewrite HlenA, HX. cbn [app].
    rewrite insertLines_full_after.
    replace (Z.to_nat r') with (length (A ++ [lastLine]))
      by (rewrite length_app; simpl; lia).
    by rewrite take_ge, drop_ge, app_nil_r by lia.
Qed.

End InsertFull.

(** X16. On a document with a line at least, [insert] returns for any
    position, which it clips, and any text: the document has one row more
    for each line break of the text, and the lines of the range from the
    clipped position to the position returned are the pieces of the text
    between its line breaks. *)
Theorem insert_read_back (w : World) (position : Point) (text : string) :
  hasLine w ->
  let s := clippedPos (doc w) (Some (row position)) (Some (column position)) in
  exists e w',
    insert position text w = Ok e w' /\
    getLength (doc w') = getLength (doc w) + Z.of_nat (length (_split text)) - 1 /\
    getLinesForRange (doc w') (mkRange s e) = _split text.
Proof.
  intros Hw s. rewrite insert_eval.
  pose proof (clippedPos_in_document (doc w) (row position) (Some (column position)) Hw)
    as Hpos.
  fold s in Hpos.
  assert (Hne : _split text <> []) by apply splitEOL_nonempty.
  assert (Hany : forall w1, _lines (doc w1) = _lines (doc w) ->
            exists e w',
              insertMergedLines position (_split text) w1 = Ok e w' /\
              getLength (doc w') = getLength (doc w) + Z.of_nat (length (_split text)) - 1 /\
              getLinesForRange (doc w') (mkRange s e) = _split text).
  { intros w1 Hsame.
    assert (Hw1 : hasLine w1) by (unfold hasLine, getLength in *; by rewrite Hsame).
    destruct (insertMergedLines_run w1 position (_split text) Hw1 Hne)
      as (w' & Hrun & Hlines & _).
    assert (Hs : clippedPos (doc w1) (Some (row position)) (Some (column position)) = s).
    { unfold s, clippedPos, getLength, getLine. by rewrite Hsame. }
    rewrite Hs in Hrun, Hlines. rewrite Hsame in Hlines.
    exists (insertEnd s (_split text)), w'. split; [done|]. split.
    - unfold getLength. rewrite Hlines. by apply length_insertLines_eq.
    - by apply (getLinesForRange_insertLines (doc w') (_lines (doc w)) s). }
  destruct (getLength (doc w) <=? 1); by apply Hany.
Qed.

(** A text of two lines into the middle of the one line of a document. *)
Lemma insert_read_back_witness :
  let w := mkWorld (mkDocument ["abcd"] EmptyString auto) [] [] [] [] in
  let text := "x" +:+ String JS.LF "yz" in
  exists e w',
    insert (mkPoint 0 2) text w = Ok e w' /\
    getLength (doc w') = 1 + Z.of_nat (length (_split text)) - 1 /\
    getLinesForRange (doc w') (mkRange (mkPoint 0 2) e) = _split text.
Proof.
  intros w text.
  apply (insert_read_back w (mkPoint 0 2) text). vm_compute. congruence.
Defined.

(** X17. On a document with a line at least, [insertFullLines] puts the
    lines, as rows of their own, before the row it is given, clipped to the
    rows of the document and the row after the last one; the rows of the
    document are as they were, before and after the new rows.  With no
    lines nothing changes. *)
Theorem insertFullLines_rows (w : World) (r : Z) (ls : list string) :
  hasLine w ->
  let X := _lines (doc w) in
  let r' := Z.min (Z.max r 0) (getLength (doc w)) in
  exists w',
    insertFullLines r ls w = Ok tt w' /\
    _lines (doc w') = take (Z.to_nat r') X ++ ls ++ drop (Z.to_nat r') X /\
    getLength (doc w') = getLength (doc w) + Z.of_nat (length ls).
Proof.
  intros Hw X r'.
  destruct (insertFullLines_run w r ls Hw) as (w' & Hrun & Hlines).
  exists w'. split; [done|]. split; [done|].
  unfold getLength. rewrite Hlines. fold X.
  rewrite !length_app, length_take, length_drop. lia.
Qed.

(** Two rows after the last row of a document of two rows. *)
Lemma insertFullLines_rows_witness :
  let w := mkWorld (mkDocument ["ab"; "cd"] EmptyString auto) [] [] [] [] in
  exists w',
    insertFullLines 9 ["X"; "Y"] w = Ok tt w' /\
    _lines (doc w') = ["ab"; "cd"; "X"; "Y"] /\
    getLength (doc w') = 2 + 2.
Proof.
  intros w. apply (insertFullLines_rows w 9 ["X"; "Y"]). vm_compute. congruence.
Defined.

(** X18. [insertFullLines] undoes [removeFullLines]: when rows of the
    document that are not all of its rows are removed, and the lines that
    [removeFullLines] returned are inserted at the first of these rows, the
    lines of the document are what they were. *)
Theorem insertFullLines_removeFullLines (w : World) (firstRow lastRow : Z) :
  0 <= firstRow <= lastRow ->
  lastRow < getLength (doc w) ->
  0 < firstRow \/ lastRow < getLength (doc w) - 1 ->
  exists rows w1 w2,
    removeFullLines firstRow lastRow w = Ok rows w1 /\
    insertFullLines firstRow rows w1 = Ok tt w2 /\
    _lines (doc w2) = _lines (doc w).
Proof.
  intros Hfl Hl Hcase.
  assert (Hw : hasLine w) by (unfold hasLine; lia).
  assert (Hf' : clipRow (doc w) firstRow = firstRow) by (unfold clipRow; lia).
  assert (Hl' : clipRow (doc w) lastRow = lastRow) by (unfold clipRow; lia).
  destruct (removeFullLines_removes w firstRow lastRow Hw) as (w1 & Hrem & Hlines1);
    [lia|lia|].
  rewrite Hf', Hl' in Hrem, Hlines1.
  set (X := _lines (doc w)) in *. unfold getLength in *. fold X in Hl, Hcase.
  assert (Hlen1 : Z.of_nat (length (_lines (doc w1)))
                  = Z.of_nat (length X) - (lastRow - firstRow + 1)).
  { rewrite Hlines1, length_app, length_take, length_drop. lia. }
  assert (Hw1 : hasLine w1) by (unfold hasLine, getLength; lia).
  destruct (insertFullLines_run w1 firstRow
              (take (Z.to_nat (lastRow - firstRow + 1)) (drop (Z.to_nat firstRow) X)) Hw1)
    as (w2 & Hins & Hlines2).
  exists (take (Z.to_nat (lastRow - firstRow + 1)) (drop (Z.to_nat firstRow) X)), w1, w2.
  split; [done|]. split; [done|].
  rewrite Hlines2. unfold getLength. rewrite Hlen1.
  replace (Z.min (Z.max firstRow 0) (Z.of_nat (length X) - (lastRow - firstRow + 1)))
    with firstRow by lia.
  rewrite Hlines1.
  rewrite take_app_length' by (rewrite length_take; lia).
  rewrite drop_app_length' by (rewrite length_take; lia).
  replace (S (Z.to_nat lastRow))
    with (Z.to_nat firstRow + Z.to_nat (lastRow - firstRow + 1))%nat by lia.
  rewrite <- drop_drop, take_drop. apply take_drop.
Qed.

(** The second and third of four rows. *)
Lemma insertFullLines_removeFullLines_witness :
  let w := mkWorld (mkDocument ["a"; "b"; "c"; "d"] EmptyString auto) [] [] [] [] in
  exists rows w1 w2,
    removeFullLines 1 2 w = Ok rows w1 /\
    insertFullLines 1 rows w1 = Ok tt w2 /\
    _lines (doc w2) = _lines (doc w).
Proof.
  intros w. apply (insertFullLines_removeFullLines w 1 2); vm_compute;
    intuition congruence.
Defined.

(** ** Editing within a line *)

Section InLine.

Lemma clippedPos_row D r c1 c2 :
  row (clippedPos D (Some r) c1) = row (clippedPos D (Some r) c2).
Proof.
  unfold clippedPos.
  destruct (r <? 0); [done|]. by destruct (r >=? getLength D).
Qed.

Lemma spliced_points w X d : points (spliced w X d) = points w.
Proof. reflexivity. Qed.

(** A row rewritten by a splice that keeps its neighbours. *)
Lemma row_rewritten (X : list string) r y :
  0 <= r < Z.of_nat (length X) ->
  take (Z.to_nat r) X ++ [y] ++ drop (S (Z.to_nat r)) X = <[Z.to_nat r := y]> X.
Proof. intros Hr. symmetry. apply insert_take_drop. lia. Qed.

Lemma insertInLine_run w p text :
  hasLine w ->
  let s := clippedPos (doc w) (Some (row p)) (Some (column p)) in
  let line := getLine (doc w) (row s) in
  exists w',
    insertInLine p text w = Ok (mkPoint (row p) (column p + JS.strlen text)) w' /\
    _lines (doc w')
    = <[Z.to_nat (row s) := JS.substring line 0 (column s) +:+ text
                            +:+ JS.substringFrom line (column s)]> (_lines (doc w)).
Proof.
  intros Hw s line. unfold insertInLine. unfold bind at 1, gets. fold s.
  set (e := pos (row p) (column p + JS.strlen text)).
  set (Dd := mkDelta s e insert_ [text]).
  destruct (newDeltaOf_eval w Dd) as [Hnew HD].
  rewrite (bind_ok _ _ _ _ _ Hnew). cbv beta iota.
  pose proof (clippedPos_in_document (doc w) (row p) (Some (column p)) Hw) as Hpos.
  fold s in Hpos.
  destruct (positionInDocument_elim _ _ Hpos) as (line' & Hline & Hr & Hc & Hat).
  assert (line' = line) as -> by (unfold line; by rewrite getLine_lineAt).
  assert (Hend : points (withDelta w Dd) !! S (length (points w)) = Some e).
  { unfold withDelta. cbn [points]. rewrite lookup_app_r by lia.
    by replace (S (length (points w)) - length (points w))%nat with 1%nat by lia. }
  destruct (decide (text = EmptyString)) as [->|Hfull].
  - assert (Hrun : applyDelta (length (deltas w)) true (withDelta w Dd)
                   = Ok tt (withDelta w Dd)).
    { unfold applyDelta. rewrite (applyDelta__cases _ _ _ HD).
      unfold Dd. by rewrite isNoop_insert_true. }
    rewrite (bind_ok _ _ _ _ _ Hrun).
    rewrite (bind_ok _ _ _ _ _ (readPoint_ok _ _ _ Hend)).
    exists (withDelta w Dd). split; [done|].
    cbn [doc withDelta]. rewrite sapp_nil, substring_split.
    symmetry. by apply list_insert_id.
  - assert (Hrun : applyDelta (length (deltas w)) true (withDelta w Dd)
                   = Ok tt (spliced (withDelta w Dd)
                              (insertLines (_lines (doc w)) s [text])
                              (length (deltas w)))).
    { apply (applyDelta__insert (withDelta w Dd) _ Dd); try done;
        first [apply isNoop_insert_false; congruence | simpl; lia | by left]. }
    rewrite (bind_ok _ _ _ _ _ Hrun).
    rewrite (bind_ok _ _ _ _ _
               (readPoint_ok (spliced (withDelta w Dd) _ _) _ _ Hend)).
    eexists. split; [reflexivity|].
    cbn [doc spliced _lines]. unfold insertLines. rewrite Hat.
    cbn [ApplyDelta.mergeLines]. by apply row_rewritten.
Qed.

Lemma removeInLine_run w r startColumn endColumn :
  hasLine w ->
  let s := clippedPos (doc w) (Some r) (Some startColumn) in
  let e := clippedPos (doc w) (Some r) (Some endColumn) in
  let line := getLine (doc w) (row s) in
  exists w',
    removeInLine r startColumn endColumn w = Ok s w' /\
    _lines (doc w')
    = <[Z.to_nat (row s) := JS.substring line 0 (column s)
                            +:+ JS.substringFrom line (column e)]> (_lines (doc w)).
Proof.
  intros Hw s e line. unfold removeInLine. unfold bind at 1, gets. fold s e.
  set (Dd := mkDelta s e remove_ (getLinesForRange (doc w) (mkRange s e))).
  destruct (newDeltaOf_eval w Dd) as [Hnew HD].
  rewrite (bind_ok _ _ _ _ _ Hnew). cbv beta iota.
  pose proof (clippedPos_in_document (doc w) r (Some startColumn) Hw) as Hpos.
  fold s in Hpos.
  destruct (positionInDocument_elim _ _ Hpos) as (line' & Hline & Hr & Hc & Hat).
  assert (line' = line) as -> by (unfold line; by rewrite getLine_lineAt).
  assert (Hrow : row e = row s) by apply clippedPos_row.
  assert (Hstart : points (withDelta w Dd) !! length (points w) = Some s).
  { unfold withDelta. cbn [points]. by rewrite lookup_app_r, Nat.sub_diag by lia. }
  destruct (isNoop Dd) eqn:Hnoop.
  - assert (Hrun : applyDelta (length (deltas w)) true (withDelta w Dd)
                   = Ok tt (withDelta w Dd)).
    { unfold applyDelta. by rewrite (applyDelta__cases _ _ _ HD), Hnoop. }
    rewrite (bind_ok _ _ _ _ _ Hrun).
    rewrite (bind_ok _ _ _ _ _ (readPoint_ok _ _ _ Hstart)).
    exists (withDelta w Dd). rewrite clonePos_id. split; [done|].
    cbn [doc withDelta]. unfold isNoop, Dd in Hnoop. cbn in Hnoop.
    apply Z.eqb_eq, comparePoints_zero in Hnoop as [_ <-].
    rewrite substring_split. symmetry. by apply list_insert_id.
  - assert (Hrun : applyDelta (length (deltas w)) true (withDelta w Dd)
                   = Ok tt (spliced (withDelta w Dd)
                              (removeLines (_lines (doc w)) s e)
                              (length (deltas w)))).
    { apply (applyDelta_remove (withDelta w Dd) _ Dd); try done;
        first [by left | simpl; rewrite ?Hrow; lia]. }
    rewrite (bind_ok _ _ _ _ _ Hrun).
    rewrite (bind_ok _ _ _ _ _
               (readPoint_ok (spliced (withDelta w Dd) _ _) _ _ Hstart)).
    eexists. rewrite clonePos_id. split; [reflexivity|].
    cbn [doc spliced _lines]. unfold removeLines. rewrite Hrow, Hat.
    by apply row_rewritten.
Qed.

Lemma length_list_insert_Z (X : list string) i y :
  Z.of_nat (length (<[i := y]> X)) = Z.of_nat (length X).
Proof. by rewrite length_insert. Qed.

End InLine.



(** X20. On a document with a line at least, [removeInLine] clips both
    columns to the row, itself clipped, and returns the clipped start; the
    row keeps what is before the clipped start column and what is after the
    clipped end column, and the document keeps its number of rows. *)
Theorem removeInLine_line (w : World) (r startColumn endColumn : Z) :
  hasLine w ->
  startColumn <= endColumn ->
  let s := clippedPos (doc w) (Some r) (Some startColumn) in
  let e := clippedPos (doc w) (Some r) (Some endColumn) in
  let line := getLine (doc w) (row s) in
  exists w',
    removeInLine r startColumn endColumn w = Ok s w' /\
    _lines (doc w')
    = <[Z.to_nat (row s) := JS.substring line 0 (column s)
                            +:+ JS.substringFrom line (column e)]> (_lines (doc w)) /\
    getLength (doc w') = getLength (doc w).
Proof.
  intros Hw _ s e line.
  destruct (removeInLine_run w r startColumn endColumn Hw) as (w' & Hrun & Hlines).
  exists w'. split; [done|]. split; [done|].
  unfold getLength. rewrite Hlines. apply length_list_insert_Z.
Qed.

(** Columns 1 to 9 of the first row of two. *)
Lemma removeInLine_line_witness :
  let w := mkWorld (mkDocument ["abcd"; "ef"] EmptyString auto) [] [] [] [] in
  exists w',
    removeInLine 0 1 9 w = Ok (mkPoint 0 1) w' /\
    _lines (doc w') = ["a"; "ef"] /\
    getLength (doc w') = 2.
Proof.
  intros w.
  apply (removeInLine_line w 0 1 9); [vm_compute; congruence | lia].
Defined.

(** X21. [removeInLine] undoes [insertInLine]: after a text was put in at a
    position of the document, removing from the column of the position to
    the column that [insertInLine] returned leaves the lines of the
    document as they were. *)
Theorem removeInLine_insertInLine (w : World) (position : Point) (text : string) :
  0 <= row position < getLength (doc w) ->
  0 <= column position <= JS.strlen (getLine (doc w) (row position)) ->
  exists e w1 w2,
    insertInLine position text w = Ok e w1 /\
    removeInLine (row position) (column position) (column e) w1 = Ok position w2 /\
    _lines (doc w2) = _lines (doc w).
Proof.
  intros Hr Hc. destruct position as [r c]. cbn [row column] in *.
  assert (Hw : hasLine w) by (unfold hasLine; lia).
  destruct (insertInLine_run w (mkPoint r c) text Hw) as (w1 & Hins & Hlines1).
  cbn [row column] in Hins, Hlines1.
  rewrite clippedPos_inside in Hlines1 by done. cbn [row column] in Hlines1.
  set (line := getLine (doc w) r) in *.
  set (pre := JS.substring line 0 c) in *. set (post := JS.substringFrom line c) in *.
  assert (Hpre : JS.strlen pre = c) by (by apply strlen_substring_prefix).
  assert (Hlen1 : getLength (doc w1) = getLength (doc w)).
  { unfold getLength. rewrite Hlines1. apply length_list_insert_Z. }
  assert (Hw1 : hasLine w1) by (unfold hasLine; lia).
  assert (Hline1 : getLine (doc w1) r = pre +:+ text +:+ post).
  { unfold getLine. rewrite (proj2 (index_Some _ r (pre +:+ text +:+ post)));
      [apply orElse_line|].
    split; [lia|]. rewrite Hlines1. apply list_lookup_insert_eq.
    unfold getLength in Hr. lia. }
  pose proof (strlen_nonneg text). pose proof (strlen_nonneg post).
  destruct (removeInLine_run w1 r c (c + JS.strlen text) Hw1) as (w2 & Hrem & Hlines2).
  assert (Hs1 : clippedPos (doc w1) (Some r) (Some c) = mkPoint r c).
  { apply clippedPos_inside; [lia|]. rewrite Hline1, !strlen_app. lia. }
  assert (He1 : clippedPos (doc w1) (Some r) (Some (c + JS.strlen text))
                = mkPoint r (c + JS.strlen text)).
  { apply clippedPos_inside; [lia|]. rewrite Hline1, !strlen_app. lia. }
  rewrite Hs1 in Hrem. rewrite Hs1, He1 in Hlines2.
  cbn [row column] in Hlines2. rewrite Hline1 in Hlines2.
  exists (mkPoint r (c + JS.strlen text)), w1, w2.
  split; [done|]. split; [done|].
  rewrite Hlines2, Hlines1, list_insert_insert_eq.
  pose proof (substring_prefix pre (text +:+ post)) as E1. rewrite Hpre in E1.
  pose proof (substringFrom_suffix (pre +:+ text) post) as E2.
  rewrite strlen_app, Hpre, app_assoc_s in E2. rewrite E1, E2.
  unfold pre, post. rewrite substring_split.
  apply list_insert_id. unfold line, getLine.
  unfold getLength in Hr.
  destruct (index_in_range (_lines (doc w)) r Hr) as [x Hx].
  rewrite Hx, orElse_line. by apply index_Some in Hx as [_ Hx].
Qed.

(** Two characters into the middle of a row. *)
Lemma removeInLine_insertInLine_witness :
  let w := mkWorld (mkDocument ["abcd"; "ef"] EmptyString auto) [] [] [] [] in
  exists e w1 w2,
    insertInLine (mkPoint 0 2) "XY" w = Ok e w1 /\
    removeInLine 0 2 (column e) w1 = Ok (mkPoint 0 2) w2 /\
    _lines (doc w2) = _lines (doc w).
Proof.
  intros w.
  apply (removeInLine_insertInLine w (mkPoint 0 2) "XY"); vm_compute;
    intuition congruence.
Defined.

(** ** Line breaks and ranges *)

Section LineBreaks.

Lemma getLine_range D r :
  0 <= r < getLength D ->
  exists line, _lines D !! Z.to_nat r = Some line /\ getLine D r = line.
Proof.
  intros Hr. unfold getLength in Hr.
  destruct (index_in_range (_lines D) r Hr) as [line Hidx].
  exists line. unfold getLine. rewrite Hidx, orElse_line.
  by apply index_Some in Hidx as [_ Hidx].
Qed.

Lemma positionInDocument_getLine D p :
  0 <= row p < getLength D ->
  0 <= column p <= JS.strlen (getLine D (row p)) ->
  ApplyDelta.positionInDocument (_lines D) p = true.
Proof.
  intros Hr Hc. apply positionInDocument_intro; [done|].
  by rewrite <- getLine_lineAt.
Qed.

Lemma removeNewLine_run w r :
  0 <= r < getLength (doc w) - 1 ->
  let s := mkPoint r (JS.strlen (getLine (doc w) r)) in
  let e := mkPoint (r + 1) 0 in
  removeNewLine r w
  = Ok tt (spliced (withDelta w (mkDelta s e remove_ [EmptyString; EmptyString]))
                   (removeLines (_lines (doc w)) s e) (length (deltas w))).
Proof.
  intros Hr s e. unfold removeNewLine. unfold bind at 1, gets. cbv beta iota.
  destruct (Z.ltb_spec r (getLength (doc w) - 1)); [|lia].
  destruct (Z.geb_spec r 0); [|lia]. cbn [andb].
  set (Dd := mkDelta s e remove_ [EmptyString; EmptyString]).
  destruct (newDeltaOf_eval w Dd) as [Hnew HD].
  rewrite (bind_ok _ _ _ _ _ Hnew). cbv beta iota.
  pose proof (strlen_nonneg (getLine (doc w) r)).
  pose proof (strlen_nonneg (getLine (doc w) (r + 1))).
  apply (applyDelta_remove (withDelta w Dd) _ Dd); try done.
  - apply isNoop_remove_rows. simpl. lia.
  - right. apply validateDelta_remove; try done.
    + apply (positionInDocument_getLine (doc w) s); simpl; lia.
    + apply (positionInDocument_getLine (doc w) e); simpl; lia.
    + simpl. lia.
  - simpl. lia.
  - simpl. unfold getLength in *. lia.
Qed.

Lemma removeLines_join A x y B :
  removeLines (A ++ x :: y :: B) (mkPoint (Z.of_nat (length A)) (JS.strlen x))
              (mkPoint (Z.of_nat (length A) + 1) 0)
  = A ++ (x +:+ y) :: B.
Proof.
  pose proof (removeLines_middle A x [] y B (JS.strlen x) 0) as H.
  cbn [app length] in H. change (Z.of_nat 0) with 0 in H.
  rewrite Z.add_0_r in H. by rewrite H, substring_whole, substringFrom_0.
Qed.

End LineBreaks.

(** X22. [removeNewLine] joins a row of the document that is not the last
    with the row after it, the document then having a row less; for any
    other row, negative, the last or past the end, it does nothing: the
    document is as it was and nothing is signalled. *)
Theorem removeNewLine_joins (w : World) (r : Z) :
  (0 <= r < getLength (doc w) - 1 ->
   exists w',
     removeNewLine r w = Ok tt w' /\
     _lines (doc w')
     = take (Z.to_nat r) (_lines (doc w))
       ++ [getLine (doc w) r +:+ getLine (doc w) (r + 1)]
       ++ drop (S (S (Z.to_nat r))) (_lines (doc w)) /\
     getLength (doc w') = getLength (doc w) - 1) /\
  (r < 0 \/ getLength (doc w) - 1 <= r -> removeNewLine r w = Ok tt w).
Proof.
  split.
  - intros Hr. rewrite removeNewLine_run by done. eexists. split; [reflexivity|].
    unfold getLength at 1. cbn [doc spliced _lines].
    destruct (two_rows (_lines (doc w)) r (r + 1)) as (A & x & Mid & y & B & HX & HA & HB);
      [lia|unfold getLength in Hr; lia|].
    destruct Mid; [|simpl in HB; lia]. cbn [app] in HX.
    assert (Hx : getLine (doc w) r = x) by (rewrite HA; by apply (getLine_middle _ A x (y :: B))).
    assert (Hy : getLine (doc w) (r + 1) = y).
    { replace (r + 1) with (Z.of_nat (length (A ++ [x])))
        by (rewrite length_app; simpl; lia).
      apply (getLine_middle _ (A ++ [x]) y B). by rewrite <- app_assoc. }
    rewrite Hx, Hy. unfold getLength. rewrite HX, HA, Nat2Z.id.
    rewrite removeLines_join, take_app_length.
    replace (A ++ x :: y :: B) with ((A ++ [x; y]) ++ B) by (by rewrite <- app_assoc).
    rewrite drop_app_length' by (rewrite length_app; simpl; lia).
    split; [done|]. rewrite !length_app. simpl. lia.
  - intros Hr. unfold removeNewLine. unfold bind at 1, gets. cbv beta iota.
    destruct (Z.ltb_spec r (getLength (doc w) - 1)); [|done].
    destruct (Z.geb_spec r 0); [lia|done].
Qed.

(** X23. [removeNewLine] undoes the insertion of a line break: after
    [insertMergedLines] with two empty lines, which is what the deprecated
    [insertNewLine] calls, at a position of the document,
    [removeNewLine] for the row of the position leaves the lines of the
    document as they were. *)
Theorem removeNewLine_after_insert (w : World) (position : Point) :
  0 <= row position < getLength (doc w) ->
  0 <= column position <= JS.strlen (getLine (doc w) (row position)) ->
  exists w1 w2,
    insertMergedLines position [EmptyString; EmptyString] w
    = Ok (mkPoint (row position + 1) 0) w1 /\
    removeNewLine (row position) w1 = Ok tt w2 /\
    _lines (doc w2) = _lines (doc w).
Proof.
  intros Hr Hc. assert (Hw : hasLine w) by (unfold hasLine; lia).
  destruct position as [r c]. cbn [row column] in *.
  destruct (one_row (_lines (doc w)) r Hr) as (A & line & B & HX & HA). subst r.
  rewrite (getLine_middle _ A line B HX) in Hc.
  destruct (insertMergedLines_run w (mkPoint (Z.of_nat (length A)) c)
              [EmptyString; EmptyString] Hw ltac:(done))
    as (w1 & Hins & Hlines1 & _).
  cbn [row column] in Hins, Hlines1.
  rewrite clippedPos_inside in Hins, Hlines1
    by (rewrite ?(getLine_middle _ A line B HX); done).
  assert (Hend : insertEnd (mkPoint (Z.of_nat (length A)) c) [EmptyString; EmptyString]
                 = mkPoint (Z.of_nat (length A) + 1) 0).
  { unfold insertEnd. simpl. f_equal. lia. }
  rewrite Hend in Hins.
  rewrite HX, insertLines_middle in Hlines1.
  cbn [ApplyDelta.mergeLines removelast List.last app] in Hlines1.
  rewrite app_empty_r, sapp_nil in Hlines1.
  assert (Hlen1 : getLength (doc w1) = getLength (doc w) + 1).
  { unfold getLength. rewrite Hlines1, HX, !length_app. simpl. lia. }
  exists w1. eexists. split; [exact Hins|].
  rewrite removeNewLine_run by (unfold getLength in *; lia). split; [reflexivity|].
  cbn [doc spliced _lines].
  rewrite (getLine_middle _ A _ _ Hlines1), Hlines1, removeLines_join.
  by rewrite substring_split.
Qed.

(** A line break into the middle of the first row of two. *)
Lemma removeNewLine_after_insert_witness :
  let w := mkWorld (mkDocument ["abcd"; "ef"] EmptyString auto) [] [] [] [] in
  exists w1 w2,
    insertMergedLines (mkPoint 0 2) [EmptyString; EmptyString] w
    = Ok (mkPoint 1 0) w1 /\
    removeNewLine 0 w1 = Ok tt w2 /\
    _lines (doc w2) = _lines (doc w).
Proof.
  intros w.
  apply (removeNewLine_after_insert w (mkPoint 0 2)); vm_compute;
    intuition congruence.
Defined.

(** ** Removing and replacing ranges *)

Section RemoveRun.

(** The splice of a remove from a position to itself changes nothing. *)
Lemma removeLines_noop X s e :
  ApplyDelta.positionInDocument X s = true ->
  row e = row s -> column e = column s ->
  removeLines X s e = X.
Proof.
  intros Hs Hr Hc.
  destruct (positionInDocument_elim _ _ Hs) as (line & Hline & _ & _ & Hat).
  unfold removeLines. rewrite Hr, Hc, Hat, substring_split.
  by apply take_drop_middle.
Qed.

Lemma length_removeLines X s e :
  0 <= row s <= row e -> row e < Z.of_nat (length X) ->
  Z.of_nat (length (removeLines X s e))
  = Z.of_nat (length X) - (row e - row s).
Proof.
  intros Hr He. unfold removeLines.
  rewrite !length_app, length_take, length_drop. simpl. lia.
Qed.

Lemma comparePoints_rows s e : Range.comparePoints s e <= 0 -> row s <= row e.
Proof.
  unfold Range.comparePoints. destruct (Z.eqb_spec (row s - row e) 0); lia.
Qed.

(** [remove] with the clipped start not after the clipped end. *)
Lemma remove_run w range :
  hasLine w ->
  let s := clippedPos (doc w) (Some (row (rstart range)))
                      (Some (column (rstart range))) in
  let e := clippedPos (doc w) (Some (row (rend range)))
                      (Some (column (rend range))) in
  Range.comparePoints s e <= 0 ->
  exists w',
    remove range w = Ok s w' /\
    _lines (doc w') = removeLines (_lines (doc w)) s e /\
    _autoNewLine (doc w') = _autoNewLine (doc w) /\
    _newLineMode (doc w') = _newLineMode (doc w).
Proof.
  intros Hw s e Hcmp. unfold remove. unfold bind at 1, gets. fold s e.
  set (Dd := mkDelta s e remove_ (getLinesForRange (doc w) (mkRange s e))).
  destruct (newDeltaOf_eval w Dd) as [Hnew HD].
  rewrite (bind_ok _ _ _ _ _ Hnew). cbv beta iota.
  pose proof (clippedPos_in_document (doc w) (row (rstart range))
                (Some (column (rstart range))) Hw) as Hs.
  pose proof (clippedPos_in_document (doc w) (row (rend range))
                (Some (column (rend range))) Hw) as He.
  fold s in Hs. fold e in He.
  destruct (positionInDocument_range _ _ Hs) as [Hrs _].
  destruct (positionInDocument_range _ _ He) as [Hre _].
  pose proof (comparePoints_rows s e Hcmp) as Hrows.
  assert (Hstart : points (withDelta w Dd) !! length (points w) = Some s).
  { unfold withDelta. cbn [points]. by rewrite lookup_app_r, Nat.sub_diag by lia. }
  destruct (isNoop Dd) eqn:Hnoop.
  - assert (Hrun : applyDelta (length (deltas w)) false (withDelta w Dd)
                   = Ok tt (withDelta w Dd)).
    { unfold applyDelta. by rewrite (applyDelta__cases _ _ _ HD), Hnoop. }
    rewrite (bind_ok _ _ _ _ _ Hrun).
    rewrite (bind_ok _ _ _ _ _ (readPoint_ok _ _ _ Hstart)).
    exists (withDelta w Dd). rewrite clonePos_id. split; [done|].
    cbn [doc withDelta]. unfold isNoop, Dd in Hnoop. cbn in Hnoop.
    apply Z.eqb_eq, comparePoints_zero in Hnoop as [Hr Hc].
    by rewrite removeLines_noop.
  - assert (Hrun : applyDelta (length (deltas w)) false (withDelta w Dd)
                   = Ok tt (spliced (withDelta w Dd)
                              (removeLines (_lines (doc w)) s e)
                              (length (deltas w)))).
    { apply (applyDelta_remove (withDelta w Dd) _ Dd); try done;
        [|simpl; lia|simpl; lia].
      right. apply validateDelta_remove; try done.
      simpl. rewrite length_getLinesForRange; [lia|lia|unfold getLength; lia]. }
    rewrite (bind_ok _ _ _ _ _ Hrun).
    rewrite (bind_ok _ _ _ _ _
               (readPoint_ok (spliced (withDelta w Dd) _ _) _ _ Hstart)).
    eexists. rewrite clonePos_id. split; [reflexivity|]. done.
Qed.

(** The lines of a range end where the range ends. *)
Lemma insertEnd_range_lines D0 s e :
  ApplyDelta.positionInDocument (_lines D0) s = true ->
  ApplyDelta.positionInDocument (_lines D0) e = true ->
  Range.comparePoints s e <= 0 ->
  insertEnd s (getLinesForRange D0 (mkRange s e)) = e.
Proof.
  intros Hs He Hcmp.
  destruct (positionInDocument_elim _ _ Hs) as (ls & Hls & Hrs & Hcs & _).
  destruct (positionInDocument_elim _ _ He) as (le & Hle & Hre & Hce & _).
  destruct s as [rs cs], e as [re ce]. cbn [row column] in *.
  unfold Range.comparePoints in Hcmp. cbn [row column] in Hcmp.
  destruct (Z.eqb_spec (rs - re) 0) as [Erow|Erow].
  - assert (re = rs) as -> by lia. rewrite Hls in Hle. injection Hle as <-.
    destruct (one_row (_lines D0) rs Hrs) as (A & line & B & HX & ->).
    rewrite HX, Nat2Z.id, list_lookup_middle in Hls by done. injection Hls as ->.
    rewrite (getLinesForRange_row D0 A ls B cs ce HX).
    unfold insertEnd. cbn [row column length List.last].
    change (Z.of_nat 1 =? 1) with true. cbv iota.
    rewrite strlen_substring by lia. f_equal; lia.
  - destruct (two_rows (_lines D0) rs re ltac:(lia) ltac:(lia))
      as (A & x & Mid & y & B & HX & -> & ->).
    assert (y = le) as ->.
    { rewrite HX in Hle.
      replace (Z.to_nat (Z.of_nat (length A) + 1 + Z.of_nat (length Mid)))
        with (length (A ++ x :: Mid)) in Hle by (rewrite length_app; simpl; lia).
      replace (A ++ x :: Mid ++ y :: B) with ((A ++ x :: Mid) ++ y :: B) in Hle
        by (by rewrite <- app_assoc).
      rewrite list_lookup_middle in Hle by done. congruence. }
    rewrite (getLinesForRange_middle D0 A x Mid le B cs ce HX).
    unfold insertEnd. cbn [row column].
    rewrite app_comm_cons, last_last, length_app. cbn [length].
    destruct (Z.eqb_spec (Z.of_nat (S (length Mid) + 1)) 1); [lia|].
    rewrite strlen_substring by lia. f_equal; lia.
Qed.

(** [insert] at any position of a document with a line. *)
Lemma insert_run w p text :
  hasLine w ->
  let s := clippedPos (doc w) (Some (row p)) (Some (column p)) in
  exists w',
    insert p text w = Ok (insertEnd s (_split text)) w' /\
    _lines (doc w') = insertLines (_lines (doc w)) s (_split text) /\
    _newLineMode (doc w') = _newLineMode (doc w) /\
    _autoNewLine (doc w')
    = if getLength (doc w) <=? 1
      then default (String JS.LF EmptyString) (JS.firstEOL text)
      else _autoNewLine (doc w).
Proof.
  intros Hw s. rewrite insert_eval.
  assert (Hne : _split text <> []) by apply splitEOL_nonempty.
  destruct (getLength (doc w) <=? 1).
  - set (w1 := mkWorld _ _ _ _ _).
    destruct (insertMergedLines_run w1 p (_split text) Hw Hne)
      as (w' & Hrun & Hlines & Hnl & Hmode).
    by exists w'.
  - destruct (insertMergedLines_run w p (_split text) Hw Hne)
      as (w' & Hrun & Hlines & Hnl & Hmode).
    by exists w'.
Qed.

End RemoveRun.

(** X24. On a document with a line at least, [remove] clips both ends of
    the range to the document; when the clipped start is not after the
    clipped end it returns the clipped start and leaves, on the row of the
    start, what was before the start followed by what was after the end,
    the rows in between being gone: the document has a row less for each
    row that the clipped range spans. *)
Theorem remove_range (w : World) (range : IRange) :
  hasLine w ->
  let s := clippedPos (doc w) (Some (row (rstart range)))
                      (Some (column (rstart range))) in
  let e := clippedPos (doc w) (Some (row (rend range)))
                      (Some (column (rend range))) in
  Range.comparePoints s e <= 0 ->
  exists w',
    remove range w = Ok s w' /\
    _lines (doc w')
    = take (Z.to_nat (row s)) (_lines (doc w))
      ++ [JS.substring (getLine (doc w) (row s)) 0 (column s)
          +:+ JS.substringFrom (getLine (doc w) (row e)) (column e)]
      ++ drop (S (Z.to_nat (row e))) (_lines (doc w)) /\
    getLength (doc w') = getLength (doc w) - (row e - row s).
Proof.
  intros Hw s e Hcmp.
  destruct (remove_run w range Hw Hcmp) as (w' & Hrun & Hlines & _).
  fold s e in Hrun, Hlines. exists w'. split; [done|].
  pose proof (clippedPos_in_document (doc w) (row (rstart range))
                (Some (column (rstart range))) Hw) as Hs.
  pose proof (clippedPos_in_document (doc w) (row (rend range))
                (Some (column (rend range))) Hw) as He.
  fold s in Hs. fold e in He.
  destruct (positionInDocument_range _ _ Hs) as [Hrs _].
  destruct (positionInDocument_range _ _ He) as [Hre _].
  pose proof (comparePoints_rows s e Hcmp) as Hrows.
  split.
  - rewrite Hlines, !getLine_lineAt. reflexivity.
  - unfold getLength. rewrite Hlines. apply length_removeLines; lia.
Qed.

(** From the middle of the first row to the middle of the last of three. *)
Lemma remove_range_witness :
  let w := mkWorld (mkDocument ["abcd"; "ef"; "ghij"] EmptyString auto) [] [] [] [] in
  exists w',
    remove (mkRange (mkPoint 0 1) (mkPoint 2 3)) w = Ok (mkPoint 0 1) w' /\
    _lines (doc w') = ["aj"] /\
    getLength (doc w') = 1.
Proof.
  intros w.
  apply (remove_range w (mkRange (mkPoint 0 1) (mkPoint 2 3)));
    [vm_compute; congruence | vm_compute; congruence].
Defined.

(** X25. [insertMergedLines] undoes [remove]: for a range of the document
    with its start not after its end, inserting the lines that
    [getLinesForRange] gave for the range before it was removed, at the
    position that [remove] returned, ends at the end of the range and
    leaves the lines of the document as they were. *)
Theorem insertMergedLines_after_remove (w : World) (range : IRange) :
  0 <= row (rstart range) < getLength (doc w) ->
  0 <= column (rstart range) <= JS.strlen (getLine (doc w) (row (rstart range))) ->
  0 <= row (rend range) < getLength (doc w) ->
  0 <= column (rend range) <= JS.strlen (getLine (doc w) (row (rend range))) ->
  Range.comparePoints (rstart range) (rend range) <= 0 ->
  exists w1 w2,
    remove range w = Ok (rstart range) w1 /\
    insertMergedLines (rstart range) (getLinesForRange (doc w) range) w1
    = Ok (rend range) w2 /\
    _lines (doc w2) = _lines (doc w).
Proof.
  intros Hrs Hcs Hre Hce Hcmp. destruct range as [[rs cs] [re ce]].
  cbn [rstart rend row column] in *.
  set (s := mkPoint rs cs) in *. set (e := mkPoint re ce) in *.
  assert (Hw : hasLine w) by (unfold hasLine; lia).
  pose proof (positionInDocument_getLine (doc w) s Hrs Hcs) as Hs.
  pose proof (positionInDocument_getLine (doc w) e Hre Hce) as He.
  assert (Hcs' : clippedPos (doc w) (Some rs) (Some cs) = s)
    by (by apply clippedPos_inside).
  assert (Hce' : clippedPos (doc w) (Some re) (Some ce) = e)
    by (by apply clippedPos_inside).
  destruct (remove_run w (mkRange s e) Hw) as (w1 & Hrem & Hlines1 & _);
    cbn [rstart rend row column s e]; rewrite ?Hcs', ?Hce'; [done|].
  cbn [rstart rend row column s e] in Hrem, Hlines1.
  rewrite Hcs' in Hrem, Hlines1. rewrite Hce' in Hlines1.
  pose proof (position_after_remove _ _ _ Hs He (comparePoints_rows s e Hcmp)) as Hs1.
  rewrite <- Hlines1 in Hs1.
  destruct (positionInDocument_range _ _ Hs1) as [Hrs1 Hcs1].
  rewrite <- getLine_lineAt in Hcs1.
  assert (Hw1 : hasLine w1) by (unfold hasLine, getLength; lia).
  destruct (isNoop_range_lines (doc w) s e Hs He Hcmp) as [Hne _].
  destruct (insertMergedLines_run w1 s (getLinesForRange (doc w) (mkRange s e)) Hw1 Hne)
    as (w2 & Hins & Hlines2 & _).
  rewrite clippedPos_inside in Hins, Hlines2 by (unfold getLength; done).
  change (mkPoint (row s) (column s)) with s in Hins, Hlines2.
  rewrite insertEnd_range_lines in Hins by done.
  exists w1, w2. split; [done|]. split; [done|].
  rewrite Hlines2, Hlines1. by apply insertLines_removeLines.
Qed.

(** From the middle of the first row to the middle of the last of three. *)
Lemma insertMergedLines_after_remove_witness :
  let w := mkWorld (mkDocument ["abcd"; "ef"; "ghij"] EmptyString auto) [] [] [] [] in
  let range := mkRange (mkPoint 0 1) (mkPoint 2 3) in
  exists w1 w2,
    remove range w = Ok (mkPoint 0 1) w1 /\
    insertMergedLines (mkPoint 0 1) (getLinesForRange (doc w) range) w1
    = Ok (mkPoint 2 3) w2 /\
    _lines (doc w2) = _lines (doc w).
Proof.
  intros w range.
  apply (insertMergedLines_after_remove w range); vm_compute; intuition congruence.
Defined.

(** ** Replacing a range and the whole text *)

Section Replacing.

Lemma getLinesForRange_empty D p : getLinesForRange D (mkRange p p) = [EmptyString].
Proof.
  unfold getLinesForRange. cbn [rstart rend]. rewrite Z.eqb_refl.
  by rewrite substring_same.
Qed.

Lemma isEmpty_ends r : Range.isEmpty r = true -> rend r = rstart r.
Proof.
  unfold Range.isEmpty. intros [Hr Hc]%andb_prop.
  apply Z.eqb_eq in Hr, Hc. destruct r as [[rs cs] [re ce]]. simpl in *.
  by subst.
Qed.

Lemma falsy_text text : JS.falsy (Some text) = true <-> text = EmptyString.
Proof. unfold JS.falsy. case_decide; split; done. Qed.

End Replacing.

(** X26. For a range of the document with its start not after its end, and
    a text that is not already the text of the range, [replace] removes the
    range, inserts the text at its start and returns where the text ends:
    the lines of the range from the start to the position returned are the
    pieces of the text between its line breaks, and the document has lost
    the rows that the range spanned and gained a row for each line break of
    the text. *)
Theorem replace_read_back (w : World) (range : IRange) (text : string) :
  0 <= row (rstart range) < getLength (doc w) ->
  0 <= column (rstart range) <= JS.strlen (getLine (doc w) (row (rstart range))) ->
  0 <= row (rend range) < getLength (doc w) ->
  0 <= column (rend range) <= JS.strlen (getLine (doc w) (row (rend range))) ->
  Range.comparePoints (rstart range) (rend range) <= 0 ->
  text <> getTextRange (doc w) range ->
  exists e w',
    replace range text w = Ok e w' /\
    getLinesForRange (doc w') (mkRange (rstart range) e) = _split text /\
    getLength (doc w')
    = getLength (doc w) - (row (rend range) - row (rstart range))
      + Z.of_nat (length (_split text)) - 1.
Proof.
  intros Hrs Hcs Hre Hce Hcmp Hdiff.
  assert (Hw : hasLine w) by (unfold hasLine; lia).
  unfold replace. unfold bind at 1, gets. cbv beta iota.
  destruct ((JS.strlen text =? 0) && Range.isEmpty range) eqn:Hfirst.
  { exfalso. apply andb_prop in Hfirst as [Ht Hr]. apply Hdiff.
    apply Z.eqb_eq, strlen_empty_inv in Ht. subst text.
    destruct range as [ps pe]. apply isEmpty_ends in Hr. cbn in Hr. subst pe.
    unfold getTextRange. by rewrite getLinesForRange_empty. }
  case_decide as Hsame; [done|].
  destruct range as [s e]. cbn [rstart rend] in *.
  pose proof (positionInDocument_getLine (doc w) s Hrs Hcs) as Hs.
  pose proof (positionInDocument_getLine (doc w) e Hre Hce) as He.
  assert (Hcs' : clippedPos (doc w) (Some (row s)) (Some (column s)) = s)
    by (destruct s; by apply clippedPos_inside).
  assert (Hce' : clippedPos (doc w) (Some (row e)) (Some (column e)) = e)
    by (destruct e; by apply clippedPos_inside).
  destruct (remove_run w (mkRange s e) Hw) as (w1 & Hrem & Hlines1 & _);
    cbn [rstart rend]; rewrite ?Hcs', ?Hce'; [done|].
  cbn [rstart rend] in Hrem, Hlines1.
  rewrite Hcs' in Hrem, Hlines1. rewrite Hce' in Hlines1.
  rewrite (bind_ok _ _ _ _ _ Hrem).
  pose proof (comparePoints_rows s e Hcmp) as Hrows.
  pose proof (position_after_remove _ _ _ Hs He Hrows) as Hs1.
  rewrite <- Hlines1 in Hs1.
  destruct (positionInDocument_range _ _ Hs1) as [Hrs1 Hcs1].
  rewrite <- getLine_lineAt in Hcs1.
  assert (Hlen1 : getLength (doc w1) = getLength (doc w) - (row e - row s)).
  { unfold getLength. rewrite Hlines1. apply length_removeLines; unfold getLength in *; lia. }
  assert (Hw1 : hasLine w1) by (unfold hasLine, getLength; lia).
  destruct (JS.falsy (Some text)) eqn:Hfalsy.
  - apply falsy_text in Hfalsy. subst text.
    exists s, w1. split; [done|]. split; [apply getLinesForRange_empty|].
    rewrite Hlen1. simpl. lia.
  - destruct (insert_run w1 s text Hw1) as (w2 & Hins & Hlines2 & _).
    assert (Hcs1' : clippedPos (doc w1) (Some (row s)) (Some (column s)) = s)
      by (destruct s; apply clippedPos_inside; unfold getLength; done).
    rewrite Hcs1' in Hins, Hlines2.
    exists (insertEnd s (_split text)), w2. split; [done|].
    assert (Hne : _split text <> []) by apply splitEOL_nonempty.
    split.
    + by apply (getLinesForRange_insertLines (doc w2) (_lines (doc w1)) s).
    + unfold getLength at 1. rewrite Hlines2, length_insertLines_eq by done.
      unfold getLength in Hlen1. rewrite Hlen1. unfold getLength. lia.
Qed.

(** The middle of a document of three rows replaced by a text of two
    lines. *)
Lemma replace_read_back_witness :
  let w := mkWorld (mkDocument ["abcd"; "ef"; "ghij"] EmptyString auto) [] [] [] [] in
  let range := mkRange (mkPoint 0 1) (mkPoint 2 3) in
  let text := "X" +:+ String JS.LF "Y" in
  exists e w',
    replace range text w = Ok e w' /\
    getLinesForRange (doc w') (mkRange (mkPoint 0 1) e) = _split text /\
    getLength (doc w') = 3 - (2 - 0) + Z.of_nat (length (_split text)) - 1.
Proof.
  intros w range text.
  apply (replace_read_back w range text); vm_compute; intuition congruence.
Defined.

Section SetValue.

Lemma setValue_run (w : World) (text : string) :
  hasLine w ->
  exists w',
    setValue text w = Ok tt w' /\
    _lines (doc w') = _split text /\
    _autoNewLine (doc w') = default (String JS.LF EmptyString) (JS.firstEOL text) /\
    _newLineMode (doc w') = _newLineMode (doc w).
Proof.
  intros Hw. unfold setValue. unfold bind at 1, gets. cbv beta iota zeta.
  set (len := getLength (doc w) - 1).
  pose proof Hw as Hlen. unfold hasLine in Hlen.
  pose proof (strlen_nonneg (getLine (doc w) len)) as Hlast.
  pose proof (strlen_nonneg (getLine (doc w) 0)) as Hfirst.
  assert (Hcs' : clippedPos (doc w) (Some 0) (Some 0) = mkPoint 0 0)
    by (apply clippedPos_inside; lia).
  assert (Hce' : clippedPos (doc w) (Some len) (Some (JS.strlen (getLine (doc w) len)))
                 = mkPoint len (JS.strlen (getLine (doc w) len)))
    by (apply clippedPos_inside; unfold len in *; lia).
  destruct (remove_run w (Range.new 0 0 len (JS.strlen (getLine (doc w) len))) Hw)
    as (w1 & Hrem & Hlines1 & Hnl1 & Hmode1);
    unfold Range.new; cbn [rstart rend row column]; rewrite ?Hcs', ?Hce'.
  { unfold Range.comparePoints. cbn [row column].
    destruct (Z.eqb_spec (0 - len) 0); lia. }
  unfold Range.new in Hrem, Hlines1. cbn [rstart rend row column] in Hrem, Hlines1.
  rewrite Hcs' in Hrem, Hlines1. rewrite Hce' in Hlines1.
  rewrite getLine_lineAt, removeLines_all in Hlines1
    by (unfold len, getLength in *; lia).
  rewrite (bind_ok _ _ _ _ _ Hrem). rewrite orElse_line.
  assert (Hw1 : hasLine w1) by (unfold hasLine, getLength; by rewrite Hlines1).
  destruct (insert_run w1 (mkPoint 0 0) text Hw1) as (w2 & Hins & Hlines2 & Hmode2 & Hnl2).
  rewrite (bind_ok _ _ _ _ _ Hins). exists w2. split; [done|].
  cbn [row column] in Hlines2.
  assert (Hcs1 : clippedPos (doc w1) (Some 0) (Some 0) = mkPoint 0 0)
    by (by unfold clippedPos, getLength, getLine; rewrite Hlines1).
  rewrite Hcs1, Hlines1 in Hlines2.
  rewrite insertLines_into_empty in Hlines2 by apply splitEOL_nonempty.
  split; [done|]. split; [|congruence].
  rewrite Hnl2. unfold getLength. by rewrite Hlines1.
Qed.

End SetValue.

(** X27. On a document with a line at least, whatever it holds, [setValue]
    leaves the pieces of the text between its line breaks as the lines of
    the document, one empty line for an empty text, and sets
    [$autoNewLine] to the first separator of the text, a line feed when
    there is none; the newline mode is as it was. *)
Theorem setValue_lines (w : World) (text : string) :
  hasLine w ->
  exists w',
    setValue text w = Ok tt w' /\
    _lines (doc w') = _split text /\
    _autoNewLine (doc w') = default (String JS.LF EmptyString) (JS.firstEOL text) /\
    _newLineMode (doc w') = _newLineMode (doc w).
Proof. apply setValue_run. Qed.

(** A text of two lines with a carriage return and a line feed between
    them, set on a document of three rows. *)
Lemma setValue_lines_witness :
  let w := mkWorld (mkDocument ["abcd"; "ef"; "ghij"] EmptyString auto) [] [] [] [] in
  let text := "X" +:+ String JS.CR (String JS.LF "Y") in
  exists w',
    setValue text w = Ok tt w' /\
    _lines (doc w') = _split text /\
    _autoNewLine (doc w') = default (String JS.LF EmptyString) (JS.firstEOL text) /\
    _newLineMode (doc w') = auto.
Proof.
  intros w text. apply (setValue_lines w text). vm_compute. congruence.
Defined.

(** X28. In the newline mode [auto], [setValue] followed by [getValue]
    gives the text back when the line breaks of the text are all the same
    separator: for lines without carriage return and line feed joined by
    one of the three separators, whatever the document held before. *)
Theorem setValue_getValue (w : World) (sep : string) (ls : list string) :
  hasLine w ->
  _newLineMode (doc w) = auto ->
  isSeparator sep ->
  ls <> [] ->
  Forall (fun x => noEOL x = true) ls ->
  exists w',
    setValue (JS.join sep ls) w = Ok tt w' /\
    _lines (doc w') = ls /\
    getValue (doc w') = JS.join sep ls.
Proof.
  intros Hw Hauto Hsep Hne Hls.
  destruct (setValue_run w (JS.join sep ls) Hw) as (w' & Hrun & Hlines & Hnl & Hmode).
  exists w'. split; [done|].
  unfold _split in Hlines. rewrite (splitEOL_join sep ls Hsep Hne Hls) in Hlines.
  split; [done|].
  unfold getValue. rewrite getAllLines_all, Hlines.
  unfold getNewLineCharacter. rewrite Hmode, Hauto, Hnl.
  destruct ls as [|x [|y ls']]; [done|done|].
  rewrite (firstEOL_join sep x y ls' Hsep Hls). cbn [default].
  rewrite orElse_line_or. case_decide as E; [|done].
  destruct Hsep as [->| [->| ->]]; discriminate E.
Qed.

(** Two lines joined by a carriage return and a line feed, set on a
    document of three rows. *)
Lemma setValue_getValue_witness :
  let w := mkWorld (mkDocument ["abcd"; "ef"; "ghij"] EmptyString auto) [] [] [] [] in
  let sep := String JS.CR (String JS.LF EmptyString) in
  exists w',
    setValue (JS.join sep ["X"; "Y"]) w = Ok tt w' /\
    _lines (doc w') = ["X"; "Y"] /\
    getValue (doc w') = JS.join sep ["X"; "Y"].
Proof.
  intros w sep.
  apply (setValue_getValue w sep ["X"; "Y"]);
    [vm_compute; congruence | reflexivity | right; by left | congruence
    | by repeat constructor].
Defined.

(** ** Applying and reverting deltas in sequence *)

Section Sequences.

Lemma deltaAt_preserved w w' d D :
  preserved (points w) (points w') ->
  preserved (arrays w) (arrays w') ->
  preserved (deltas w) (deltas w') ->
  deltaAt w d = Some D -> deltaAt w' d = Some D.
Proof.
  intros Pp Pa Pd HD.
  destruct (deltaAt_Some _ _ _ HD) as (o & Ho & Hs & He & Hl & Hact).
  destruct D as [s e a l]. simpl in *. rewrite <- Hact.
  apply (deltaAt_intro w' d o s e l); auto.
Qed.

Lemma preserved_refl {A} (l : list A) : preserved l l.
Proof. by intros r x. Qed.

Lemma preserved_trans {A} (l1 l2 l3 : list A) :
  preserved l1 l2 -> preserved l2 l3 -> preserved l1 l3.
Proof. intros H1 H2 r x Hx. by apply H2, H1. Qed.

(** [revertDelta] keeps every object that was there. *)
Lemma revertDelta_preserves w d D :
  deltaAt w d = Some D ->
  let w' := worldOf (revertDelta d w) in
  preserved (points w) (points w') /\
  preserved (arrays w) (arrays w') /\
  preserved (deltas w) (deltas w').
Proof.
  intros HD w'. unfold w'. destruct (revertDelta_eval _ _ _ HD) as [-> HI].
  set (w1 := withInverse w D) in *. set (d1 := length (deltas w)) in *.
  assert (H1 : preserved (points w) (points w1) /\
               preserved (arrays w) (arrays w1) /\
               preserved (deltas w) (deltas w1)).
  { unfold w1, withInverse, preserved. simpl.
    repeat split; intros r x Hx; by apply lookup_app_l_Some. }
  destruct (deltaAt_Some _ _ _ HI) as (o & Ho & Hs & He & Hl & Hact).
  assert (Hso : o_start o = length (points w)).
  { unfold w1, withInverse, d1 in Ho. simpl in Ho.
    rewrite lookup_app_r, Nat.sub_diag in Ho by lia. by injection Ho as <-. }
  assert (Hcases : _safeApplyDelta d1 w1 = Ok tt w1 \/
                   _safeApplyDelta d1 w1 = applyDelta d1 false w1).
  { rewrite (safeApplyDelta_cases _ _ _ HI).
    destruct (match action (inverseOf D) with insert_ => _ | remove_ => _ end);
      [by right|by left]. }
  destruct Hcases as [-> | ->]; [done|].
  destruct (applyDelta_frame w1 d1 (inverseOf D) o false HI Ho) as (Fp & Fa & Fd).
  destruct H1 as (Pp & Pa & Pd). repeat split; intros r x Hx.
  - rewrite Fp; [by apply Pp| |].
    + rewrite Hso. apply lookup_lt_Some in Hx. lia.
    + unfold w1, withInverse. simpl. rewrite length_app.
      apply lookup_lt_Some in Hx. lia.
  - rewrite Fa; [by apply Pa|].
    unfold w1, withInverse. simpl. rewrite length_app.
    apply lookup_lt_Some in Hx. lia.
  - rewrite Fd; [by apply Pd| |].
    + unfold d1. apply lookup_lt_Some in Hx. lia.
    + unfold w1, withInverse. simpl. rewrite length_app.
      apply lookup_lt_Some in Hx. lia.
Qed.

(** What the splice of a well-formed delta leaves. *)
Lemma applied_wellFormed D0 D :
  wellFormed D0 D ->
  applied (_lines D0) D
  = match action D with
    | insert_ => insertLines (_lines D0) (start D) (lines D)
    | remove_ => removeLines (_lines D0) (start D) (end_ D)
    end.
Proof.
  intros [Hs Hwf]. unfold applied. destruct (action D) eqn:Ha.
  - unfold ApplyDelta.splice. by rewrite Ha.
  - destruct Hwf as (He & Hcmp & _).
    destruct (positionInDocument_range _ _ Hs) as [Hrs _].
    destruct (positionInDocument_range _ _ He) as [Hre _].
    pose proof (comparePoints_rows _ _ Hcmp).
    rewrite splice_remove by (done || lia). done.
Qed.

Lemma isNoop_applied D0 D :
  wellFormed D0 D -> isNoop D = true -> applied (_lines D0) D = _lines D0.
Proof.
  intros Hwf Hnoop. rewrite (applied_wellFormed _ _ Hwf).
  destruct Hwf as [Hs Hwf]. unfold isNoop in Hnoop.
  destruct (action D).
  - destruct Hwf as [Hne _]. apply andb_prop in Hnoop as [Hlen Hfalsy].
    apply Z.leb_le in Hlen.
    destruct (lines D) as [|x [|y L]]; [done| |simpl length in Hlen; lia].
    unfold JS.falsy in Hfalsy. simpl in Hfalsy. case_decide; [subst x|done].
    by apply insertLines_noop.
  - apply Z.eqb_eq, comparePoints_zero in Hnoop as [Hr Hc].
    by apply removeLines_noop.
Qed.

(** A well-formed delta that is not split is applied, the objects being
    as they were. *)
Lemma applyDelta_step w d D doNotValidate :
  deltaAt w d = Some D -> wellFormed (doc w) D -> isLarge D = false ->
  exists w1,
    applyDelta d doNotValidate w = Ok tt w1 /\
    doc w1 = after (doc w) D /\
    points w1 = points w /\ arrays w1 = arrays w /\ deltas w1 = deltas w.
Proof.
  intros HD Hwf Hlarge. pose proof Hwf as [Hs Hwf'].
  destruct (isNoop D) eqn:Hnoop.
  { exists w. split; [unfold applyDelta; by rewrite (applyDelta__cases _ _ _ HD), Hnoop|].
    split; [|done]. unfold after. rewrite isNoop_applied by done.
    symmetry. apply document_eta. }
  unfold after. rewrite (applied_wellFormed _ _ Hwf).
  destruct (action D) eqn:Ha.
  - destruct Hwf' as [HL He].
    assert (Hlen : Z.of_nat (length (lines D)) <= 20000).
    { unfold isLarge in Hlarge. rewrite Ha in Hlarge. lia. }
    eexists. split.
    + apply (applyDelta__insert w d D); try done. right.
      apply validateDelta_insert; try done. rewrite He. unfold insertEnd. simpl. lia.
    + done.
  - destruct Hwf' as (He & Hcmp & HL).
    destruct (positionInDocument_range _ _ Hs) as [Hrs _].
    destruct (positionInDocument_range _ _ He) as [Hre _].
    pose proof (comparePoints_rows _ _ Hcmp) as Hrows.
    eexists. split.
    + refine (applyDelta_remove w d D doNotValidate HD Ha Hnoop _ _ _); [|lia|lia].
      right. apply validateDelta_remove; try done.
      rewrite HL, length_getLinesForRange; [lia|lia|unfold getLength; lia].
    + done.
Qed.

(** Reverting such a delta in a world whose document is what the delta
    left. *)
Lemma revertDelta_step w1 d D D0 :
  deltaAt w1 d = Some D -> wellFormed D0 D -> isLarge D = false ->
  doc w1 = after D0 D ->
  exists w2, revertDelta d w1 = Ok tt w2 /\ doc w2 = D0.
Proof.
  intros HD Hwf Hlarge Hdoc. pose proof Hwf as [Hs Hwf'].
  assert (Hlines1 : _lines (doc w1) = applied (_lines D0) D) by by rewrite Hdoc.
  assert (Hnl1 : _autoNewLine (doc w1) = _autoNewLine D0) by by rewrite Hdoc.
  assert (Hmode1 : _newLineMode (doc w1) = _newLineMode D0) by by rewrite Hdoc.
  assert (Heta : forall X, X = _lines D0 ->
             mkDocument X (_autoNewLine (doc w1)) (_newLineMode (doc w1)) = D0).
  { intros X ->. rewrite Hnl1, Hmode1. apply document_eta. }
  pose proof (applied_wellFormed _ _ Hwf) as Happ.
  destruct D as [s e a L]. cbn [start end_ action lines] in *.
  set (D := mkDelta s e a L) in *. set (X := _lines D0) in *.
  destruct (isNoop D) eqn:Hnoop.
  { exists (withInverse w1 D). split.
    - apply revertDelta_noop; [done|]. unfold inverseOf, D in *. simpl.
      destruct a; simpl.
      + destruct Hwf' as [HL ->]. by rewrite isNoop_insert_end in Hnoop.
      + destruct Hwf' as (He & Hcmp & ->).
        destruct (isNoop_range_lines D0 s e Hs He Hcmp) as [_ ->].
        exact Hnoop.
    - cbn [doc withInverse]. rewrite <- (document_eta (doc w1)).
      apply Heta. rewrite Hlines1. by apply isNoop_applied. }
  rewrite Happ in Hlines1. clear Happ.
  destruct (revertDelta_eval w1 d D HD) as [Hrev HI].
  destruct a.
  - destruct Hwf' as [HL He]. subst e.
    set (e := insertEnd s L) in *.
    assert (HL1 : 1 <= Z.of_nat (length L)) by (destruct L; [done|simpl length; lia]).
    destruct (positionInDocument_range _ _ Hs) as [Hrs _].
    assert (Hlen1 : row e < Z.of_nat (length (_lines (doc w1)))).
    { pose proof (length_insertLines_eq X s L Hs HL).
      rewrite Hlines1. unfold e, insertEnd. simpl. lia. }
    assert (Hrows : 0 <= row s <= row e) by (unfold e, insertEnd; simpl; lia).
    destruct (positions_after_insert X s L Hs HL) as [Hs1 He1].
    rewrite <- Hlines1 in Hs1, He1.
    eexists. split.
    + rewrite Hrev, (safeApplyDelta_fits _ _ _ HI);
        [|left; split; [done|]; split;
          [change (row s < Z.of_nat (length (_lines (doc w1))))
          |change (row e < Z.of_nat (length (_lines (doc w1))))]; lia].
      refine (applyDelta_remove (withInverse w1 D) (length (deltas w1))
                (inverseOf D) false HI _ _ _ _ _); try done.
      * unfold D in Hnoop. rewrite isNoop_insert_end in Hnoop by done.
        exact Hnoop.
      * right. apply validateDelta_remove; try done.
        unfold e, insertEnd. simpl. lia.
    + cbn [doc spliced withInverse _lines _autoNewLine _newLineMode inverseOf start end_].
      apply Heta. rewrite Hlines1. by apply removeLines_insertLines.
  - destruct Hwf' as (He & Hcmp & HL).
    destruct (isNoop_range_lines D0 s e Hs He Hcmp) as [HLne HLnoop].
    rewrite <- HL in HLne, HLnoop.
    assert (Hcmp0 : (Range.comparePoints s e =? 0) = false) by exact Hnoop.
    pose proof (comparePoints_rows _ _ Hcmp) as Hrows.
    destruct (positionInDocument_range _ _ Hs) as [Hrs _].
    destruct (positionInDocument_range _ _ He) as [Hre _].
    assert (Hspan : row e - row s = Z.of_nat (length L) - 1).
    { pose proof (length_getLinesForRange D0 s e ltac:(lia) (proj2 Hre)) as E.
      rewrite <- HL in E. rewrite E. ring. }
    assert (Hs1 : ApplyDelta.positionInDocument (_lines (doc w1)) s = true).
    { rewrite Hlines1. apply position_after_remove; try done. }
    destruct (positionInDocument_range _ _ Hs1) as [Hrs1 _].
    destruct (applyDelta_insert_lines (withInverse w1 D) (length (deltas w1))
                (inverseOf D) false HI)
      as (w2 & Hrun & Hlines & Hnl & Hmode); try done.
    { unfold inverseOf, D. simpl. by rewrite HLnoop. }
    { right. simpl. apply validateDelta_insert; try done. }
    { simpl. lia. }
    exists w2. split.
    { rewrite Hrev, (safeApplyDelta_fits _ _ _ HI); [done|].
      right. split; [done|].
      change (row s <= Z.of_nat (length (_lines (doc w1)))). lia. }
    cbn [doc withInverse inverseOf start lines] in Hlines, Hnl, Hmode.
    rewrite <- (document_eta (doc w2)), Hnl, Hmode. apply Heta.
    rewrite Hlines, Hlines1. unfold D. cbn [start lines]. rewrite HL.
    by apply insertLines_removeLines.
Qed.

Lemma bind_assoc {A B C} (m : M A) (f : A -> M B) (g : B -> M C) w :
  bind (bind m f) g w = bind m (fun a => bind (f a) g) w.
Proof. unfold bind. by destruct (m w). Qed.

Lemma bind_ext {A B} (m : M A) (f g : A -> M B) w :
  (forall a w', f a w' = g a w') -> bind m f w = bind m g w.
Proof. intros H. unfold bind. by destruct (m w). Qed.

(** The deltas are reverted last first. *)
Lemma revertDeltas_cons d ds w :
  revertDeltas (d :: ds) w = (revertDeltas ds ;; revertDelta d) w.
Proof.
  unfold revertDeltas. cbn [rev]. generalize (rev ds). clear ds.
  intros l. revert w. induction l as [|x l IH]; intros w.
  - cbn. unfold bind. by destruct (revertDelta d w) as [[] ?|].
  - cbn [app]. rewrite bind_assoc. apply bind_ext. intros _ w'. apply IH.
Qed.

End Sequences.

Section SequencesRun.

Lemma deltaAt_same_heap w w' d :
  points w' = points w -> arrays w' = arrays w -> deltas w' = deltas w ->
  deltaAt w' d = deltaAt w d.
Proof. intros Hp Ha Hd. unfold deltaAt. by rewrite Hp, Ha, Hd. Qed.

Lemma applyDeltas_revertDeltas_gen ds : forall Ds w,
  Forall2 (fun d D => deltaAt w d = Some D) ds Ds ->
  wellFormedAll (doc w) Ds ->
  exists w1,
    applyDeltas ds w = Ok tt w1 /\
    points w1 = points w /\ arrays w1 = arrays w /\ deltas w1 = deltas w /\
    forall w1',
      doc w1' = doc w1 ->
      preserved (points w) (points w1') ->
      preserved (arrays w) (arrays w1') ->
      preserved (deltas w) (deltas w1') ->
      exists w2,
        revertDeltas ds w1' = Ok tt w2 /\ doc w2 = doc w /\
        preserved (points w1') (points w2) /\
        preserved (arrays w1') (arrays w2) /\
        preserved (deltas w1') (deltas w2).
Proof.
  induction ds as [|d ds IH]; intros Ds w Hall Hwf.
  - exists w. repeat split; try done.
    intros w1' Hdoc _ _ _. exists w1'. repeat split; try done; apply preserved_refl.
  - inversion Hall as [|d' D ds' Ds' HD Hrest]; subst.
    destruct Hwf as (Hwf & Hlarge & Hwfs).
    destruct (applyDelta_step w d D false HD Hwf Hlarge)
      as (wa & Hrun & Hdoca & Hpa & Haa & Hda).
    assert (Hrest' : Forall2 (fun d D => deltaAt wa d = Some D) ds Ds').
    { eapply Forall2_impl; [exact Hrest|]. intros d0 D1 H0. simpl in *.
      by rewrite (deltaAt_same_heap w wa). }
    rewrite <- Hdoca in Hwfs.
    destruct (IH Ds' wa Hrest' Hwfs) as (w1 & Hruns & Hp1 & Ha1 & Hd1 & Hrev).
    exists w1. split.
    { cbn [applyDeltas]. by rewrite (bind_ok _ _ _ _ _ Hrun). }
    split; [congruence|]. split; [congruence|]. split; [congruence|].
    intros w1' Hdoc Pp Pa Pd.
    rewrite <- Hpa in Pp. rewrite <- Haa in Pa. rewrite <- Hda in Pd.
    destruct (Hrev w1' Hdoc Pp Pa Pd) as (w2' & Hrev' & Hdoc2 & Pp2 & Pa2 & Pd2).
    assert (HD2 : deltaAt w2' d = Some D).
    { apply (deltaAt_preserved wa w2'); try (by eapply preserved_trans).
      by rewrite (deltaAt_same_heap w wa). }
    destruct (revertDelta_step w2' d D (doc w) HD2 Hwf Hlarge)
      as (w2 & Hrev2 & Hdocw); [congruence|].
    exists w2. split.
    { rewrite revertDeltas_cons. by rewrite (bind_ok _ _ _ _ _ Hrev'). }
    split; [done|].
    destruct (revertDelta_preserves w2' d D HD2) as (Qp & Qa & Qd).
    rewrite Hrev2 in Qp, Qa, Qd. cbn [worldOf] in Qp, Qa, Qd.
    repeat split; by eapply preserved_trans.
Qed.

End SequencesRun.

(** X29. [revertDeltas] undoes [applyDeltas]: when the deltas of an array
    are each well formed, and not split, for the document that the ones
    before them leave, [applyDeltas] applies them all, and [revertDeltas]
    for the same array, which reverts the last one first, gives the
    document back: its lines and its newline settings. *)
Theorem revertDeltas_applyDeltas (w : World) (ds : list ref) (Ds : list Delta) :
  Forall2 (fun d D => deltaAt w d = Some D) ds Ds ->
  wellFormedAll (doc w) Ds ->
  exists w1 w2,
    applyDeltas ds w = Ok tt w1 /\
    revertDeltas ds w1 = Ok tt w2 /\
    doc w2 = doc w.
Proof.
  intros Hall Hwf.
  destruct (applyDeltas_revertDeltas_gen ds Ds w Hall Hwf)
    as (w1 & Hrun & Hp & Ha & Hd & Hrev).
  destruct (Hrev w1 eq_refl) as (w2 & Hrev' & Hdoc & _).
  - rewrite Hp. apply preserved_refl.
  - rewrite Ha. apply preserved_refl.
  - rewrite Hd. apply preserved_refl.
  - by exists w1, w2.
Qed.

(** A remove across two rows, then an insert into the row that is left. *)
Lemma revertDeltas_applyDeltas_witness :
  let w := mkWorld (mkDocument ["ab"; "cd"] EmptyString auto)
                   [mkPoint 0 1; mkPoint 1 1; mkPoint 0 1; mkPoint 0 2]
                   [["b"; "c"]; ["X"]]
                   [mkDeltaObj 0%nat 1%nat remove_ 0%nat;
                    mkDeltaObj 2%nat 3%nat insert_ 1%nat] [] in
  exists w1 w2,
    applyDeltas [0%nat; 1%nat] w = Ok tt w1 /\
    revertDeltas [0%nat; 1%nat] w1 = Ok tt w2 /\
    doc w2 = doc w.
Proof.
  intros w.
  apply (revertDeltas_applyDeltas w [0%nat; 1%nat]
           [mkDelta (mkPoint 0 1) (mkPoint 1 1) remove_ ["b"; "c"];
            mkDelta (mkPoint 0 1) (mkPoint 0 2) insert_ ["X"]]).
  - repeat constructor.
  - split; [|split; [reflexivity|]].
    { split; [reflexivity|]. split; [reflexivity|]. split; [|reflexivity].
      vm_compute. discriminate. }
    split; [|split; [reflexivity|exact I]].
    split; [reflexivity|]. split; [discriminate|reflexivity].
Defined.

(** ** Every call ends *)

Section Ends.

Lemma ends_ret {A} (a : A) : ends (ret a).
Proof. done. Qed.

Lemma ends_bind {A B} (m : M A) (f : A -> M B) :
  ends m -> (forall a, ends (f a)) -> ends (bind m f).
Proof.
  intros Hm Hf w w'. unfold bind. specialize (Hm w).
  destruct (m w) as [a w1|e w1]; [apply Hf|].
  intros [= -> ->]. by apply (Hm w').
Qed.

Lemma ends_gets {A} (f : World -> A) : ends (gets f).
Proof. done. Qed.

Lemma ends_modify f : ends (modify f).
Proof. done. Qed.

Lemma ends_TypeError {A} (o : option A) : ends (orThrow o TypeError).
Proof. by destruct o. Qed.

Lemma ends_newPoint p : ends (newPoint p).
Proof. done. Qed.

Lemma ends_newArray l : ends (newArray l).
Proof. done. Qed.

Lemma ends_newDelta o : ends (newDelta o).
Proof. done. Qed.

Lemma ends_readPoint r : ends (readPoint r).
Proof. intros w w'. unfold readPoint. by destruct (_ !! _). Qed.

Lemma ends_readArray r : ends (readArray r).
Proof. intros w w'. unfold readArray. by destruct (_ !! _). Qed.

Lemma ends_readDelta r : ends (readDelta r).
Proof. intros w w'. unfold readDelta. by destruct (_ !! _). Qed.

Lemma ends_writePoint r p : ends (writePoint r p).
Proof. done. Qed.

Lemma ends_writeDelta r o : ends (writeDelta r o).
Proof. done. Qed.

Lemma ends_signal s : ends (EventEmitter._signal s).
Proof. done. Qed.

Lemma ends_setLines ls : ends (setLines ls).
Proof. done. Qed.

(** The loop and the recursion are those of [applyDelta]. *)
Lemma ends_applyDelta delta doNotValidate : ends (applyDelta delta doNotValidate).
Proof. intros w w'. apply applyDelta_never_diverges. Qed.

End Ends.

Create HintDb ends.
#[export] Hint Resolve ends_ret ends_gets ends_modify ends_TypeError
  ends_newPoint ends_newArray ends_newDelta ends_readPoint ends_readArray
  ends_readDelta ends_writePoint ends_writeDelta ends_signal ends_setLines
  ends_applyDelta : ends.

(** Walks down a method: binds, branches and destructured results. *)
Ltac ends_method :=
  repeat first
    [ solve [auto with ends]
    | apply ends_bind; [|intros ?]
    | match goal with
      | |- ends (let '(_, _) := ?x in _) => destruct x
      | |- ends (if ?b then _ else _) => destruct b
      | |- ends (match ?x with _ => _ end) => destruct x
      end ].

Section EndsMethods.

Lemma ends_detectNewLine text : ends (_detectNewLine text).
Proof. unfold _detectNewLine. ends_method. Qed.

Lemma ends_setNewLineMode mode : ends (setNewLineMode mode).
Proof. unfold setNewLineMode. ends_method. Qed.

Lemma ends_newDeltaOf s e a ls : ends (newDeltaOf s e a ls).
Proof. unfold newDeltaOf. ends_method. Qed.
Hint Resolve ends_detectNewLine ends_setNewLineMode ends_newDeltaOf : ends.

Lemma ends_insertMergedLines p ls : ends (insertMergedLines p ls).
Proof. unfold insertMergedLines. ends_method. Qed.
Hint Resolve ends_insertMergedLines : ends.

Lemma ends_insert p text : ends (insert p text).
Proof. unfold insert. ends_method. Qed.
Hint Resolve ends_insert : ends.

Lemma ends_insertInLine p text : ends (insertInLine p text).
Proof. unfold insertInLine. ends_method. Qed.

Lemma ends_insertFullLines r ls : ends (insertFullLines r ls).
Proof. unfold insertFullLines. ends_method. Qed.

Lemma ends_remove range : ends (remove range).
Proof. unfold remove. ends_method. Qed.
Hint Resolve ends_remove : ends.

Lemma ends_removeInLine r c1 c2 : ends (removeInLine r c1 c2).
Proof. unfold removeInLine. ends_method. Qed.

Lemma ends_removeFullLines r1 r2 : ends (removeFullLines r1 r2).
Proof. unfold removeFullLines. ends_method. Qed.

Lemma ends_removeNewLine r : ends (removeNewLine r).
Proof. unfold removeNewLine. ends_method. Qed.

Lemma ends_replace range text : ends (replace range text).
Proof. unfold replace. ends_method. Qed.

Lemma ends_setValue text : ends (setValue text).
Proof. unfold setValue. ends_method. Qed.

Lemma ends_safeApplyDelta d : ends (_safeApplyDelta d).
Proof. unfold _safeApplyDelta. ends_method. Qed.
Hint Resolve ends_safeApplyDelta : ends.

Lemma ends_revertDelta d : ends (revertDelta d).
Proof. unfold revertDelta. ends_method. Qed.
Hint Resolve ends_revertDelta : ends.

Lemma ends_applyDeltas ds : ends (applyDeltas ds).
Proof. induction ds; simpl; ends_method. Qed.

Lemma ends_revertDeltas ds : ends (revertDeltas ds).
Proof. unfold revertDeltas. induction (rev ds); simpl; ends_method. Qed.

Lemma ends_newDeltas ds : ends (newDeltas ds).
Proof. unfold newDeltas. induction ds; simpl; ends_method. Qed.

Lemma ends_constructor textOrLines : ends (constructor textOrLines).
Proof. unfold constructor. ends_method. Qed.

End EndsMethods.

(** X30. Every call ends.  The loop of [$splitAndapplyLargeDelta] moves on
    by [MAX - 1 = 19999] lines a round and so comes to the end of the
    lines; the chunks and the tail that it hands back to [applyDelta] hold
    at most 20000 lines each, so none of them is split again.  Hence no
    method, called on any world with any arguments, and no construction of
    a document runs for ever: each returns or throws an error of the
    code. *)
Theorem every_call_ends :
  (forall textOrLines w', newDocument textOrLines <> Throw Diverges w') /\
  (forall c w w', call c w <> Throw Diverges w').
Proof.
  split.
  - intros textOrLines w'. apply ends_constructor.
  - intros c. change (ends (call c)).
    pose proof ends_insertInLine. pose proof ends_insertFullLines.
    pose proof ends_removeInLine. pose proof ends_removeFullLines.
    pose proof ends_removeNewLine. pose proof ends_replace.
    pose proof ends_setValue. pose proof ends_setNewLineMode.
    pose proof ends_applyDeltas. pose proof ends_revertDeltas.
    pose proof ends_newDeltas. pose proof ends_newDeltaOf.
    pose proof ends_insert. pose proof ends_insertMergedLines.
    pose proof ends_remove. pose proof ends_revertDelta.
    destruct c; simpl; ends_method.
Qed.
